(** * Text and audio pre/post-processing around the cloned-voice synthesizer

    Shallow embedding of the cloner classes of the repository

      - [MultilingualVoiceCloner]            (app/voice_cloner_multilingual.py)
      - [WebSocketFixedHinglishCloner]       (app/websocket_fixed_cloner.py)
      - [FixedRealTimeHinglishVoiceCloner]   (app/voice_cloner_realtime_fixed.py)
      - [VoiceClonerSimple]                  (app/voice_cloner_simple.py)
      - [FixedHinglishCloner]                (fixed_hinglish_quality.py)

    Python strings are sequences of Unicode code points; they are lists of
    integers here, and every [re.sub] of the source is a list function of its
    own.  Waveforms are lists of samples, samples are exact rationals; the
    final cleanup of the sanitizer is embedded over binary64 numbers as well.
    The routines of NumPy, SciPy and librosa that are not written out, the
    file system and the TTS engine are parameters ([NumLib], [Engine]); a
    call that can raise yields an option or a [result].  A [try] body is a
    computation over the local variable it reassigns, so that its [except]
    clause sees the value the variable had when the exception was raised. *)

From Stdlib Require Import ZArith QArith Qabs List Bool Lia String Ascii DecimalString.
From Stdlib Require Floats.
From stdpp Require Import base list strings gmap.
Import ListNotations.
Local Open Scope Z_scope.

(** ** Code points and the character classes used by the regular expressions *)

Definition text := list Z.

(** ASCII literals of the development are written as Rocq strings. *)
Definition of_string (s : string) : text :=
  List.map (fun a => Z.of_N (N_of_ascii a)) (list_ascii_of_string s).

Definition in_range (lo hi c : Z) : bool := (lo <=? c) && (c <=? hi).

(** [str.isspace], which is also what [str.split()], [str.strip()] and the
    regex class [\s] use on [str] values (CPython's [Py_UNICODE_ISSPACE]). *)
Definition is_space (c : Z) : bool :=
  in_range 9 13 c || in_range 28 32 c || (c =? 133) || (c =? 160) ||
  (c =? 5760) || in_range 8192 8202 c || (c =? 8232) || (c =? 8233) ||
  (c =? 8239) || (c =? 8287) || (c =? 12288).

(** [[ऀ-ॿ]]: the Devanagari block. *)
Definition is_devanagari (c : Z) : bool := in_range 2304 2431 c.

(** [[a-zA-Z]]. *)
Definition is_ascii_letter (c : Z) : bool := in_range 65 90 c || in_range 97 122 c.

(** [[अ-ह]], U+0905 .. U+0939: the Devanagari independent vowels and consonants. *)
Definition is_hindi_letter (c : Z) : bool := in_range 2309 2361 c.

Definition SPACE : Z := 32.
Definition NEWLINE : Z := 10.
Definition BANG : Z := 33.
Definition DQUOTE : Z := 34.
Definition COMMA : Z := 44.
Definition HYPHEN : Z := 45.
Definition PERIOD : Z := 46.
Definition COLON : Z := 58.
Definition SEMICOLON : Z := 59.
Definition QUESTION : Z := 63.
Definition BACKTICK : Z := 96.
Definition DANDA : Z := 2404.
Definition EN_DASH : Z := 8211.
Definition EM_DASH : Z := 8212.

(** [[!।?]] *)
Definition is_bang_danda_question (c : Z) : bool :=
  (c =? BANG) || (c =? DANDA) || (c =? QUESTION).

(** [[,;:]] *)
Definition is_comma_semi_colon (c : Z) : bool :=
  (c =? COMMA) || (c =? SEMICOLON) || (c =? COLON).

(** The source writes the class of quotation marks as two adjacent string
    literals, a raw one that ends after three double quotes and a second one
    that holds the backtick: together they are the bracket class of the
    double quote and the backtick. *)
Definition is_quote (c : Z) : bool := (c =? DQUOTE) || (c =? BACKTICK).

(** [[-–—]] *)
Definition is_dash (c : Z) : bool :=
  (c =? HYPHEN) || (c =? EN_DASH) || (c =? EM_DASH).

(** [[।.!?]] *)
Definition is_sentence_end (c : Z) : bool :=
  (c =? DANDA) || (c =? PERIOD) || (c =? BANG) || (c =? QUESTION).

(** [[,.]] *)
Definition is_comma_period (c : Z) : bool := (c =? COMMA) || (c =? PERIOD).

(** ** [str.strip()], [str.split()] *)

Fixpoint lstrip (s : text) : text :=
  match s with
  | [] => []
  | c :: r => if is_space c then lstrip r else s
  end.

Definition rstrip (s : text) : text := rev (lstrip (rev s)).

Definition strip (s : text) : text := rstrip (lstrip s).

(** [split_aux cur s]: [cur] is the token being read, reversed. *)
Fixpoint split_aux (cur : text) (s : text) : list text :=
  match s with
  | [] => match cur with [] => [] | _ => [rev cur] end
  | c :: r =>
      if is_space c
      then match cur with [] => split_aux [] r | _ => rev cur :: split_aux [] r end
      else split_aux (c :: cur) r
  end.

(** [text.split()]: the maximal runs of non-whitespace characters. *)
Definition split (s : text) : list text := split_aux [] s.

(** ** The [re.sub] calls of the source, one function per pattern *)

(** [re.sub(r'\s+', ' ', s)]: every maximal whitespace run becomes one space.
    [prev] tells that the previous character belonged to a run. *)
Fixpoint sub_ws_aux (prev : bool) (s : text) : text :=
  match s with
  | [] => []
  | c :: r =>
      if is_space c
      then (if prev then sub_ws_aux true r else SPACE :: sub_ws_aux true r)
      else c :: sub_ws_aux false r
  end.

Definition sub_ws_runs (s : text) : text := sub_ws_aux false s.

(** [re.sub(r'[cls]', ' ', s)] for a one-character class. *)
Definition sub_class_space (cls : Z -> bool) (s : text) : text :=
  List.map (fun c => if cls c then SPACE else c) s.

(** [re.sub(r'[cls]', '', s)] and [re.sub(r'[cls]+', '', s)]. *)
Definition sub_class_delete (cls : Z -> bool) (s : text) : text :=
  List.filter (fun c => negb (cls c)) s.

(** [re.sub(r'\.(?=\s)', ' ', s)]: the lookahead consumes nothing. *)
Fixpoint sub_period_before_space (s : text) : text :=
  match s with
  | [] => []
  | c :: r =>
      (if (c =? PERIOD) && match r with d :: _ => is_space d | [] => false end
       then SPACE else c) :: sub_period_before_space r
  end.

(** [re.sub(r'\.$', '', s)]: without MULTILINE, [$] matches at the end of the
    string and just before a newline that ends the string. *)
Fixpoint sub_final_period (s : text) : text :=
  match s with
  | [] => []
  | c :: r =>
      if (c =? PERIOD) &&
         match r with
         | [] => true
         | [d] => d =? NEWLINE
         | _ => false
         end
      then r
      else c :: sub_final_period r
  end.

(** [re.sub(r'[p]{2,}', 'p', s)]: a [p] that is followed by another [p] is
    dropped, which leaves one [p] of each run. *)
Fixpoint sub_repeated (p : Z) (s : text) : text :=
  match s with
  | [] => []
  | c :: r =>
      if (c =? p) && match r with d :: _ => d =? p | [] => false end
      then sub_repeated p r
      else c :: sub_repeated p r
  end.

(** [re.sub(r'([P])(\s{2,})([Q])', r'\1 \3', s)] for classes [P], [Q] without
    whitespace.  State [Some ws]: the last character emitted is in [P], was
    not consumed by a match, and [ws] is the whitespace read after it, not
    yet emitted. *)
Fixpoint sub_gap_aux (P Q : Z -> bool) (st : option text) (s : text) : text :=
  match s with
  | [] => match st with Some ws => ws | None => [] end
  | c :: r =>
      match st with
      | None => c :: sub_gap_aux P Q (if P c then Some [] else None) r
      | Some ws =>
          if is_space c then sub_gap_aux P Q (Some (ws ++ [c])) r
          else if (2 <=? length ws)%nat && Q c
               then SPACE :: c :: sub_gap_aux P Q None r
               else ws ++ c :: sub_gap_aux P Q (if P c then Some [] else None) r
      end
  end.

Definition sub_gap (P Q : Z -> bool) (s : text) : text := sub_gap_aux P Q None s.

(** [re.sub(r'([P])\s*([^\s])', r'\1 \2', s)].  State [Some ws] as above; the
    character matched by the second group is consumed and cannot start the
    next match. *)
Fixpoint sub_pause_aux (P : Z -> bool) (st : option text) (s : text) : text :=
  match s with
  | [] => match st with Some ws => ws | None => [] end
  | c :: r =>
      match st with
      | None => c :: sub_pause_aux P (if P c then Some [] else None) r
      | Some ws =>
          if is_space c then sub_pause_aux P (Some (ws ++ [c])) r
          else SPACE :: c :: sub_pause_aux P None r
      end
  end.

Definition sub_pause (P : Z -> bool) (s : text) : text := sub_pause_aux P None s.

(** [re.sub(r'([P])([Q])', r'\1 \2', s)].  [pending]: the last character
    emitted is in [P] and was not consumed by a match. *)
Fixpoint sub_insert_aux (P Q : Z -> bool) (pending : bool) (s : text) : text :=
  match s with
  | [] => []
  | c :: r =>
      if pending && Q c
      then SPACE :: c :: sub_insert_aux P Q false r
      else c :: sub_insert_aux P Q (P c) r
  end.

Definition sub_insert_space (P Q : Z -> bool) (s : text) : text :=
  sub_insert_aux P Q false s.

Definition not_space (c : Z) : bool := negb (is_space c).

(** ** Language tags and the Hindi ratio *)

(** The tag strings of the source: ["hi"], ["en"], and ["unknown"] (realtime
    cloner only). *)
Inductive lang : Type := hi | en | unknown.

Definition lang_code (l : lang) : string :=
  match l with hi => "hi" | en => "en" | unknown => "unknown" end.

Definition lang_eqb (a b : lang) : bool :=
  match a, b with
  | hi, hi | en, en | unknown, unknown => true
  | _, _ => false
  end.

Definition segments := list (text * lang).

(** [sum(1 for _, lang in segments if lang == "hi")] *)
Definition count_hi (segs : segments) : nat :=
  length (List.filter (fun p => lang_eqb (snd p) hi) segs).

(** [sum(...) / len(segments) if segments else 0].  The quotient is a binary64
    value in Python; it is the exact rational here.  Both are monotone in the
    count, and the rounded quotient compares with the literals 0.1, 0.2, 0.3,
    0.8, 0.9 as the exact one does as long as the number of tokens stays
    below 2^50. *)
Definition hindi_ratio (segs : segments) : Q :=
  match segs with
  | [] => 0%Q
  | _ => (Z.of_nat (count_hi segs) # Pos.of_nat (length segs))%Q
  end.

(** [sum(...) / len(segments)] without the guard: [None] is ZeroDivisionError. *)
Definition hindi_ratio_unguarded (segs : segments) : option Q :=
  match segs with
  | [] => None
  | _ => Some (Z.of_nat (count_hi segs) # Pos.of_nat (length segs))%Q
  end.

Definition Qltb (x y : Q) : bool := negb (Qle_bool y x).

(** ["hi" if hindi_ratio > 0.3 else "en"] *)
Definition primary_language (r : Q) : lang := if Qltb (3 # 10) r then hi else en.
(** ** Waveforms

    A waveform is a one-dimensional array of samples.  Samples are exact
    rationals: rounding, NaN and infinities of the binary32/binary64 arrays
    of the source are outside this model, and [astype(np.float32)] is the
    identity in it.  [Binary64] below has the rounded arithmetic of
    [_final_audio_cleanup]. *)

Definition wave := list Q.

Definition sample_rate : Z := 22050.

Definition qmax (a b : Q) : Q := if Qle_bool a b then b else a.
Definition qmin (a b : Q) : Q := if Qle_bool a b then a else b.

Definition np_sum (w : wave) : Q := fold_left Qplus w 0%Q.

(** [np.mean]; on an empty array NumPy warns and yields nan, which no sample
    ever meets: the value chosen for it here is never used. *)
Definition np_mean (w : wave) : Q :=
  match w with
  | [] => 0%Q
  | _ => (np_sum w / inject_Z (Z.of_nat (length w)))%Q
  end.

(** [np.max]; [None] is the ValueError raised on a zero-size array. *)
Definition np_max (w : wave) : option Q :=
  match w with
  | [] => None
  | x :: r => Some (fold_left qmax r x)
  end.

Definition np_abs (w : wave) : wave := List.map Qabs w.

(** [np.clip(w, lo, hi)] = [minimum(hi, maximum(w, lo))] *)
Definition np_clip (lo hi : Q) (w : wave) : wave :=
  List.map (fun x => qmin hi (qmax x lo)) w.

(** [np.linspace(a, b, n)] *)
Definition np_linspace (a b : Q) (n : nat) : wave :=
  match n with
  | O => []
  | S O => [a]
  | S m => List.map (fun i => (a + inject_Z (Z.of_nat i) * ((b - a) / inject_Z (Z.of_nat m)))%Q)
                    (seq 0 n)
  end.

(** [a[:k] *= g] for [length g = k <= length a]. *)
Fixpoint mul_prefix (g a : wave) : wave :=
  match g, a with
  | x :: g', y :: a' => (y * x)%Q :: mul_prefix g' a'
  | _, _ => a
  end.

(** [a[-k:] *= g] for [0 < length g = k <= length a]. *)
Definition mul_suffix (g a : wave) : wave :=
  let n := (length a - length g)%nat in
  take n a ++ mul_prefix g (drop n a).

(** [audio / peak * level] *)
Definition scale_to (level peak : Q) (w : wave) : wave :=
  List.map (fun x => (x / peak * level)%Q) w.

(** [peak = np.max(np.abs(a)); if peak > 0: a = a / peak * level].
    [None]: [np.max] raised. *)
Definition peak_normalize (level : Q) (w : wave) : option wave :=
  match np_max (np_abs w) with
  | None => None
  | Some peak => Some (if Qltb 0 peak then scale_to level peak w else w)
  end.

(** The numeric routines of SciPy, NumPy and librosa that the sanitizers call
    and that are not written out here.  [None] stands for a raised exception. *)
Record NumLib : Type := {
  (** [b, a = signal.butter(2, cutoff / nyquist, btype='high')] followed by
      [signal.filtfilt(b, a, x)], on an input longer than the padding. *)
  highpass : Z -> wave -> option wave;
  (** [np.percentile(x, q)] *)
  np_percentile : wave -> Z -> option Q;
  (** [librosa.effects.trim(y, top_db=d)[0]] *)
  librosa_trim : wave -> Z -> option wave;
  (** [np.sqrt(np.mean(x**2))] *)
  rms : wave -> Q;
  (** [librosa.resample(y, orig_sr=a, target_sr=b)] *)
  resample : wave -> Z -> Z -> wave
}.

(** [signal.filtfilt] pads by [3 * max(len(a), len(b))] = 9 samples for the
    second-order section and raises ValueError unless the input is longer. *)
Definition padlen : nat := 9.

Definition filtfilt_highpass (L : NumLib) (cutoff : Z) (x : wave) : option wave :=
  if (length x <=? padlen)%nat then None else highpass L cutoff x.

(** ** A [try] body working on the local variable [audio]

    The state is the current value of [audio]; a step yields a result or
    raises.  When a step raises, the state it leaves is what the [except]
    clause sees. *)

Definition Try (A : Type) : Type := wave -> option A * wave.

Definition ret {A} (x : A) : Try A := fun a => (Some x, a).

Definition bind {A B} (m : Try A) (k : A -> Try B) : Try B :=
  fun a => match m a with
           | (Some x, a') => k x a'
           | (None, a') => (None, a')
           end.

Definition get_audio : Try wave := fun a => (Some a, a).
Definition set_audio (w : wave) : Try unit := fun _ => (Some tt, w).
Definition call {A} (r : option A) : Try A := fun a => (r, a).

Notation "x <- m ;; k" := (bind m (fun x => k))
  (at level 100, m at next level, right associativity).
Notation "m ;;; k" := (bind m (fun _ => k))
  (at level 100, right associativity).

(** [try: body  except Exception: handler(audio)] *)
Definition try_except (body : Try wave) (handler : wave -> wave) (audio : wave) : wave :=
  match body audio with
  | (Some result, _) => result
  | (None, audio') => handler audio'
  end.

(** [audio - np.mean(audio)] *)
Definition remove_dc (a : wave) : wave :=
  let m := np_mean a in List.map (fun x => (x - m)%Q) a.

(** [audio[lo:hi]] for [0 <= lo], [0 <= hi] *)
Definition slice (lo hi : nat) (a : wave) : wave := take (hi - lo) (drop lo a).

(** [range(0, stop, step)] *)
Definition py_range (stop : Z) (step : nat) : list nat :=
  let count := if stop <=? 0 then 0 else (stop + Z.of_nat step - 1) / Z.of_nat step in
  List.map (fun k => (k * step)%nat) (seq 0 (Z.to_nat count)).

(** [np.where(xs > threshold)[0]] *)
Fixpoint where_gt_from (i : nat) (xs : wave) (threshold : Q) : list nat :=
  match xs with
  | [] => []
  | x :: r =>
      if Qltb threshold x then i :: where_gt_from (S i) r threshold
      else where_gt_from (S i) r threshold
  end.

Definition where_gt (xs : wave) (threshold : Q) : list nat := where_gt_from 0 xs threshold.

(** [fade_in = f(np.linspace(0, 1, k)); a[:k] *= fade_in;
     fade_out = f(np.linspace(1, 0, k)); a[-k:] *= fade_out] for [0 < k]. *)
Definition apply_fades (shape : Q -> Q) (k : nat) (a : wave) : wave :=
  let fade_in := List.map shape (np_linspace 0 1 k) in
  let fade_out := List.map shape (np_linspace 1 0 k) in
  mul_suffix fade_out (mul_prefix fade_in a).

Definition linear (x : Q) : Q := x.
Definition quadratic (x : Q) : Q := (x * x)%Q.   (* np.power(x, 2) *)

(** ** The world of a synthesis run: files and the external synthesizer *)

(** The entries of the [voice_features] dictionary that the cloners read. *)
Record voice_features : Type := {
  audio_data : wave;
  rms_energy : option Q;
  spectral_centroid : option Q
}.

(** What [sf.write] stored at a path: the reference audio handed to the
    engine as [speaker_wav], or audio produced for the caller. *)
Inductive file : Type :=
  | SpeakerReference (w : wave)
  | GeneratedAudio (w : wave).

(** The keyword arguments of one [tts.tts(...)] call.  [split_sentences] is
    [None] when the argument is not passed and the engine's default applies.
    [sampling_extras] tells whether [temperature], [length_penalty],
    [repetition_penalty] and [use_deepspeed] were passed as well; [speed],
    [do_trim] and [use_microphone] are left out. *)
Record tts_call : Type := {
  call_text : text;
  speaker_wav : string;
  language : lang;
  split_sentences : option bool;
  sampling_extras : bool
}.

Inductive tts_outcome : Type :=
  | Synthesized (w : wave)
  | RaisesTypeError          (* TypeError or AttributeError *)
  | RaisesOther.

Inductive exn : Type :=
  | ModelLoadError | ZeroDivisionError | ValueError | OSError
  | TypeError | SynthesisError | CallbackError.

Inductive result (A : Type) : Type :=
  | Ok (a : A)
  | Raise (e : exn).
Arguments Ok {A} a.
Arguments Raise {A} e.

(** The collaborators of a run.  [synthesize n c] is what the engine does on
    its [n]-th call of the run when called with [c]. *)
Record Engine : Type := {
  model_loads : bool;                      (* does [_ensure_model_loaded] succeed *)
  has_inner_model : bool;                  (* hasattr(tts, 'tts') and hasattr(tts.tts, 'model') *)
  synthesize : nat -> tts_call -> tts_outcome;
  can_write : string -> bool;              (* does [sf.write] to this path succeed *)
  can_mkdir : string -> bool;              (* does [os.makedirs] for this path succeed *)
  text_hash : text -> Z                    (* the builtin [hash] on [str] *)
}.

Record world : Type := {
  files : gmap string file;
  tts_calls : list tts_call                (* in call order *)
}.

(** Orchestration code threads the world and may raise. *)
Definition Run (A : Type) : Type := world -> result A * world.

Definition rret {A} (x : A) : Run A := fun w => (Ok x, w).
Definition rraise {A} (e : exn) : Run A := fun w => (Raise e, w).

Definition rbind {A B} (m : Run A) (k : A -> Run B) : Run B :=
  fun w => match m w with
           | (Ok x, w') => k x w'
           | (Raise e, w') => (Raise e, w')
           end.

Notation "x <~ m ;; k" := (rbind m (fun x => k))
  (at level 100, m at next level, right associativity).
Notation "m ~~ k" := (rbind m (fun _ => k))
  (at level 100, right associativity).

(** [try: body  finally: cleanup], for a [cleanup] that does not raise. *)
Definition try_finally {A} (body : Run A) (cleanup : world -> world) : Run A :=
  fun w => let (r, w') := body w in (r, cleanup w').

(** [sf.write(path, data, rate)] *)
Definition sf_write (E : Engine) (path : string) (f : file) : Run unit :=
  fun w =>
    if can_write E path
    then (Ok tt, {| files := <[path := f]> (files w); tts_calls := tts_calls w |})
    else (Raise OSError, w).

(** [output_dir = os.path.dirname(output_path)] and, if it is not empty,
    [os.makedirs(output_dir, exist_ok=True)].  Directories are not part of
    [files]; the step only succeeds or raises. *)
Definition makedirs_for (E : Engine) (output_path : string) : Run unit :=
  fun w => if can_mkdir E output_path then (Ok tt, w) else (Raise OSError, w).

(** [if os.path.exists(path): os.remove(path)], for an [os.remove] that
    succeeds on an existing file. *)
Definition remove_if_exists (path : string) (w : world) : world :=
  {| files := delete path (files w); tts_calls := tts_calls w |}.

(** [tts.tts] called with the keyword arguments [c]: the call is recorded, then the engine answers. *)
Definition tts (E : Engine) (c : tts_call) : Run wave :=
  fun w =>
    let w' := {| files := files w; tts_calls := tts_calls w ++ [c] |} in
    match synthesize E (length (tts_calls w)) c with
    | Synthesized g => (Ok g, w')
    | RaisesTypeError => (Raise TypeError, w')
    | RaisesOther => (Raise SynthesisError, w')
    end.

(** [self._ensure_model_loaded()] *)
Definition _ensure_model_loaded (E : Engine) : Run unit :=
  fun w => if model_loads E then (Ok tt, w) else (Raise ModelLoadError, w).

Definition of_option {A} (e : exn) (o : option A) : Run A :=
  match o with Some x => rret x | None => rraise e end.
(** ** MultilingualVoiceCloner *)

Module Multilingual.
Section Cloner.

(** [str.isalnum] on the code points above ASCII: the Unicode table behind
    the regex class [\w] is not part of the repository. *)
Variable uni_alnum : Z -> bool.
Variable L : NumLib.
Variable E : Engine.

(** [\w] on [str]: alphanumeric characters and the underscore. *)
Definition is_word_char (c : Z) : bool :=
  if c <? 128
  then in_range 48 57 c || is_ascii_letter c || (c =? 95)
  else uni_alnum c.

(** [re.sub(r'[^\wऀ-ॿ]', '', word)] *)
Definition clean_word (word : text) : text :=
  List.filter (fun c => is_word_char c || is_devanagari c) word.

Definition tag_of_word (word : text) : lang :=
  let clean := clean_word word in
  if existsb is_devanagari clean then hi
  else if existsb is_ascii_letter clean then en
  else hi.

Definition detect_text_language_segments (t : text) : segments :=
  List.map (fun word => (word, tag_of_word word)) (split t).

Definition is_hinglish (r : Q) : bool := Qltb (1 # 5) r && Qltb r (4 # 5).

(** The body of [optimize_text_for_voice_cloning] after the quick return. *)
Definition optimize_long (t0 : text) : text :=
  let t := sub_ws_runs (strip t0) in
  let segs := detect_text_language_segments t in
  let r := hindi_ratio segs in
  let t := sub_class_space is_bang_danda_question t in
  let t := sub_class_space is_comma_semi_colon t in
  let t := sub_period_before_space t in
  let t := sub_final_period t in
  let t := sub_class_delete is_quote t in
  let t := sub_class_space is_dash t in
  let t :=
    if is_hinglish r then
      let t := sub_repeated COMMA t in
      let t := sub_repeated PERIOD t in
      let t := sub_gap is_ascii_letter is_hindi_letter t in
      sub_gap is_hindi_letter is_ascii_letter t
    else
      let t := sub_repeated DANDA t in
      let t := sub_repeated PERIOD t in
      sub_pause is_sentence_end t in
  let t := sub_insert_space is_comma_period not_space t in
  sub_ws_runs t.

Definition optimize_text_for_voice_cloning (t0 : text) : text :=
  if (length t0 <=? 20)%nat then strip t0 else optimize_long t0.

(** *** Reference audio: the in-memory part of [preprocess_audio], applied
    to what [librosa.load(input_path, sr=None)] returned *)
Definition preprocess_core (loaded : wave * Z) : option wave :=
  let (audio, sr) := loaded in
  let audio := if sr =? sample_rate then audio else resample L audio sr sample_rate in
  match peak_normalize (4 # 5) audio with
  | None => None
  | Some audio => librosa_trim L audio 30
  end.

Definition preprocess_audio (loaded : wave * Z) (output_path : string) : Run unit :=
  audio <~ of_option ValueError (preprocess_core loaded) ;;
  makedirs_for E output_path ~~
  sf_write E output_path (GeneratedAudio audio).

(** *** Post-synthesis cleanup *)

Definition window_size : nat := 441.        (* int(0.02 * self.sample_rate) *)
Definition max_fade : nat := 661.           (* int(0.03 * self.sample_rate) *)

(** [[np.sum(audio[i:i+window_size]**2)
      for i in range(0, len(audio)-window_size, window_size//2)]] *)
Definition frame_energy (a : wave) : wave :=
  List.map (fun i => np_sum (List.map (fun x => (x * x)%Q) (slice i (i + window_size) a)))
           (py_range (Z.of_nat (length a) - Z.of_nat window_size) (window_size / 2)).

Definition clean_body : Try wave :=
  a <- get_audio ;;
  set_audio (remove_dc a) ;;;
  a <- get_audio ;;
  filtered <- call (filtfilt_highpass L 85 a) ;;
  set_audio filtered ;;;
  a <- get_audio ;;
  let energy := frame_energy a in
  top <- call (np_max energy) ;;
  let energy_threshold := (top * (1 # 100))%Q in
  let valid_frames := where_gt energy energy_threshold in
  match valid_frames with
  | [] => ret tt
  | first :: _ =>
      let start_idx := (first * window_size / 2)%nat in
      let end_idx :=
        Nat.min ((List.last valid_frames first + 2) * window_size / 2) (length a) in
      set_audio (slice start_idx end_idx a)
  end ;;;
  a <- get_audio ;;
  q99 <- call (np_percentile L (np_abs a) 99) ;;
  set_audio (np_clip (- q99) q99 a) ;;;
  a <- get_audio ;;
  let fade_samples := Nat.min max_fade (length a / 15) in
  (if (0 <? fade_samples)%nat
   then set_audio (apply_fades quadratic fade_samples a)
   else ret tt) ;;;
  get_audio.

(** [except Exception: return audio] *)
Definition _clean_audio_artifacts (audio : wave) : wave :=
  try_except clean_body (fun audio => audio) audio.

Definition minimal_final_body : Try wave :=
  a <- get_audio ;;
  match a with
  | [] => ret a
  | _ =>
      set_audio (remove_dc a) ;;;
      a <- get_audio ;;
      peak <- call (np_max (np_abs a)) ;;
      (if Qltb 0 peak then set_audio (scale_to (95 # 100) peak a) else ret tt) ;;;
      a <- get_audio ;;
      trimmed <- call (librosa_trim L a 25) ;;
      set_audio trimmed ;;;
      a <- get_audio ;;
      (if (220 <? length a)%nat then set_audio (apply_fades linear 110 a) else ret tt) ;;;
      get_audio
  end.

Definition minimal_final_handler (audio : wave) : wave :=
  match np_max (np_abs audio) with
  | Some peak => if Qltb 0 peak then scale_to (95 # 100) peak audio else audio
  | None => audio                                 (* len(audio) == 0 *)
  end.

Definition _minimal_final_cleanup (audio : wave) : wave :=
  try_except minimal_final_body minimal_final_handler audio.

(** No step of [_enhance_audio_quality] raises on an array. *)
Definition _enhance_audio_quality (audio : wave) (vf : voice_features) : wave :=
  let target_rms := default (1 # 10)%Q (rms_energy vf) in
  let current_rms := rms L audio in
  let audio :=
    if Qltb 0 current_rms
    then List.map (fun x => (x * (target_rms / current_rms))%Q) audio
    else audio in
  let target_centroid := default 2000%Q (spectral_centroid vf) in
  let audio :=
    if Qltb target_centroid 1500 then List.map (fun x => (x * (95 # 100))%Q) audio
    else if Qltb 3000 target_centroid then List.map (fun x => (x * (105 # 100))%Q) audio
    else audio in
  np_clip (- (1)) 1 audio.

(** *** Single-shot synthesis *)

Definition temp_speaker_path : string := "temp_speaker_multilingual.wav".

Definition tts_params (optimized_text : text) (primary : lang) (extras : bool) : tts_call :=
  {| call_text := optimized_text;
     speaker_wav := temp_speaker_path;
     language := primary;
     split_sentences := Some false;
     sampling_extras := extras |}.

(** The body of the inner [try]. *)
Definition synthesize_once (optimized_text : text) (primary : lang) : Run wave :=
  if has_inner_model E then
    fun w =>
      match tts E (tts_params optimized_text primary true) w with
      | (Raise TypeError, w') => tts E (tts_params optimized_text primary false) w'
      | other => other
      end
  else tts E (tts_params optimized_text primary false).

Definition clone_voice_multilingual (t : text) (vf : voice_features)
    (output_path : string) (enhance_quality : bool) : Run string :=
  _ensure_model_loaded E ~~
  let optimized_text := optimize_text_for_voice_cloning t in
  let segs := detect_text_language_segments t in
  ratio <~ of_option ZeroDivisionError (hindi_ratio_unguarded segs) ;;
  let reference_audio := audio_data vf in
  let primary := primary_language ratio in
  makedirs_for E output_path ~~
  sf_write E temp_speaker_path (SpeakerReference reference_audio) ~~
  generated <~ try_finally (synthesize_once optimized_text primary)
                           (remove_if_exists temp_speaker_path) ;;
  let generated := _clean_audio_artifacts generated in
  let generated :=
    if enhance_quality && (length optimized_text <? 100)%nat
    then _enhance_audio_quality generated vf
    else generated in
  let generated := _minimal_final_cleanup generated in
  sf_write E output_path (GeneratedAudio generated) ~~
  rret output_path.

(** *** [validate_audio_quality], applied to what
    [librosa.load(audio_path, sr=None)] returned ([None]: it raised) *)

Inductive issue : Type :=
  | AudioTooShort          (* "Audio too short for reliable multilingual cloning" *)
  | AudioVeryLong          (* "Audio very long - may contain too much variation" *)
  | LevelTooLow            (* "Audio level too low" *)
  | TooMuchSilence         (* "Too much silence in audio" *)
  | ValidationFailed.      (* "Audio validation failed: ..." *)

Inductive recommendation : Type :=
  | UseLongerSample | UseClearSegment | IncreaseVolume | UseContinuousSpeech | CheckTheFile.

(** The entries ["is_valid"], ["duration"], ["issues"], ["recommendations"]
    and ["quality_score"] of the dictionary returned; ["sample_rate"],
    ["rms_level"] and ["silence_ratio"] are left out.  The dictionary of the
    [except] branch has no duration and no score. *)
Record quality_report : Type := {
  is_valid : bool;
  duration : option Q;
  issues : list issue;
  recommendations : list recommendation;
  quality_score : option Z
}.

Definition validation_failed : quality_report :=
  {| is_valid := false;
     duration := None;
     issues := [ValidationFailed];
     recommendations := [CheckTheFile];
     quality_score := None |}.

(** [np.sum(np.abs(audio) < silence_thresh)] with [silence_thresh = 0.01] *)
Definition count_silent (audio : wave) : nat :=
  length (List.filter (fun x => Qltb (Qabs x) (1 # 100)) audio).

(** Each test appends to [issues] and to [recommendations] together; [found]
    holds the pairs.  On an empty array the mean and the quotient [0 / 0] are
    nan, and a comparison with nan is false: neither test adds an issue. *)
Definition validate_audio_quality (loaded : option (wave * Z)) : quality_report :=
  match loaded with
  | None => validation_failed
  | Some (audio, sr) =>
      if sr =? 0 then validation_failed          (* len(audio) / sr: ZeroDivisionError *)
      else
        let duration := (inject_Z (Z.of_nat (length audio)) / inject_Z sr)%Q in
        let found : list (issue * recommendation) :=
          (if Qltb duration 3 then [(AudioTooShort, UseLongerSample)]
           else if Qltb 60 duration then [(AudioVeryLong, UseClearSegment)]
           else []) ++
          (match audio with
           | [] => []
           | _ => if Qltb (rms L audio) (1 # 100) then [(LevelTooLow, IncreaseVolume)] else []
           end) ++
          (match audio with
           | [] => []
           | _ =>
               let silence_ratio :=
                 (inject_Z (Z.of_nat (count_silent audio)) /
                  inject_Z (Z.of_nat (length audio)))%Q in
               if Qltb (7 # 10) silence_ratio
               then [(TooMuchSilence, UseContinuousSpeech)] else []
           end) in
        {| is_valid := (length found =? 0)%nat;
           duration := Some duration;
           issues := List.map fst found;
           recommendations := List.map snd found;
           quality_score := Some (Z.max 0 (100 - Z.of_nat (length found) * 25)) |}
  end.

End Cloner.
End Multilingual.

(** ** WebSocketFixedHinglishCloner and FixedRealTimeHinglishVoiceCloner *)

(** Both classes carry the same [optimize_text_for_voice_cloning]; they differ
    in the segmenter it calls. *)
Definition is_mixed (r : Q) : bool := Qltb (1 # 10) r && Qltb r (9 # 10).

Definition optimize_minimal (detect : text -> segments) (t0 : text) : text :=
  let t := sub_ws_runs (strip t0) in
  let r := hindi_ratio (detect t) in
  if is_mixed r then
    let t := sub_class_delete is_bang_danda_question t in
    let t := sub_insert_space is_hindi_letter is_ascii_letter t in
    let t := sub_insert_space is_ascii_letter is_hindi_letter t in
    sub_ws_runs (strip t)
  else t.

(** [if np.max(np.abs(reference_audio)) > 0:
       reference_audio = reference_audio / np.max(np.abs(reference_audio)) * 0.8] *)
Definition normalize_reference (reference_audio : wave) : option wave :=
  peak_normalize (4 # 5) reference_audio.

Module WebSocket.
Section Cloner.
Variable uni_alnum : Z -> bool.
Variable L : NumLib.
Variable E : Engine.

(** The class derives from MultilingualVoiceCloner and inherits its segmenter. *)
Definition detect_text_language_segments : text -> segments :=
  Multilingual.detect_text_language_segments uni_alnum.

Definition optimize_text_for_voice_cloning : text -> text :=
  optimize_minimal detect_text_language_segments.

Definition minimal_cleanup_body : Try wave :=
  a <- get_audio ;;
  trimmed <- call (librosa_trim L a 20) ;;
  set_audio trimmed ;;;
  a <- get_audio ;;
  peak <- call (np_max (np_abs a)) ;;
  (if Qltb 0 peak then set_audio (scale_to (95 # 100) peak a) else ret tt) ;;;
  a <- get_audio ;;
  (if (1000 <? length a)%nat
   then set_audio (apply_fades linear (Nat.min 22 (length a / 100)) a)
   else ret tt) ;;;
  get_audio.

(** [None] is Python's [None]. *)
Definition _minimal_audio_cleanup (audio : option wave) : option wave :=
  match audio with
  | None => None
  | Some [] => Some []
  | Some a => Some (try_except minimal_cleanup_body (fun audio => audio) a)
  end.

(** *** [_chunk_long_text] *)

(** [re.split(r'[.!?।]', s)]: every terminator ends a piece, so that two
    terminators in a row enclose an empty piece; [cur] is the piece being
    read, reversed. *)
Fixpoint re_split_each_aux (cur : text) (s : text) : list text :=
  match s with
  | [] => [rev cur]
  | c :: r =>
      if is_sentence_end c then rev cur :: re_split_each_aux [] r
      else re_split_each_aux (c :: cur) r
  end.

Definition re_split_each (s : text) : list text := re_split_each_aux [] s.

(** The truth value of a [str]: false for the empty string only. *)
Definition truthy (s : text) : bool := match s with [] => false | _ => true end.

(** One turn of the [for] loop, on the pair of [chunks] and [current_chunk]. *)
Definition chunk_step (max_length : Z) (st : list text * text) (sentence : text)
    : list text * text :=
  let (chunks, current_chunk) := st in
  let sentence := strip sentence in
  if negb (truthy sentence) then st
  else if truthy current_chunk &&
          (max_length <? Z.of_nat (length (current_chunk ++ [SPACE] ++ sentence)))
  then ((if truthy current_chunk then chunks ++ [strip current_chunk] else chunks), sentence)
  else if truthy current_chunk then (chunks, current_chunk ++ [SPACE] ++ sentence)
  else (chunks, sentence).

Definition _chunk_long_text (t : text) (max_length : Z) : list text :=
  if Z.of_nat (length t) <=? max_length then [t]
  else
    let sentences := re_split_each t in
    let (chunks, current_chunk) := fold_left (chunk_step max_length) sentences ([], []) in
    if truthy current_chunk then chunks ++ [strip current_chunk] else chunks.

Definition temp_speaker_path : string := "temp_speaker_websocket.wav".

Definition clone_voice_multilingual (t : text) (vf : voice_features)
    (output_path : string) (enhance_quality : bool) : Run string :=
  _ensure_model_loaded E ~~
  let optimized_text := optimize_text_for_voice_cloning t in
  reference_audio <~ of_option ValueError (normalize_reference (audio_data vf)) ;;
  makedirs_for E output_path ~~
  let ratio := hindi_ratio (detect_text_language_segments t) in
  let primary := primary_language ratio in
  sf_write E temp_speaker_path (SpeakerReference reference_audio) ~~
  generated <~ try_finally
                 (tts E {| call_text := optimized_text;
                           speaker_wav := temp_speaker_path;
                           language := primary;
                           split_sentences := Some false;
                           sampling_extras := false |})
                 (remove_if_exists temp_speaker_path) ;;
  let generated := default generated (_minimal_audio_cleanup (Some generated)) in
  sf_write E output_path (GeneratedAudio generated) ~~
  rret output_path.

End Cloner.
End WebSocket.

Module Realtime.
Section Cloner.
Variable L : NumLib.
Variable E : Engine.
(** [progress_callback]: absent, or a coroutine that returns ([true]) or
    raises ([false]) when awaited for the chunk of the given index. *)
Variable progress_callback : option (nat -> bool).

Definition tag_of_word (word : text) : lang :=
  if existsb is_devanagari word then hi
  else if existsb is_ascii_letter word then en
  else unknown.

Definition detect_text_language_segments (t : text) : segments :=
  List.map (fun word => (word, tag_of_word word)) (split t).

Definition optimize_text_for_voice_cloning : text -> text :=
  optimize_minimal detect_text_language_segments.

(** In this copy the line [if len(audio) > 1000:] sits at the end of a
    comment, and the fade statements below it are indented as the body of
    [if np.max(np.abs(audio)) > 0:]: they run whenever the peak is positive.
    With fewer than 100 samples [fade_samples] is 0, [audio[-0:]] is the
    whole array, and multiplying it in place by the empty [fade_out] raises. *)
Definition minimal_cleanup_body : Try wave :=
  a <- get_audio ;;
  trimmed <- call (librosa_trim L a 20) ;;
  set_audio trimmed ;;;
  a <- get_audio ;;
  peak <- call (np_max (np_abs a)) ;;
  (if Qltb 0 peak then
     set_audio (scale_to (95 # 100) peak a) ;;;
     a <- get_audio ;;
     let fade_samples := Nat.min 22 (length a / 100) in
     if (fade_samples =? 0)%nat
     then call None
     else set_audio (apply_fades linear fade_samples a)
   else ret tt) ;;;
  get_audio.

Definition _minimal_audio_cleanup (audio : option wave) : option wave :=
  match audio with
  | None => None
  | Some [] => Some []
  | Some a => Some (try_except minimal_cleanup_body (fun audio => audio) a)
  end.

(** [re.split(r'[.!?।]+', s)]; [cur] is the piece being read, reversed.
    An empty piece is produced at the start, at the end and nowhere else. *)
Fixpoint re_split_aux (cur : text) (in_sep : bool) (s : text) : list text :=
  match s with
  | [] => [rev cur]
  | c :: r =>
      if is_sentence_end c
      then (if in_sep then re_split_aux [] true r
            else rev cur :: re_split_aux [] true r)
      else re_split_aux (c :: cur) false r
  end.

Definition re_split_sentences (s : text) : list text := re_split_aux [] false s.

Definition is_nil (s : text) : bool := match s with [] => true | _ => false end.

Definition _split_text_into_chunks (s : text) : list text :=
  List.filter (fun sentence => negb (is_nil sentence))
              (List.map strip (re_split_sentences s)).

(** [f"temp_speaker_realtime_{hash(text) % 10000}.wav"] *)
Definition temp_speaker_path (t : text) : string :=
  "temp_speaker_realtime_" ++
  NilZero.string_of_uint (N.to_uint (Z.to_N (text_hash E t mod 10000))) ++ ".wav".

(** [(generated_audio * 32767).astype(np.int16)]: truncation toward zero.  A
    value within the range of a 32-bit integer is kept modulo 2^16; outside
    that range the conversion has no defined result in C, and NumPy on
    x86-64 yields 0. *)
Definition pcm16 (x : Q) : Z :=
  let scaled := (x * 32767)%Q in
  let z := Z.quot (Qnum scaled) (Z.pos (Qden scaled)) in
  if (-2147483648 <=? z) && (z <=? 2147483647)
  then (z + 32768) mod 65536 - 32768
  else 0.

(** *** The async generator [clone_voice_realtime] as a state machine *)

Inductive gen_state : Type :=
  | NotStarted (t : text) (vf : voice_features)
  | Suspended (remaining : list text) (index : nat) (temp : string) (primary : lang)
  | Finished.

(** What one [__anext__] delivers. *)
Inductive delivery : Type :=
  | Chunk (pcm : list Z)
  | StopAsyncIteration
  | Failed (e : exn).

(** The [finally] clause. *)
Definition cleanup (temp : string) (w : world) : world := remove_if_exists temp w.

(** The [for] loop from the chunk of index [i] on, up to the next [yield]. *)
Fixpoint run_loop (chunks : list text) (i : nat) (temp : string) (primary : lang)
    (w : world) : delivery * gen_state * world :=
  match chunks with
  | [] => (StopAsyncIteration, Finished, cleanup temp w)
  | chunk :: rest =>
      if is_nil (strip chunk) then run_loop rest (S i) temp primary w
      else
        let callback_ok :=
          match progress_callback with Some cb => cb i | None => true end in
        if negb callback_ok then (Failed CallbackError, Finished, cleanup temp w)
        else
          match tts E {| call_text := chunk;
                         speaker_wav := temp;
                         language := primary;
                         split_sentences := Some false;
                         sampling_extras := false |} w with
          | (Raise e, w') => (Failed e, Finished, cleanup temp w')
          | (Ok generated, w') =>
              let generated := default generated (_minimal_audio_cleanup (Some generated)) in
              (Chunk (List.map pcm16 generated), Suspended rest (S i) temp primary, w')
          end
  end.

(** The code before the inner [try]. *)
Definition prologue (t : text) (vf : voice_features) : Run (list text * string * lang) :=
  _ensure_model_loaded E ~~
  let optimized_text := optimize_text_for_voice_cloning t in
  reference_audio <~ of_option ValueError (normalize_reference (audio_data vf)) ;;
  let ratio := hindi_ratio (detect_text_language_segments t) in
  let primary := primary_language ratio in
  let text_chunks := _split_text_into_chunks optimized_text in
  let temp := temp_speaker_path t in
  sf_write E temp (SpeakerReference reference_audio) ~~
  rret (text_chunks, temp, primary).

(** [await gen.__anext__()] *)
Definition anext (g : gen_state) (w : world) : delivery * gen_state * world :=
  match g with
  | NotStarted t vf =>
      match prologue t vf w with
      | (Raise e, w') => (Failed e, Finished, w')
      | (Ok (chunks, temp, primary), w') => run_loop chunks 0 temp primary w'
      end
  | Suspended rest i temp primary => run_loop rest i temp primary w
  | Finished => (StopAsyncIteration, Finished, w)
  end.

(** [await gen.aclose()]: GeneratorExit is raised at the pending [yield];
    nothing runs if the body was never entered. *)
Definition aclose (g : gen_state) (w : world) : gen_state * world :=
  match g with
  | NotStarted _ _ => (Finished, w)
  | Suspended _ _ temp _ => (Finished, cleanup temp w)
  | Finished => (Finished, w)
  end.

(** A consumer that takes at most [k] chunks and then closes the stream. *)
Fixpoint consume (k : nat) (g : gen_state) (w : world)
    : list (list Z) * option exn * world :=
  match k with
  | O => let (_, w') := aclose g w in ([], None, w')
  | S k' =>
      match anext g w with
      | (Chunk pcm, g', w') =>
          let '(got, err, w'') := consume k' g' w' in (pcm :: got, err, w'')
      | (StopAsyncIteration, _, w') => ([], None, w')
      | (Failed e, _, w') => ([], Some e, w')
      end
  end.

Definition clone_voice_realtime (t : text) (vf : voice_features) : gen_state :=
  NotStarted t vf.

End Cloner.
End Realtime.

(** ** The stream as the WebSocket server drives it

    [handle_realtime_speech_generation] (app/websocket_server.py) hands the
    generator a coroutine function of two positional parameters,
    [progress_callback(progress, message_text)]; the generator calls it with
    one argument, so that every call raises TypeError before a coroutine
    exists. *)
Definition server_progress_callback : option (nat -> bool) := Some (fun _ => false).
(** ** The other synthesis paths of the repository

    [VoiceClonerSimple] (app/voice_cloner_simple.py) is the cloner that
    [get_voice_cloner] of the server falls back to when the two classes above
    cannot be imported; [FixedHinglishCloner] (fixed_hinglish_quality.py) is
    the subclass of MultilingualVoiceCloner that the quality script builds. *)

(** [tts.tts_to_file(text=..., speaker_wav=..., language=..., file_path=...)]:
    the engine synthesizes as for [tts.tts] and saves the waveform at
    [file_path]. *)
Definition tts_to_file (E : Engine) (c : tts_call) (file_path : string) : Run unit :=
  generated <~ tts E c ;;
  sf_write E file_path (GeneratedAudio generated).

(** [re.sub(r'[cls]+', p, s)] for a one-character replacement [p]: every
    maximal run of characters of the class becomes one [p].  [prev] tells
    that the previous character belonged to a run. *)
Fixpoint sub_runs_aux (cls : Z -> bool) (p : Z) (prev : bool) (s : text) : text :=
  match s with
  | [] => []
  | c :: r =>
      if cls c
      then (if prev then sub_runs_aux cls p true r else p :: sub_runs_aux cls p true r)
      else c :: sub_runs_aux cls p false r
  end.

Definition sub_class_runs (cls : Z -> bool) (p : Z) (s : text) : text :=
  sub_runs_aux cls p false s.

(** [[!?]] *)
Definition is_bang_question (c : Z) : bool := (c =? BANG) || (c =? QUESTION).

Module Simple.
Section Cloner.
Variable E : Engine.
(** [VoiceClonerAlternative().clone_voice] of the module
    [voice_cloner_alternative], which the [except] clause imports; the module
    is not among the sources.  [None]: the import or the constructor raises. *)
Variable alternative : option (text -> voice_features -> string -> Run string).

Definition temp_speaker_path : string := "temp_speaker.wav".

(** The body of the [try].  The reference audio is written as it is, the
    language is always ["hi"], [split_sentences] is not passed, and the
    speaker file is removed after the call, outside any [finally]. *)
Definition clone_voice_body (t : text) (vf : voice_features) (output_path : string)
    : Run string :=
  _ensure_model_loaded E ~~
  sf_write E temp_speaker_path (SpeakerReference (audio_data vf)) ~~
  tts_to_file E {| call_text := t;
                   speaker_wav := temp_speaker_path;
                   language := hi;
                   split_sentences := None;
                   sampling_extras := false |} output_path ~~
  (fun w => (Ok tt, remove_if_exists temp_speaker_path w)) ~~
  rret output_path.

(** [except Exception as e:] the alternative cloner is tried; when it cannot
    be had or raises as well, [raise e]. *)
Definition clone_voice (t : text) (vf : voice_features) (output_path : string)
    : Run string :=
  fun w =>
    match clone_voice_body t vf output_path w with
    | (Ok p, w') => (Ok p, w')
    | (Raise e, w') =>
        match alternative with
        | None => (Raise e, w')
        | Some fallback =>
            match fallback t vf output_path w' with
            | (Ok p, w'') => (Ok p, w'')
            | (Raise _, w'') => (Raise e, w'')
            end
        end
    end.

End Cloner.
End Simple.

Module FixedQuality.
Section Cloner.
Variable uni_alnum : Z -> bool.
Variable L : NumLib.
Variable E : Engine.

(** The class derives from MultilingualVoiceCloner and inherits its segmenter. *)
Definition detect_text_language_segments : text -> segments :=
  Multilingual.detect_text_language_segments uni_alnum.

Definition optimize_text_for_voice_cloning (t0 : text) : text :=
  let t := sub_ws_runs (strip t0) in
  let t := sub_class_runs (fun c => c =? DANDA) PERIOD t in
  let t := sub_class_runs is_bang_question PERIOD t in
  sub_class_runs (fun c => c =? PERIOD) PERIOD t.

Definition fade_limit : nat := 220.         (* int(0.01 * self.sample_rate) *)

Definition minimal_cleanup_body : Try wave :=
  a <- get_audio ;;
  set_audio (remove_dc a) ;;;
  a <- get_audio ;;
  trimmed <- call (librosa_trim L a 20) ;;
  set_audio trimmed ;;;
  a <- get_audio ;;
  peak <- call (np_max (np_abs a)) ;;
  (if Qltb 0 peak then set_audio (scale_to (4 # 5) peak a) else ret tt) ;;;
  a <- get_audio ;;
  let fade_samples := Nat.min fade_limit (length a / 40) in
  (if (0 <? fade_samples)%nat
   then set_audio (apply_fades linear fade_samples a)
   else ret tt) ;;;
  get_audio.

(** [except Exception: return audio] *)
Definition _minimal_audio_cleanup (audio : wave) : wave :=
  try_except minimal_cleanup_body (fun audio => audio) audio.

Definition temp_speaker_path : string := "temp_speaker_fixed.wav".

(** As in WebSocketFixedHinglishCloner, but [tts.tts] is called with [text],
    [speaker_wav] and [language] only. *)
Definition clone_voice_multilingual (t : text) (vf : voice_features)
    (output_path : string) (enhance_quality : bool) : Run string :=
  _ensure_model_loaded E ~~
  let optimized_text := optimize_text_for_voice_cloning t in
  reference_audio <~ of_option ValueError (normalize_reference (audio_data vf)) ;;
  makedirs_for E output_path ~~
  let ratio := hindi_ratio (detect_text_language_segments t) in
  let primary := primary_language ratio in
  sf_write E temp_speaker_path (SpeakerReference reference_audio) ~~
  generated <~ try_finally
                 (tts E {| call_text := optimized_text;
                           speaker_wav := temp_speaker_path;
                           language := primary;
                           split_sentences := None;
                           sampling_extras := false |})
                 (remove_if_exists temp_speaker_path) ;;
  let generated := _minimal_audio_cleanup generated in
  sf_write E output_path (GeneratedAudio generated) ~~
  rret output_path.

End Cloner.
End FixedQuality.

(** ** [_final_audio_cleanup] on binary64 samples

    The peak limit of the sanitizer is a statement about rounded arithmetic,
    so this function is embedded a second time, over the binary64 numbers
    that a [float64] array and a Python [float] hold, with NaN and the
    infinities.  Every arithmetic step of the source is one correctly rounded
    operation here. *)

Module Binary64.
Import Floats.PrimFloat.
Local Open Scope float_scope.

Definition samples := list float.

(** The routines whose order of summation or whose filter design is inside
    NumPy and SciPy. *)
Record FloatLib : Type := {
  np_std : samples -> float;
  np_mean : samples -> float;
  (** [b, a = signal.butter(2, 80 / nyquist, btype='high')] followed by
      [signal.filtfilt(b, a, x)], on an input longer than the padding;
      [None]: it raises. *)
  highpass : samples -> option samples
}.

(** [signal.filtfilt] raises ValueError unless the input is longer than its
    padding of nine samples. *)
Definition filtfilt_highpass (F : FloatLib) (x : samples) : option samples :=
  if (length x <=? padlen)%nat then None else highpass F x.

(** The literal [0.95]: the binary64 number nearest to 95/100, which lies
    below it.  A binary64 number is above 95/100 exactly when it is above
    this one. *)
Definition limit : float := 0x1.e666666666666p-1.

(** [np.maximum] on two numbers: a NaN wins. *)
Definition np_maximum (a b : float) : float := if is_nan a || leb b a then a else b.

(** [np.clip(x, lo, hi)] on one sample: [x] below [lo] becomes [lo], above
    [hi] becomes [hi]; a NaN sample stays, a NaN bound makes the result NaN. *)
Definition np_clip (lo hi x : float) : float :=
  let y := if is_nan x || ltb lo x then x else lo in
  if is_nan y || ltb y hi then y else hi.

(** [np.max]; [None] is the ValueError raised on a zero-size array. *)
Definition np_max (a : samples) : option float :=
  match a with
  | [] => None
  | x :: r => Some (fold_left np_maximum r x)
  end.

(** [np.nan_to_num(x, nan=0.0, posinf=0.0, neginf=0.0)] on one sample *)
Definition nan_to_num (x : float) : float :=
  if is_nan x || is_infinity x then 0 else x.

(** The outer [try] has one step that raises on an array, [np.max] on a
    zero-size one; its [except] clause then clips the local [audio] to
    [-1, 1].  The inner [try] keeps [audio] as it is when the filter raises;
    [high_cutoff < 0.99] holds for the fixed sample rate. *)
Definition _final_audio_cleanup (F : FloatLib) (audio : samples) : samples :=
  let audio_std := np_std F audio in
  let audio_mean := np_mean F audio in
  let clip_threshold := audio_std * 4 in
  let audio :=
    List.map (np_clip (audio_mean - clip_threshold) (audio_mean + clip_threshold)) audio in
  let audio :=
    match filtfilt_highpass F audio with Some filtered => filtered | None => audio end in
  match np_max (List.map abs audio) with
  | None => List.map (np_clip (-1) 1) audio
  | Some peak =>
      let audio :=
        if ltb limit peak then List.map (fun x => x * (limit / peak)) audio else audio in
      List.map nan_to_num audio
  end.

(** What the claim asks of a sample: finite, and not above 95/100 in
    magnitude. *)
Definition within_limit (x : float) : bool := is_finite x && leb (abs x) limit.

(** *** A sample input *)

(** NumPy on an array of one finite sample: the deviation is 0 and the mean
    is the sample.  The filter is never reached on such an array. *)
Definition one_sample_lib : FloatLib :=
  {| np_std := fun _ => 0;
     np_mean := fun a => match a with [x] => x | _ => nan end;
     highpass := fun x => Some x |}.

(** 1.0481444332998997 *)
Definition loud_sample : float := 0x1.0c53318e81edp+0.

(** 0.9500000000000001, the binary64 number that follows [limit]. *)
Definition above_limit : float := 0x1.e666666666667p-1.

End Binary64.


(** * Vocabulary of the statements

    Predicates and sample inputs that the lemmas and theorems below are
    stated with. *)

(** ** Texts *)

(** The last character of a text, if any, is not whitespace. *)
Definition ends_clean (s : text) : Prop :=
  match rev s with [] => True | c :: _ => is_space c = false end.

(** The first character of a text, if any, is not whitespace. *)
Definition starts_clean (s : text) : Prop :=
  match s with [] => True | c :: _ => is_space c = false end.

(** The rule of [detect_text_language_segments] in terms of the token itself:
    cleaning the word first changes nothing. *)
Definition script_tag (fallback : lang) (word : text) : lang :=
  if existsb is_devanagari word then hi
  else if existsb is_ascii_letter word then en
  else fallback.

(** [tidy after_space s]: every whitespace character of [s] is a single
    U+0020 that follows a non-whitespace character, and [s] does not end in
    one; [after_space] tells that no space may come first. *)
Fixpoint tidy (after_space : bool) (s : text) : bool :=
  match s with
  | [] => negb after_space
  | c :: r =>
      if is_space c then (c =? SPACE) && negb after_space && tidy true r
      else tidy false r
  end.

(** A text that the first step of every canonicalization leaves alone. *)
Definition normal (s : text) : Prop :=
  match s with [] => True | _ => tidy true s = true end.

(** [ends_ok p r]: [r] can be the rest of a text that ends cleanly. *)
Definition ends_ok (p : bool) (r : text) : Prop :=
  match r with [] => p = false | _ => ends_clean r end.

(** [adj_free P Q prev s]: no character of [Q] directly follows one of [P] in
    [s]; [prev] tells that the character before [s] is in [P]. *)
Fixpoint adj_free (P Q : Z -> bool) (prev : bool) (s : text) : bool :=
  match s with
  | [] => true
  | c :: r => negb (prev && Q c) && adj_free P Q (P c) r
  end.

(** ** Sample inputs *)

(** A Unicode table for the closed examples below; their inputs are ASCII, so
    the table is never consulted. *)
Definition ascii_table : Z -> bool := fun _ => false.

Definition scenario_A : text := of_string "Good morning aap kaise hain?".
Definition pi_sentence : text := of_string "The value of pi is 3.14 exactly".
Definition double_spaced : text := of_string "a  b".

(** ** Waveforms *)

(** A library whose routines all succeed: the filter and the trim return
    their input, the 99th percentile is 1. *)
Definition lenient_lib : NumLib :=
  {| highpass := fun _ x => Some x;
     np_percentile := fun _ _ => Some 1%Q;
     librosa_trim := fun x _ => Some x;
     rms := fun _ => 0%Q;
     resample := fun w _ _ => w |}.

(** A library in which every fallible routine raises. *)
Definition raising_lib : NumLib :=
  {| highpass := fun _ _ => None;
     np_percentile := fun _ _ => None;
     librosa_trim := fun _ _ => None;
     rms := fun _ => 0%Q;
     resample := fun w _ _ => w |}.

Definition two_samples : wave := [1%Q; 0%Q].

(** The working copy of [_minimal_final_cleanup] when the trim is reached. *)
Definition centred_and_normalized (audio : wave) : wave :=
  let a := remove_dc audio in
  match np_max (np_abs a) with
  | Some peak => if Qltb 0 peak then scale_to (95 # 100) peak a else a
  | None => a
  end.

(** ** Runs *)

(** [w'] extends the call log of [w] by calls that all pass
    [split_sentences=False]. *)
Definition only_unsplit_calls (w w' : world) : Prop :=
  exists new, tts_calls w' = tts_calls w ++ new /\
              Forall (fun c => split_sentences c = Some false) new.

(** [m] issues only unsplit calls, however it ends. *)
Definition unsplit {A} (m : Run A) : Prop :=
  forall w, only_unsplit_calls w (snd (m w)).

(** No reference audio for the engine is stored at [path]. *)
Definition no_speaker_file (path : string) (w : world) : Prop :=
  forall ref, files w !! path <> Some (SpeakerReference ref).

(** What holds between the pulls of a stream whose speaker file is [temp]. *)
Definition stream_inv (E : Engine) (temp : string) (g : Realtime.gen_state) (w : world) : Prop :=
  match g with
  | Realtime.NotStarted t _ => Realtime.temp_speaker_path E t = temp /\ no_speaker_file temp w
  | Realtime.Suspended _ _ temp' _ => temp' = temp
  | Realtime.Finished => no_speaker_file temp w
  end.

(** After a pull: the invariant holds, and a pull that delivers no chunk
    leaves the generator finished. *)
Definition pull_post (E : Engine) (temp : string)
    (r : Realtime.delivery * Realtime.gen_state * world) : Prop :=
  let '(d, g', w') := r in
  stream_inv E temp g' w' /\
  match d with Realtime.Chunk _ => True | _ => g' = Realtime.Finished end.

(** ** Sample collaborators *)

Definition empty_world : world := {| files := ∅; tts_calls := [] |}.

Definition demo_voice : voice_features :=
  {| audio_data := [(1 # 2)%Q; (-1 # 4)%Q]; rms_energy := None; spectral_centroid := None |}.

(** An engine whose first call raises TypeError and whose later calls fail. *)
Definition failing_engine : Engine :=
  {| model_loads := true;
     has_inner_model := true;
     synthesize := fun n _ => match n with O => RaisesTypeError | _ => RaisesOther end;
     can_write := fun _ => true;
     can_mkdir := fun _ => true;
     text_hash := fun _ => 4242 |}.

(** An engine that answers every call with the same three samples. *)
Definition steady_engine : Engine :=
  {| model_loads := true;
     has_inner_model := false;
     synthesize := fun _ _ => Synthesized [0%Q; (1 # 2)%Q; 0%Q];
     can_write := fun _ => true;
     can_mkdir := fun _ => true;
     text_hash := fun _ => 4242 |}.

(** An engine that raises on every call. *)
Definition refusing_engine : Engine :=
  {| model_loads := true;
     has_inner_model := false;
     synthesize := fun _ _ => RaisesOther;
     can_write := fun _ => true;
     can_mkdir := fun _ => true;
     text_hash := fun _ => 4242 |}.

Definition two_sentences : text := of_string "Hello there. General Kenobi!".

(** ** Characters that a canonicalization leaves in place *)

(** A character that the minimal canonicalization neither deletes nor
    inserts: anything but whitespace and [! । ?]. *)
Definition survives_minimal (c : Z) : bool :=
  negb (is_space c) && negb (is_bang_danda_question c).

(** The punctuation that MultilingualVoiceCloner replaces by spaces or
    deletes wherever it stands: [! । ?], [, ; :], the double quote and the
    backtick, the dashes. *)
Definition is_splitter (c : Z) : bool :=
  is_bang_danda_question c || is_comma_semi_colon c || is_quote c || is_dash c.

(** A character that the canonicalization of MultilingualVoiceCloner neither
    deletes nor inserts: anything but whitespace, the splitters and the period. *)
Definition survives_multilingual (c : Z) : bool :=
  negb (is_space c) && negb (is_splitter c) && negb (c =? PERIOD).

(** [s] does not start with whitespace, and every whitespace character of
    [s] is U+0020 and is followed by a character that is not whitespace: the
    words of [s] are separated by exactly one space, and [s] does not end in
    one. *)
Definition single_spaced (s : text) : Prop :=
  starts_clean s /\
  forall a c b, s = a ++ c :: b -> is_space c = true ->
    c = SPACE /\ match b with [] => False | d :: _ => is_space d = false end.

(** No letter of [अ-ह] touches an ASCII letter in [s], in either order. *)
Definition scripts_apart (s : text) : Prop :=
  forall a x y b, s = a ++ x :: y :: b ->
    is_hindi_letter x && is_ascii_letter y = false /\
    is_ascii_letter x && is_hindi_letter y = false.

(** ["आजweather nice है!"] *)
Definition hinglish_sample : text :=
  [2310; 2332] ++ of_string "weather nice " ++ [2361; 2376] ++ of_string "!".

(** ** Sentences and chunks *)

Definition no_terminator (c : text) : bool :=
  forallb (fun x => negb (is_sentence_end x)) c.

(** What a sentence handed to the engine looks like: not empty, no whitespace
    at either end, no sentence terminator inside. *)
Definition clean_sentence (c : text) : Prop :=
  c <> [] /\ starts_clean c /\ ends_clean c /\ no_terminator c = true.

(** [" ".join(l)] *)
Fixpoint join_space (l : list text) : text :=
  match l with
  | [] => []
  | [x] => x
  | x :: r => x ++ SPACE :: join_space r
  end.

(** The pieces of [t] between two terminators, stripped, the empty ones left
    out: the sentences that the loop of [_chunk_long_text] does not skip. *)
Definition stripped_sentences (t : text) : list text :=
  List.filter WebSocket.truthy (List.map strip (WebSocket.re_split_each t)).

(** What [_chunk_long_text] returns when the loop ends in the state [st]. *)
Definition chunk_result (st : list text * text) : list text :=
  let (chunks, current_chunk) := st in
  if WebSocket.truthy current_chunk then chunks ++ [strip current_chunk] else chunks.

(** What the loop of [_chunk_long_text] keeps true, [done] being the
    sentences read so far and [all] the sentences of the text: the chunk
    under construction is empty only before the first sentence; the finished
    chunks and the one under construction are clean, spell the sentences read
    so far, and each is short enough or is one sentence. *)
Definition chunk_inv (m : Z) (all done : list text) (st : list text * text) : Prop :=
  let (chunks, cur) := st in
  (cur = [] -> chunks = [] /\ done = []) /\
  Forall clean_sentence chunks /\ (cur = [] \/ clean_sentence cur) /\
  join_space (chunk_result st) = join_space done /\
  Forall (fun c => Z.of_nat (length c) <= m \/ In c all) (chunk_result st).

(** A group of sentences that the loop of [_chunk_long_text] may put into one
    chunk: a single sentence, or sentences whose join fits [m]. *)
Definition group_fits (m : Z) (g : list text) : Prop :=
  (exists s, g = [s]) \/ Z.of_nat (length (join_space g)) <= m.

(** The groups behind a state of the loop, [done] being the sentences read so
    far: the finished chunks are the joins of the groups [closed], the chunk
    under construction is the join of [open], the groups hold the sentences
    read so far in order, and each finished group fits. *)
Definition chunk_groups (m : Z) (done : list text) (st : list text * text) : Prop :=
  let (chunks, cur) := st in
  exists (closed : list (list text)) (open : list text),
    chunks = List.map join_space closed /\ cur = join_space open /\
    concat closed ++ open = done /\
    Forall (fun g => g <> []) closed /\
    Forall (group_fits m) closed /\ (open = [] \/ group_fits m open).

(** A text of two sentences, the first of 19 characters. *)
Definition long_sentence_text : text := of_string "aaaa bbbb cccc dddd. e".

(** ** Files and calls of a run *)

(** [w'] holds the same file as [w] at every path outside [paths]. *)
Definition same_files_except (paths : list string) (w w' : world) : Prop :=
  forall p, ~ In p paths -> files w' !! p = files w !! p.

(** [m] changes no file outside [paths], however it ends. *)
Definition touches_only {A} (paths : list string) (m : Run A) : Prop :=
  forall w, same_files_except paths w (snd (m w)).

(** [g] is a state of the stream that was started for the text [t]. *)
Definition stream_of (E : Engine) (t : text) (g : Realtime.gen_state) : Prop :=
  match g with
  | Realtime.NotStarted t' _ => t' = t
  | Realtime.Suspended _ _ temp _ => temp = Realtime.temp_speaker_path E t
  | Realtime.Finished => True
  end.

(** The post-processing of MultilingualVoiceCloner, from the engine's answer
    to the samples that are saved. *)
Definition multilingual_post (uni_alnum : Z -> bool) (L : NumLib) (t : text)
    (vf : voice_features) (enhance_quality : bool) (generated : wave) : wave :=
  let cleaned := Multilingual._clean_audio_artifacts L generated in
  Multilingual._minimal_final_cleanup L
    (if enhance_quality &&
        (length (Multilingual.optimize_text_for_voice_cloning uni_alnum t) <? 100)%nat
     then Multilingual._enhance_audio_quality L cleaned vf
     else cleaned).

(** The one call of the WebSocket run for the text [t]. *)
Definition websocket_call (uni_alnum : Z -> bool) (t : text) : tts_call :=
  {| call_text := WebSocket.optimize_text_for_voice_cloning uni_alnum t;
     speaker_wav := WebSocket.temp_speaker_path;
     language := primary_language
                   (hindi_ratio (WebSocket.detect_text_language_segments uni_alnum t));
     split_sentences := Some false;
     sampling_extras := false |}.

(** How the inner [try] of MultilingualVoiceCloner came to an answer, [n]
    calls having been made before: at once with the sampling parameters, at
    the retry without them after a TypeError, or at once without them when
    the engine has no inner model. *)
Definition answered (E : Engine) (n : nat) (with_extras without_extras : tts_call)
    (calls : list tts_call) (generated : wave) : Prop :=
  (has_inner_model E = true /\ calls = [with_extras] /\
   synthesize E n with_extras = Synthesized generated) \/
  (has_inner_model E = true /\ calls = [with_extras; without_extras] /\
   synthesize E n with_extras = RaisesTypeError /\
   synthesize E (S n) without_extras = Synthesized generated) \/
  (has_inner_model E = false /\ calls = [without_extras] /\
   synthesize E n without_extras = Synthesized generated).

(** The call that the stream makes for one sentence. *)
Definition stream_call (temp : string) (primary : lang) (sentence : text) : tts_call :=
  {| call_text := sentence;
     speaker_wav := temp;
     language := primary;
     split_sentences := Some false;
     sampling_extras := false |}.

(** A consumer asked for at most [k] chunks of a stream over the sentences
    [rest], took the chunks [got] and met the end [err] ([None]: it closed
    the stream or the stream ended).  [n] calls were made: one per chunk
    taken, and one more if the last call failed; if the consumer stopped
    short of [k] without an error, every sentence was synthesized. *)
Definition stream_progress (k : nat) (rest : list text) (got : list (list Z))
    (err : option exn) (n : nat) : Prop :=
  (n <= length rest)%nat /\
  (length got <= n <= S (length got))%nat /\
  (err = None -> n = length got) /\
  (err = None -> (length got < k)%nat -> n = length rest).

(** A world with one recording and no call made. *)
Definition world_with_recording : world :=
  {| files := {[ "generated/old.wav" := GeneratedAudio [(1 # 4)%Q] ]}; tts_calls := [] |}.

(** Voice features whose reference audio is empty. *)
Definition no_voice : voice_features :=
  {| audio_data := []; rms_energy := None; spectral_centroid := None |}.

(** ** Levels *)

(** No sample of [w] is louder than [level]. *)
Definition quieter_than (level : Q) (w : wave) : Prop :=
  Forall (fun x => (Qabs x <= level)%Q) w.

(** A factor between 0 and 1. *)
Definition is_gain (f : Q) : Prop := (0 <= f)%Q /\ (f <= 1)%Q.

(** The first sample of [w] is zero. *)
Definition starts_silent (w : wave) : Prop := exists x rest, w = x :: rest /\ (x == 0)%Q.

(** The last sample of [w] is zero. *)
Definition ends_silent (w : wave) : Prop := exists front y, w = front ++ [y] /\ (y == 0)%Q.

(** A constant tone of 1001 samples, and two samples louder than full scale. *)
Definition steady_tone : wave := repeat (1 # 2)%Q 1001.
Definition loud_samples : wave := [2%Q; (- (3))%Q].

(** A tone of 222 samples that alternates between 1/2 and -1/4. *)
Definition wavering_tone : wave := concat (repeat [(1 # 2)%Q; (- (1 # 4))%Q] 111).

(** * Properties *)

(** ** Stripping and splitting *)

Lemma lstrip_decompose (s : text) :
  exists ws, s = ws ++ lstrip s /\ forallb is_space ws = true.
Proof.
  induction s as [|c r [ws [Hr Hws]]]; simpl.
  - exists []. split; reflexivity.
  - destruct (is_space c) eqn:Hc.
    + exists (c :: ws). simpl. rewrite Hc, Hws. split; [f_equal; exact Hr | reflexivity].
    + exists []. split; reflexivity.
Qed.

Lemma lstrip_head (s : text) :
  match lstrip s with [] => True | c :: _ => is_space c = false end.
Proof.
  induction s as [|c r IH]; simpl; [exact I|].
  destruct (is_space c) eqn:Hc; [exact IH | exact Hc].
Qed.

Lemma lstrip_fixed (s : text) :
  match s with [] => True | c :: _ => is_space c = false end -> lstrip s = s.
Proof. destruct s as [|c r]; simpl; [reflexivity|]. intros ->. reflexivity. Qed.

Lemma forallb_rev {A} (p : A -> bool) (l : list A) :
  forallb p (rev l) = forallb p l.
Proof.
  induction l as [|x l IH]; simpl; [reflexivity|].
  rewrite forallb_app, IH. simpl. rewrite andb_true_r. apply andb_comm.
Qed.

Lemma rstrip_decompose (s : text) :
  exists ws, s = rstrip s ++ ws /\ forallb is_space ws = true.
Proof.
  unfold rstrip. destruct (lstrip_decompose (rev s)) as [ws [H Hws]].
  exists (rev ws). split.
  - rewrite <- rev_app_distr, <- H, rev_involutive. reflexivity.
  - rewrite forallb_rev. exact Hws.
Qed.

Lemma rstrip_ends_clean (s : text) : ends_clean (rstrip s).
Proof. unfold ends_clean, rstrip. rewrite rev_involutive. apply lstrip_head. Qed.

Lemma rstrip_fixed (s : text) : ends_clean s -> rstrip s = s.
Proof.
  unfold ends_clean, rstrip. intros H. rewrite lstrip_fixed by exact H.
  apply rev_involutive.
Qed.

Lemma rstrip_starts_clean (s : text) : starts_clean s -> starts_clean (rstrip s).
Proof.
  intros Hs. destruct (rstrip_decompose s) as [ws [H Hws]].
  destruct (rstrip s) as [|c r] eqn:Hr; [exact I|].
  rewrite H in Hs. exact Hs.
Qed.

Lemma strip_starts_clean (s : text) : starts_clean (strip s).
Proof. apply rstrip_starts_clean, lstrip_head. Qed.

Lemma strip_ends_clean (s : text) : ends_clean (strip s).
Proof. apply rstrip_ends_clean. Qed.

Lemma strip_fixed (s : text) : starts_clean s -> ends_clean s -> strip s = s.
Proof.
  intros H1 H2. unfold strip. rewrite (lstrip_fixed s H1). apply rstrip_fixed, H2.
Qed.

Lemma strip_idempotent (s : text) : strip (strip s) = strip s.
Proof. apply strip_fixed; [apply strip_starts_clean | apply strip_ends_clean]. Qed.

(** [s.strip()] is [s] without a whitespace prefix and a whitespace suffix. *)
Lemma strip_decompose (s : text) :
  exists pre suf, s = pre ++ strip s ++ suf /\
                  forallb is_space pre = true /\ forallb is_space suf = true.
Proof.
  destruct (lstrip_decompose s) as [pre [H1 Hpre]].
  destruct (rstrip_decompose (lstrip s)) as [suf [H2 Hsuf]].
  exists pre, suf. unfold strip. rewrite <- H2. auto.
Qed.

Lemma strip_length (s : text) : (length (strip s) <= length s)%nat.
Proof.
  destruct (strip_decompose s) as [pre [suf [H _]]].
  rewrite H at 2. rewrite !length_app. lia.
Qed.

Lemma split_aux_tokens (cur s : text) :
  forallb not_space cur = true ->
  Forall (fun w => w <> [] /\ forallb not_space w = true) (split_aux cur s).
Proof.
  revert cur. induction s as [|c r IH]; intros cur Hcur; simpl.
  - destruct cur as [|x cur']; [constructor|].
    constructor; [|constructor]. split.
    + intros H. apply (f_equal (@length Z)) in H. rewrite length_rev in H. discriminate.
    + rewrite forallb_rev. exact Hcur.
  - destruct (is_space c) eqn:Hc.
    + destruct cur as [|x cur'].
      * apply IH. reflexivity.
      * constructor; [|apply IH; reflexivity]. split.
        -- intros H. apply (f_equal (@length Z)) in H. rewrite length_rev in H. discriminate.
        -- rewrite forallb_rev. exact Hcur.
    + apply IH. simpl. unfold not_space at 1. rewrite Hc. exact Hcur.
Qed.

Lemma split_aux_concat (cur s : text) :
  concat (split_aux cur s) = rev cur ++ List.filter not_space s.
Proof.
  revert cur. induction s as [|c r IH]; intros cur; simpl.
  - destruct cur; simpl; rewrite ?app_nil_r; reflexivity.
  - unfold not_space at 1. destruct (is_space c) eqn:Hc; simpl.
    + destruct cur as [|x cur']; simpl; rewrite IH; reflexivity.
    + rewrite IH. simpl. rewrite <- app_assoc. reflexivity.
Qed.

(** The tokens of [s.split()] are non-empty, free of whitespace, and together
    they are the non-whitespace characters of [s] in order. *)
Lemma split_tokens (s : text) :
  Forall (fun w => w <> [] /\ forallb not_space w = true) (split s) /\
  concat (split s) = List.filter not_space s.
Proof.
  split; [apply split_aux_tokens; reflexivity | apply (split_aux_concat [] s)].
Qed.

Lemma split_blank (s : text) : forallb is_space s = true -> split s = [].
Proof.
  unfold split. induction s as [|c r IH]; simpl; [reflexivity|].
  intros H. apply andb_prop in H as [-> H]. exact (IH H).
Qed.

(** ** The segmenters *)

Lemma existsb_filter_keeps {A} (p q : A -> bool) (l : list A) :
  (forall x, p x = true -> q x = true) ->
  existsb p (List.filter q l) = existsb p l.
Proof.
  intros Hpq. induction l as [|x l IH]; simpl; [reflexivity|].
  destruct (q x) eqn:Hq; simpl; rewrite IH; [reflexivity|].
  destruct (p x) eqn:Hp; [|reflexivity].
  rewrite (Hpq x Hp) in Hq. discriminate.
Qed.

Lemma ascii_letter_is_word (uni_alnum : Z -> bool) (c : Z) :
  is_ascii_letter c = true -> Multilingual.is_word_char uni_alnum c = true.
Proof.
  unfold Multilingual.is_word_char. intros H. rewrite H.
  assert ((c <? 128) = true) as ->.
  { unfold is_ascii_letter, in_range in H. lia. }
  rewrite orb_true_r. reflexivity.
Qed.

Lemma multilingual_tag_of_word (uni_alnum : Z -> bool) (word : text) :
  Multilingual.tag_of_word uni_alnum word = script_tag hi word.
Proof.
  unfold Multilingual.tag_of_word, Multilingual.clean_word, script_tag.
  rewrite !existsb_filter_keeps; [reflexivity | |].
  - intros c Hc. rewrite (ascii_letter_is_word _ _ Hc). reflexivity.
  - intros c Hc. rewrite Hc. apply orb_true_r.
Qed.

Lemma multilingual_detect_spec (uni_alnum : Z -> bool) (t : text) :
  Multilingual.detect_text_language_segments uni_alnum t =
  List.map (fun w => (w, script_tag hi w)) (split t).
Proof.
  unfold Multilingual.detect_text_language_segments.
  apply map_ext. intros w. rewrite multilingual_tag_of_word. reflexivity.
Qed.

Lemma count_hi_le (segs : segments) : (count_hi segs <= length segs)%nat.
Proof. unfold count_hi. apply filter_length_le. Qed.

Lemma hindi_ratio_bounds (segs : segments) :
  (0 <= hindi_ratio segs)%Q /\ (hindi_ratio segs <= 1)%Q.
Proof.
  unfold hindi_ratio. destruct segs as [|p segs']; [split; discriminate|].
  pose proof (count_hi_le (p :: segs')) as Hle.
  set (n := length (p :: segs')) in *.
  assert (Hn : Z.pos (Pos.of_nat n) = Z.of_nat n).
  { subst n. simpl length. rewrite <- Pos.of_nat_succ. lia. }
  unfold Qle. simpl. rewrite Hn. lia.
Qed.

(** ** Whitespace normal form *)

Lemma tidy_sub_ws_fixed (s : text) (p q : bool) :
  tidy p s = true -> (q = true -> p = true) -> sub_ws_aux q s = s.
Proof.
  revert p q. induction s as [|c r IH]; intros p q H Hq; simpl in *; [reflexivity|].
  destruct (is_space c) eqn:Hc.
  - apply andb_prop in H as [H H3]. apply andb_prop in H as [H1 H2].
    destruct p; [discriminate|]. destruct q; [discriminate (Hq eq_refl)|].
    apply Z.eqb_eq in H1. subst c. f_equal. apply (IH true true); auto.
  - f_equal. apply (IH false false); auto.
Qed.

Lemma tidy_ends_clean (s : text) (p : bool) :
  tidy p s = true -> s <> [] -> ends_clean s.
Proof.
  revert p. induction s as [|c r IH]; intros p H Hne; [congruence|].
  simpl in H. unfold ends_clean in *. simpl.
  destruct r as [|d r'].
  - simpl. destruct (is_space c) eqn:Hc; [|reflexivity].
    simpl in H. rewrite andb_false_r in H. discriminate.
  - assert (Hr : match rev (d :: r') with [] => True | x :: _ => is_space x = false end).
    { destruct (is_space c).
      - apply andb_prop in H as [_ H]. apply (IH true H). discriminate.
      - apply (IH false H). discriminate. }
    destruct (rev (d :: r')) as [|x l] eqn:Hrev.
    + apply (f_equal (@length Z)) in Hrev. rewrite length_rev in Hrev. discriminate.
    + simpl. exact Hr.
Qed.

Lemma normal_fixed (s : text) : normal s -> sub_ws_runs (strip s) = s.
Proof.
  destruct s as [|c r]; [reflexivity|]. intros H. unfold normal in H.
  rewrite strip_fixed.
  - apply (tidy_sub_ws_fixed _ true false H). discriminate.
  - simpl in *. destruct (is_space c); [|reflexivity].
    rewrite andb_false_r in H. discriminate.
  - apply (tidy_ends_clean _ true H). discriminate.
Qed.

Lemma ends_clean_tail (c : Z) (r : text) :
  r <> [] -> ends_clean (c :: r) -> ends_clean r.
Proof.
  unfold ends_clean. simpl. intros Hne H.
  destruct (rev r) as [|x l] eqn:Hrev; [exact I|]. exact H.
Qed.

Lemma ends_clean_single (c : Z) : ends_clean [c] -> is_space c = false.
Proof. unfold ends_clean. simpl. auto. Qed.

Lemma sub_ws_aux_tidy (r : text) (p : bool) :
  ends_ok p r -> tidy p (sub_ws_aux p r) = true.
Proof.
  revert p. induction r as [|c r IH]; intros p H; simpl in *.
  - rewrite H. reflexivity.
  - assert (Hr : forall q, (r = [] -> q = false) -> ends_ok q r).
    { intros q Hq. destruct r as [|d r']; [apply Hq; reflexivity|].
      apply (ends_clean_tail c); [discriminate | exact H]. }
    destruct (is_space c) eqn:Hc.
    + assert (Hne : r <> []).
      { intros ->. apply ends_clean_single in H. congruence. }
      destruct p.
      * apply IH, Hr. intros; contradiction.
      * simpl. rewrite IH; [reflexivity|]. apply Hr. intros; contradiction.
    + simpl. rewrite Hc. apply IH, Hr. reflexivity.
Qed.

(** The first step of every canonicalization yields a normal text. *)
Lemma normalize_normal (s : text) : normal (sub_ws_runs (strip s)).
Proof.
  pose proof (strip_starts_clean s) as Hs. pose proof (strip_ends_clean s) as He.
  destruct (strip s) as [|c r] eqn:Hst; [exact I|].
  simpl in Hs. unfold sub_ws_runs. simpl. rewrite Hs. unfold normal.
  simpl. rewrite Hs. apply sub_ws_aux_tidy.
  destruct r as [|d r']; [reflexivity|].
  apply (ends_clean_tail c); [discriminate | exact He].
Qed.

Lemma normalize_idempotent (s : text) :
  sub_ws_runs (strip (sub_ws_runs (strip s))) = sub_ws_runs (strip s).
Proof. apply normal_fixed, normalize_normal. Qed.

(** ** Texts that a substitution leaves alone *)

Lemma sub_class_delete_clear (cls : Z -> bool) (s : text) :
  forallb (fun c => negb (cls c)) (sub_class_delete cls s) = true.
Proof.
  unfold sub_class_delete. apply forallb_forall. intros c Hc.
  apply filter_In in Hc. tauto.
Qed.

Lemma sub_class_delete_fixed (cls : Z -> bool) (s : text) :
  forallb (fun c => negb (cls c)) s = true -> sub_class_delete cls s = s.
Proof.
  unfold sub_class_delete. induction s as [|c r IH]; simpl; [reflexivity|].
  intros H. apply andb_prop in H as [-> H]. f_equal. exact (IH H).
Qed.

Section SpaceInsensitive.
(** A property of characters that U+0020 has. *)
Variable ok : Z -> bool.
Hypothesis ok_space : ok SPACE = true.

Lemma forallb_sub_insert (P Q : Z -> bool) (p : bool) (s : text) :
  forallb ok s = true -> forallb ok (sub_insert_aux P Q p s) = true.
Proof.
  revert p. induction s as [|c r IH]; intros p H; simpl in *; [reflexivity|].
  apply andb_prop in H as [Hc Hr].
  destruct (p && Q c); simpl; rewrite ?ok_space, Hc, IH; auto.
Qed.

Lemma forallb_sub_ws (p : bool) (s : text) :
  forallb ok s = true -> forallb ok (sub_ws_aux p s) = true.
Proof.
  revert p. induction s as [|c r IH]; intros p H; simpl in *; [reflexivity|].
  apply andb_prop in H as [Hc Hr].
  destruct (is_space c); [destruct p|]; simpl; rewrite ?ok_space, ?Hc, IH; auto.
Qed.

Lemma forallb_strip (s : text) :
  forallb ok s = true -> forallb ok (strip s) = true.
Proof.
  destruct (strip_decompose s) as [pre [suf [H _]]]. intros Hs.
  rewrite H, !forallb_app in Hs.
  apply andb_prop in Hs as [_ Hs]. apply andb_prop in Hs as [Hs _]. exact Hs.
Qed.
End SpaceInsensitive.

Section Adjacent.
Variables P Q : Z -> bool.
Hypothesis P_not_space : forall c, is_space c = true -> P c = false.
Hypothesis Q_not_space : forall c, is_space c = true -> Q c = false.
Hypothesis disjoint : forall c, Q c = true -> P c = false.

Lemma adj_free_weaken (p : bool) (s : text) :
  adj_free P Q p s = true -> adj_free P Q false s = true.
Proof.
  destruct s as [|c r]; simpl; [auto|]. intros H.
  apply andb_prop in H as [_ H]. exact H.
Qed.

Lemma adj_free_insert_fixed (s : text) (p q : bool) :
  adj_free P Q p s = true -> (q = true -> p = true) ->
  sub_insert_aux P Q q s = s.
Proof.
  revert p q. induction s as [|c r IH]; intros p q H Hq; simpl in *; [reflexivity|].
  apply andb_prop in H as [H1 H2].
  assert (q && Q c = false) as ->.
  { destruct q; [|reflexivity]. rewrite (Hq eq_refl) in H1.
    simpl in *. destruct (Q c); [discriminate | reflexivity]. }
  f_equal. apply (IH (P c)); auto.
Qed.

Lemma sub_insert_adj_free (s : text) (p q : bool) :
  (p = true -> q = true) -> adj_free P Q p (sub_insert_aux P Q q s) = true.
Proof.
  revert p q. induction s as [|c r IH]; intros p q Hp; simpl; [reflexivity|].
  destruct (q && Q c) eqn:Hq; simpl.
  - rewrite (Q_not_space SPACE eq_refl), (P_not_space SPACE eq_refl), andb_false_r.
    simpl. apply IH. apply andb_prop in Hq as [_ Hq].
    rewrite (disjoint c Hq). discriminate.
  - rewrite IH by auto. rewrite andb_true_r.
    destruct p; [|reflexivity]. rewrite (Hp eq_refl) in Hq. simpl in *.
    rewrite Hq. reflexivity.
Qed.

Lemma adj_free_prefix (a b : text) (p : bool) :
  adj_free P Q p (a ++ b) = true -> adj_free P Q p a = true.
Proof.
  revert p. induction a as [|c r IH]; intros p H; simpl in *; [reflexivity|].
  apply andb_prop in H as [-> H]. simpl. exact (IH _ H).
Qed.

Lemma adj_free_lstrip (s : text) (p : bool) :
  adj_free P Q p s = true -> adj_free P Q false (lstrip s) = true.
Proof.
  revert p. induction s as [|c r IH]; intros p H; simpl in *; [reflexivity|].
  destruct (is_space c) eqn:Hc.
  - apply andb_prop in H as [_ H]. rewrite (P_not_space c Hc) in H. exact (IH _ H).
  - apply (adj_free_weaken p). exact H.
Qed.

Lemma adj_free_strip (s : text) :
  adj_free P Q false s = true -> adj_free P Q false (strip s) = true.
Proof.
  intros H. apply adj_free_lstrip in H. unfold strip.
  destruct (rstrip_decompose (lstrip s)) as [ws [Hd _]].
  rewrite Hd in H. exact (adj_free_prefix _ _ _ H).
Qed.

Lemma adj_free_sub_ws (s : text) (p prev : bool) :
  (prev = true -> p = false) ->
  adj_free P Q p s = true -> adj_free P Q p (sub_ws_aux prev s) = true.
Proof.
  revert p prev. induction s as [|c r IH]; intros p prev Hprev H; simpl in *; [reflexivity|].
  apply andb_prop in H as [H1 H2].
  destruct (is_space c) eqn:Hc.
  - rewrite (P_not_space c Hc) in H2. destruct prev.
    + rewrite (Hprev eq_refl). apply IH; auto.
    + simpl. rewrite (Q_not_space SPACE eq_refl), (P_not_space SPACE eq_refl), andb_false_r.
      simpl. apply IH; auto.
  - simpl. rewrite H1. simpl. apply IH; [discriminate | exact H2].
Qed.

(** Spaces inserted by another substitution create no adjacency. *)
Lemma adj_free_sub_insert (P' Q' : Z -> bool) (s : text) (p q : bool) :
  adj_free P Q p s = true -> adj_free P Q p (sub_insert_aux P' Q' q s) = true.
Proof.
  revert p q. induction s as [|c r IH]; intros p q H; simpl in *; [reflexivity|].
  apply andb_prop in H as [H1 H2].
  destruct (q && Q' c); simpl.
  - rewrite (Q_not_space SPACE eq_refl), (P_not_space SPACE eq_refl), andb_false_r.
    simpl. apply IH. exact H2.
  - rewrite H1. simpl. apply IH. exact H2.
Qed.
End Adjacent.

Lemma space_not_hindi_letter (c : Z) : is_space c = true -> is_hindi_letter c = false.
Proof. unfold is_space, is_hindi_letter, in_range. lia. Qed.

Lemma space_not_ascii_letter (c : Z) : is_space c = true -> is_ascii_letter c = false.
Proof. unfold is_space, is_ascii_letter, in_range. lia. Qed.

Lemma ascii_not_hindi_letter (c : Z) : is_ascii_letter c = true -> is_hindi_letter c = false.
Proof. unfold is_hindi_letter, is_ascii_letter, in_range. lia. Qed.

Lemma hindi_not_ascii_letter (c : Z) : is_hindi_letter c = true -> is_ascii_letter c = false.
Proof. unfold is_hindi_letter, is_ascii_letter, in_range. lia. Qed.

(** ** Idempotence of the minimal canonicalization, for any segmenter *)

Lemma optimize_minimal_idempotent (detect : text -> segments) (t0 : text) :
  optimize_minimal detect (optimize_minimal detect t0) = optimize_minimal detect t0.
Proof.
  set (t := sub_ws_runs (strip t0)).
  set (d := sub_class_delete is_bang_danda_question t).
  set (i1 := sub_insert_space is_hindi_letter is_ascii_letter d).
  set (i2 := sub_insert_space is_ascii_letter is_hindi_letter i1).
  set (u := sub_ws_runs (strip i2)).
  assert (E0 : optimize_minimal detect t0 =
               if is_mixed (hindi_ratio (detect t)) then u else t) by reflexivity.
  rewrite E0. clear E0.
  destruct (is_mixed (hindi_ratio (detect t))) eqn:Hmix.
  - assert (Hn : sub_ws_runs (strip u) = u) by apply normalize_idempotent.
    unfold optimize_minimal. rewrite Hn.
    destruct (is_mixed (hindi_ratio (detect u))); [|reflexivity].
    assert (Hd : sub_class_delete is_bang_danda_question u = u).
    { apply sub_class_delete_fixed. unfold u, sub_ws_runs.
      apply forallb_sub_ws; [reflexivity|]. apply forallb_strip.
      unfold i2, i1, sub_insert_space.
      do 2 (apply forallb_sub_insert; [reflexivity|]).
      apply sub_class_delete_clear. }
    assert (H1 : sub_insert_space is_hindi_letter is_ascii_letter u = u).
    { apply (adj_free_insert_fixed _ _ u false false); [|auto].
      unfold u, sub_ws_runs.
      apply adj_free_sub_ws;
        [apply space_not_hindi_letter | apply space_not_ascii_letter | discriminate |].
      apply adj_free_strip; [apply space_not_hindi_letter|].
      unfold i2, sub_insert_space.
      apply adj_free_sub_insert; [apply space_not_hindi_letter | apply space_not_ascii_letter|].
      unfold i1, sub_insert_space.
      apply sub_insert_adj_free;
        [apply space_not_hindi_letter | apply space_not_ascii_letter
        | apply ascii_not_hindi_letter | auto]. }
    assert (H2 : sub_insert_space is_ascii_letter is_hindi_letter u = u).
    { apply (adj_free_insert_fixed _ _ u false false); [|auto].
      unfold u, sub_ws_runs.
      apply adj_free_sub_ws;
        [apply space_not_ascii_letter | apply space_not_hindi_letter | discriminate |].
      apply adj_free_strip; [apply space_not_ascii_letter|].
      unfold i2, sub_insert_space.
      apply sub_insert_adj_free;
        [apply space_not_ascii_letter | apply space_not_hindi_letter
        | apply hindi_not_ascii_letter | auto]. }
    rewrite Hd, H1, H2. exact Hn.
  - assert (Hn : sub_ws_runs (strip t) = t) by apply normalize_idempotent.
    unfold optimize_minimal. rewrite Hn. fold t. rewrite Hmix. reflexivity.
Qed.

(** ** Claims about the segmenter and the canonicalization *)

(** C1, as the claim states it, fails on the realtime cloner: its segmenter
    tags a token without Devanagari and without ASCII letters ["unknown"]. *)
Lemma C1_realtime_unknown_tag :
  exists w tag,
    In (w, tag) (Realtime.detect_text_language_segments (of_string "aap 123")) /\
    tag <> hi /\ tag <> en.
Proof.
  exists (of_string "123"), unknown. split; [|split; discriminate].
  vm_compute. right. left. reflexivity.
Qed.

(** C1 (amended).  Both segmenters return one pair per token of [text.split()],
    in order; the tokens are non-empty, free of whitespace, and together they
    are the non-whitespace characters of the input.
    MultilingualVoiceCloner (and the WebSocket cloner, which inherits it)
    tags a token [hi] if it holds a Devanagari code point, else [en] if it
    holds an ASCII letter, else [hi]; the realtime cloner tags the last case
    [unknown].  An empty or all-whitespace input has no tokens: the sequence
    is empty and the guarded ratio is 0; the ratio always lies in [0, 1]. *)
Theorem C1_segmenter :
  forall (uni_alnum : Z -> bool) (t : text),
    let segs := Multilingual.detect_text_language_segments uni_alnum t in
    let segs_rt := Realtime.detect_text_language_segments t in
    (List.map fst segs = split t /\ List.map fst segs_rt = split t /\
     WebSocket.detect_text_language_segments uni_alnum t = segs) /\
    (Forall (fun w => w <> [] /\ forallb not_space w = true) (split t) /\
     concat (split t) = List.filter not_space t) /\
    (forall w tag, In (w, tag) segs ->
       tag = (if existsb is_devanagari w then hi
              else if existsb is_ascii_letter w then en else hi) /\
       (tag = hi \/ tag = en)) /\
    (forall w tag, In (w, tag) segs_rt ->
       tag = (if existsb is_devanagari w then hi
              else if existsb is_ascii_letter w then en else unknown)) /\
    (Multilingual.detect_text_language_segments uni_alnum [] = [] /\
     Realtime.detect_text_language_segments [] = [] /\
     hindi_ratio [] = 0%Q) /\
    (forallb is_space t = true -> segs = [] /\ segs_rt = []) /\
    ((0 <= hindi_ratio segs)%Q /\ (hindi_ratio segs <= 1)%Q) /\
    ((0 <= hindi_ratio segs_rt)%Q /\ (hindi_ratio segs_rt <= 1)%Q).
Proof.
  intros uni_alnum t segs segs_rt.
  assert (Hfst : forall f : text -> lang,
             List.map fst (List.map (fun w => (w, f w)) (split t)) = split t).
  { intros f. rewrite map_map. simpl. apply map_id. }
  split; [split; [apply Hfst | split; [apply Hfst | reflexivity]]|].
  split; [apply split_tokens|].
  split.
  { intros w tag H. subst segs. rewrite multilingual_detect_spec in H.
    apply in_map_iff in H as [w' [Hw _]]. inversion Hw; subst. unfold script_tag.
    split; [reflexivity|].
    destruct (existsb is_devanagari w); [left; reflexivity|].
    destruct (existsb is_ascii_letter w); [right | left]; reflexivity. }
  split.
  { intros w tag H. subst segs_rt. unfold Realtime.detect_text_language_segments in H.
    apply in_map_iff in H as [w' [Hw _]]. inversion Hw; subst. reflexivity. }
  split; [split; [|split]; reflexivity|].
  split.
  { intros Hblank. subst segs segs_rt.
    unfold Multilingual.detect_text_language_segments,
           Realtime.detect_text_language_segments.
    rewrite (split_blank t Hblank). split; reflexivity. }
  split; apply hindi_ratio_bounds.
Qed.

(** C2.  On ["Good morning aap kaise hain?"] the five tokens are all tagged
    [en], the ratio is 0 and the primary language is [en]; the question mark
    is replaced by a space, which the final whitespace collapse keeps: the
    result is the expected string followed by one space. *)
Theorem C2_scenario_A_keeps_trailing_space :
  forall uni_alnum : Z -> bool,
    let segs := Multilingual.detect_text_language_segments uni_alnum scenario_A in
    length segs = 5%nat /\ count_hi segs = 0%nat /\
    (hindi_ratio segs == 0)%Q /\
    primary_language (hindi_ratio segs) = en /\
    Multilingual.optimize_text_for_voice_cloning uni_alnum scenario_A =
      of_string "Good morning aap kaise hain" ++ [SPACE] /\
    Multilingual.optimize_text_for_voice_cloning uni_alnum scenario_A <>
      of_string "Good morning aap kaise hain".
Proof.
  intros uni_alnum segs. subst segs.
  split; [vm_compute; reflexivity|]. split; [vm_compute; reflexivity|].
  split; [vm_compute; reflexivity|]. split; [vm_compute; reflexivity|].
  split; [vm_compute; reflexivity|].
  vm_compute. discriminate.
Qed.

(** C4, as the claim states it, fails on MultilingualVoiceCloner: the first
    pass turns ["3.14"] into ["3. 14"], the second pass then removes the
    period that is now followed by a space. *)
Lemma C4_multilingual_not_idempotent :
  Multilingual.optimize_text_for_voice_cloning ascii_table pi_sentence =
    of_string "The value of pi is 3. 14 exactly" /\
  Multilingual.optimize_text_for_voice_cloning ascii_table
    (Multilingual.optimize_text_for_voice_cloning ascii_table pi_sentence) =
    of_string "The value of pi is 3 14 exactly" /\
  Multilingual.optimize_text_for_voice_cloning ascii_table
    (Multilingual.optimize_text_for_voice_cloning ascii_table pi_sentence) <>
  Multilingual.optimize_text_for_voice_cloning ascii_table pi_sentence.
Proof.
  split; [vm_compute; reflexivity|]. split; [vm_compute; reflexivity|].
  vm_compute. discriminate.
Qed.

(** C4 (amended).  The canonicalization of the WebSocket cloner and of the
    realtime cloner is idempotent on every input; that of
    MultilingualVoiceCloner is idempotent on inputs of at most 20 characters. *)
Theorem C4_idempotence :
  forall (uni_alnum : Z -> bool) (s : text),
    WebSocket.optimize_text_for_voice_cloning uni_alnum
      (WebSocket.optimize_text_for_voice_cloning uni_alnum s) =
    WebSocket.optimize_text_for_voice_cloning uni_alnum s /\
    Realtime.optimize_text_for_voice_cloning
      (Realtime.optimize_text_for_voice_cloning s) =
    Realtime.optimize_text_for_voice_cloning s /\
    ((length s <= 20)%nat ->
     Multilingual.optimize_text_for_voice_cloning uni_alnum
       (Multilingual.optimize_text_for_voice_cloning uni_alnum s) =
     Multilingual.optimize_text_for_voice_cloning uni_alnum s).
Proof.
  intros uni_alnum s. split; [|split].
  - apply optimize_minimal_idempotent.
  - apply optimize_minimal_idempotent.
  - intros Hlen. unfold Multilingual.optimize_text_for_voice_cloning.
    apply Nat.leb_le in Hlen. rewrite Hlen.
    assert (Hs : (length (strip s) <=? 20)%nat = true).
    { apply Nat.leb_le. apply Nat.leb_le in Hlen.
      pose proof (strip_length s). lia. }
    rewrite Hs. apply strip_idempotent.
Qed.

(** The amended C4 at a long sentence (WebSocket) and a short text (multilingual). *)
Lemma C4_idempotence_witness :
  WebSocket.optimize_text_for_voice_cloning ascii_table
    (WebSocket.optimize_text_for_voice_cloning ascii_table pi_sentence) =
  WebSocket.optimize_text_for_voice_cloning ascii_table pi_sentence /\
  Multilingual.optimize_text_for_voice_cloning ascii_table
    (Multilingual.optimize_text_for_voice_cloning ascii_table double_spaced) =
  Multilingual.optimize_text_for_voice_cloning ascii_table double_spaced.
Proof.
  split.
  - exact (proj1 (C4_idempotence ascii_table pi_sentence)).
  - apply (proj2 (proj2 (C4_idempotence ascii_table double_spaced))).
    vm_compute. lia.
Defined.

(** C5, as the claim states it, fails: a short input is returned with its
    inner whitespace runs untouched, not collapsed. *)
Lemma C5_short_text_not_collapsed :
  (length double_spaced <= 20)%nat /\
  Multilingual.optimize_text_for_voice_cloning ascii_table double_spaced = double_spaced /\
  Multilingual.optimize_text_for_voice_cloning ascii_table double_spaced <>
    sub_ws_runs (strip double_spaced).
Proof.
  split; [vm_compute; lia|]. split; [vm_compute; reflexivity|].
  vm_compute. discriminate.
Qed.

(** C5 (amended).  An input of at most 20 characters is returned with its
    leading and trailing whitespace removed and nothing else changed: no
    whitespace collapse, no punctuation stripping, no ratio-dependent or
    spacing fix. *)
Theorem C5_short_text_only_stripped :
  forall (uni_alnum : Z -> bool) (s : text),
    (length s <= 20)%nat ->
    Multilingual.optimize_text_for_voice_cloning uni_alnum s = strip s /\
    exists pre suf,
      s = pre ++ Multilingual.optimize_text_for_voice_cloning uni_alnum s ++ suf /\
      forallb is_space pre = true /\ forallb is_space suf = true /\
      starts_clean (Multilingual.optimize_text_for_voice_cloning uni_alnum s) /\
      ends_clean (Multilingual.optimize_text_for_voice_cloning uni_alnum s).
Proof.
  intros uni_alnum s Hlen.
  assert (H : Multilingual.optimize_text_for_voice_cloning uni_alnum s = strip s).
  { unfold Multilingual.optimize_text_for_voice_cloning.
    apply Nat.leb_le in Hlen. rewrite Hlen. reflexivity. }
  rewrite H. split; [reflexivity|].
  destruct (strip_decompose s) as [pre [suf [Hd [Hp Hs]]]].
  exists pre, suf. repeat split; auto using strip_starts_clean, strip_ends_clean.
Qed.

(** The amended C5 at a ten-character input. *)
Lemma C5_short_text_witness :
  Multilingual.optimize_text_for_voice_cloning ascii_table (of_string " a  b, c! ") =
  of_string "a  b, c!".
Proof.
  destruct (C5_short_text_only_stripped ascii_table (of_string " a  b, c! ")) as [H _].
  - vm_compute. lia.
  - rewrite H. reflexivity.
Defined.

(** ** Claims about the reference audio and the sanitizers *)

Lemma fold_qmax_zeros (n : nat) : fold_left qmax (repeat 0%Q n) 0%Q = 0%Q.
Proof. induction n as [|n IH]; simpl; [reflexivity | exact IH]. Qed.

Lemma np_abs_zeros (n : nat) : np_abs (repeat 0%Q n) = repeat 0%Q n.
Proof.
  unfold np_abs. induction n as [|n IH]; simpl; [reflexivity|].
  rewrite IH. reflexivity.
Qed.

Lemma peak_of_silence (n : nat) : np_max (np_abs (repeat 0%Q (S n))) = Some 0%Q.
Proof. rewrite np_abs_zeros. simpl. rewrite fold_qmax_zeros. reflexivity. Qed.

Lemma peak_normalize_silence (level : Q) (n : nat) :
  peak_normalize level (repeat 0%Q (S n)) = Some (repeat 0%Q (S n)).
Proof. unfold peak_normalize. rewrite peak_of_silence. reflexivity. Qed.

(** C6.  A silent reference of one or more samples has peak 0, the test
    [peak > 0] fails, nothing is divided and the waveform goes on unchanged:
    to the speaker file in the WebSocket and realtime cloners, to the
    silence trim in [preprocess_audio]. *)
Theorem C6_silent_reference_unchanged :
  forall (L : NumLib) (n : nat),
    let silent := repeat 0%Q (S n) in
    np_max (np_abs silent) = Some 0%Q /\
    normalize_reference silent = Some silent /\
    Multilingual.preprocess_core L (silent, sample_rate) = librosa_trim L silent 30.
Proof.
  intros L n silent. subst silent. split; [apply peak_of_silence|]. split.
  - apply peak_normalize_silence.
  - unfold Multilingual.preprocess_core. rewrite Z.eqb_refl.
    rewrite peak_normalize_silence. reflexivity.
Qed.

(** C10.  Python's [None] and a zero-length array are returned as they are by
    [_minimal_audio_cleanup], before its [try] is entered. *)
Theorem C10_cleanup_of_nothing :
  forall L : NumLib,
    WebSocket._minimal_audio_cleanup L None = None /\
    WebSocket._minimal_audio_cleanup L (Some []) = Some [] /\
    Realtime._minimal_audio_cleanup L None = None /\
    Realtime._minimal_audio_cleanup L (Some []) = Some [].
Proof. intros L. repeat split. Qed.

(** C9, as the claim states it, fails: on a two-sample waveform the filter
    raises (the input is not longer than the padding) after the mean has been
    subtracted, and the [except] clause returns the shifted samples. *)
Lemma C9_clean_returns_shifted_audio :
  filtfilt_highpass lenient_lib 85 (remove_dc two_samples) = None /\
  Multilingual._clean_audio_artifacts lenient_lib two_samples = [(1 # 2)%Q; (-1 # 2)%Q] /\
  Multilingual._clean_audio_artifacts lenient_lib two_samples <> two_samples.
Proof.
  split; [reflexivity|]. split; [reflexivity|].
  vm_compute. discriminate.
Qed.

Lemma try_except_raised (body : Try wave) (handler : wave -> wave) (audio at_raise : wave) :
  body audio = (None, at_raise) -> try_except body handler audio = handler at_raise.
Proof. unfold try_except. intros ->. reflexivity. Qed.

Lemma try_except_raised_id (body : Try wave) (audio at_raise : wave) :
  body audio = (None, at_raise) -> try_except body (fun a => a) audio = at_raise.
Proof. apply (try_except_raised body (fun a => a)). Qed.

Lemma py_range_empty (stop : Z) (step : nat) : stop <= 0 -> py_range stop step = [].
Proof.
  intros H. unfold py_range. apply Z.leb_le in H. rewrite H. reflexivity.
Qed.

Lemma frame_energy_short (a : wave) :
  (length a <= Multilingual.window_size)%nat -> np_max (Multilingual.frame_energy a) = None.
Proof.
  intros H. unfold Multilingual.frame_energy. rewrite py_range_empty by lia. reflexivity.
Qed.

(** C9 (amended).  When a step raises, each sanitizer returns the working
    copy of the waveform as it stood at that step, which is the raw input
    only if nothing had been assigned before:
    - [_clean_audio_artifacts] returns the input minus its mean when the
      high-pass filter raises, and the filtered waveform when there is no
      energy frame to take the maximum of;
    - [_minimal_final_cleanup] returns its centred and normalized working
      copy, normalized to a peak of 0.95 once more, when the trim raises;
    - the WebSocket [_minimal_audio_cleanup] returns the raw input when the
      trim, its first step, raises, and the trimmed waveform when the trim
      leaves nothing to take the peak of. *)
Theorem C9_fallback_returns_working_copy :
  forall (L : NumLib) (audio : wave),
    (filtfilt_highpass L 85 (remove_dc audio) = None ->
     Multilingual._clean_audio_artifacts L audio = remove_dc audio) /\
    (forall filtered,
       filtfilt_highpass L 85 (remove_dc audio) = Some filtered ->
       (length filtered <= Multilingual.window_size)%nat ->
       Multilingual._clean_audio_artifacts L audio = filtered) /\
    (audio <> [] ->
     librosa_trim L (centred_and_normalized audio) 25 = None ->
     Multilingual._minimal_final_cleanup L audio =
       Multilingual.minimal_final_handler (centred_and_normalized audio)) /\
    (audio <> [] ->
     librosa_trim L audio 20 = None ->
     WebSocket._minimal_audio_cleanup L (Some audio) = Some audio) /\
    (audio <> [] ->
     librosa_trim L audio 20 = Some [] ->
     WebSocket._minimal_audio_cleanup L (Some audio) = Some []).
Proof.
  intros L audio. split; [|split; [|split; [|split]]].
  - intros H. unfold Multilingual._clean_audio_artifacts.
    apply try_except_raised_id.
    unfold Multilingual.clean_body, bind, get_audio, set_audio, call.
    rewrite H. reflexivity.
  - intros filtered H Hshort. unfold Multilingual._clean_audio_artifacts.
    apply try_except_raised_id.
    unfold Multilingual.clean_body, bind, get_audio, set_audio, call.
    rewrite H, (frame_energy_short _ Hshort). reflexivity.
  - intros Hne H. unfold Multilingual._minimal_final_cleanup.
    apply (try_except_raised _ Multilingual.minimal_final_handler).
    unfold Multilingual.minimal_final_body, bind, get_audio, set_audio, call, ret.
    destruct audio as [|x r]; [congruence|].
    unfold centred_and_normalized in H.
    assert (Hlen : remove_dc (x :: r) <> []) by (unfold remove_dc; simpl; discriminate).
    destruct (np_max (np_abs (remove_dc (x :: r)))) as [peak|] eqn:Hpeak.
    + unfold centred_and_normalized. rewrite Hpeak.
      destruct (Qltb 0 peak); rewrite H; reflexivity.
    + unfold remove_dc in Hpeak. simpl in Hpeak. discriminate.
  - intros Hne H. destruct audio as [|x r]; [congruence|].
    unfold WebSocket._minimal_audio_cleanup. f_equal.
    apply try_except_raised_id.
    unfold WebSocket.minimal_cleanup_body, bind, get_audio, set_audio, call.
    rewrite H. reflexivity.
  - intros Hne H. destruct audio as [|x r]; [congruence|].
    unfold WebSocket._minimal_audio_cleanup. f_equal.
    apply try_except_raised_id.
    unfold WebSocket.minimal_cleanup_body, bind, get_audio, set_audio, call.
    rewrite H. reflexivity.
Qed.

(** Whatever the library does on longer inputs, a waveform of at most nine
    samples comes back with its mean subtracted and nothing else done. *)
Lemma clean_audio_artifacts_short (L : NumLib) (audio : wave) :
  (length audio <= padlen)%nat ->
  Multilingual._clean_audio_artifacts L audio = remove_dc audio.
Proof.
  intros Hlen. unfold Multilingual._clean_audio_artifacts.
  apply try_except_raised_id.
  unfold Multilingual.clean_body, bind, get_audio, set_audio, call, filtfilt_highpass.
  assert (Hl : (length (remove_dc audio) <=? padlen)%nat = true).
  { apply Nat.leb_le. unfold remove_dc. rewrite length_map. exact Hlen. }
  rewrite Hl. reflexivity.
Qed.

(** The amended C9 at a two-sample waveform and a library whose routines raise. *)
Lemma C9_fallback_witness :
  Multilingual._clean_audio_artifacts raising_lib two_samples = remove_dc two_samples /\
  WebSocket._minimal_audio_cleanup raising_lib (Some two_samples) = Some two_samples.
Proof.
  pose proof (C9_fallback_returns_working_copy raising_lib two_samples) as [H1 [_ [_ [H4 _]]]].
  split.
  - apply H1. reflexivity.
  - apply H4; [discriminate | reflexivity].
Defined.

(** C3.  The claim fails on [_final_audio_cleanup].  For the one-sample
    waveform [1.0481444332998997] the filter is skipped, the peak is above
    the limit, and the sample is multiplied by the rounded quotient
    [0.95 / peak]: the product is 0.9500000000000001, a finite sample above
    95/100, and nothing after the multiplication brings it back. *)
Theorem C3_scaled_peak_exceeds_limit :
  Binary64._final_audio_cleanup Binary64.one_sample_lib [Binary64.loud_sample] =
    [Binary64.above_limit] /\
  PrimFloat.ltb Binary64.limit Binary64.above_limit = true /\
  forallb Binary64.within_limit
    (Binary64._final_audio_cleanup Binary64.one_sample_lib [Binary64.loud_sample]) = false.
Proof.
  split; [vm_compute; reflexivity|]. split; vm_compute; reflexivity.
Qed.

(** ** Claims about the synthesis runs *)

Lemma only_unsplit_refl (w : world) : only_unsplit_calls w w.
Proof. exists []. rewrite app_nil_r. split; [reflexivity | constructor]. Qed.

Lemma only_unsplit_trans (w1 w2 w3 : world) :
  only_unsplit_calls w1 w2 -> only_unsplit_calls w2 w3 -> only_unsplit_calls w1 w3.
Proof.
  intros [n1 [H1 F1]] [n2 [H2 F2]]. exists (n1 ++ n2). split.
  - rewrite H2, H1, app_assoc. reflexivity.
  - apply Forall_app. split; assumption.
Qed.

Lemma only_unsplit_same_calls (w w' : world) :
  tts_calls w' = tts_calls w -> only_unsplit_calls w w'.
Proof. intros H. exists []. rewrite app_nil_r. split; [exact H | constructor]. Qed.

Lemma unsplit_rret {A} (x : A) : unsplit (rret x).
Proof. intros w. apply only_unsplit_refl. Qed.

Lemma unsplit_rraise {A} (e : exn) : unsplit (@rraise A e).
Proof. intros w. apply only_unsplit_refl. Qed.

Lemma unsplit_rbind {A B} (m : Run A) (k : A -> Run B) :
  unsplit m -> (forall x, unsplit (k x)) -> unsplit (rbind m k).
Proof.
  intros Hm Hk w. unfold rbind. specialize (Hm w).
  destruct (m w) as [[x|e] w1]; simpl in *; [|exact Hm].
  apply (only_unsplit_trans _ w1); [exact Hm | apply Hk].
Qed.

Lemma unsplit_of_option {A} (e : exn) (o : option A) : unsplit (of_option e o).
Proof. destruct o; [apply unsplit_rret | apply unsplit_rraise]. Qed.

Lemma unsplit_ensure (E : Engine) : unsplit (_ensure_model_loaded E).
Proof.
  intros w. unfold _ensure_model_loaded.
  destruct (model_loads E); apply only_unsplit_refl.
Qed.

Lemma unsplit_makedirs (E : Engine) (path : string) : unsplit (makedirs_for E path).
Proof.
  intros w. unfold makedirs_for.
  destruct (can_mkdir E path); apply only_unsplit_refl.
Qed.

Lemma unsplit_sf_write (E : Engine) (path : string) (f : file) : unsplit (sf_write E path f).
Proof.
  intros w. unfold sf_write.
  destruct (can_write E path); apply only_unsplit_same_calls; reflexivity.
Qed.

Lemma unsplit_tts (E : Engine) (c : tts_call) :
  split_sentences c = Some false -> unsplit (tts E c).
Proof.
  intros Hc w. unfold tts.
  assert (H : only_unsplit_calls w
                {| files := files w; tts_calls := tts_calls w ++ [c] |}).
  { exists [c]. split; [reflexivity | repeat constructor; exact Hc]. }
  destruct (synthesize E (length (tts_calls w)) c); exact H.
Qed.

Lemma unsplit_try_finally {A} (body : Run A) (path : string) :
  unsplit body -> unsplit (try_finally body (remove_if_exists path)).
Proof.
  intros Hb w. unfold try_finally. specialize (Hb w).
  destruct (body w) as [r w1]. exact Hb.
Qed.

Lemma unsplit_synthesize_once (E : Engine) (optimized_text : text) (primary : lang) :
  unsplit (Multilingual.synthesize_once E optimized_text primary).
Proof.
  unfold Multilingual.synthesize_once.
  destruct (has_inner_model E); [|apply unsplit_tts; reflexivity].
  intros w.
  pose proof (unsplit_tts E (Multilingual.tts_params optimized_text primary true) eq_refl w) as H1.
  destruct (tts E (Multilingual.tts_params optimized_text primary true) w) as [[g|e] w1];
    [exact H1|].
  destruct e; try exact H1.
  apply (only_unsplit_trans _ w1); [exact H1|].
  apply unsplit_tts. reflexivity.
Qed.

Lemma unsplit_run_loop (L : NumLib) (E : Engine) (cb : option (nat -> bool))
    (chunks : list text) (i : nat) (temp : string) (primary : lang) (w : world) :
  only_unsplit_calls w (snd (Realtime.run_loop L E cb chunks i temp primary w)).
Proof.
  revert i. induction chunks as [|chunk rest IH]; intros i; simpl.
  - apply only_unsplit_same_calls. reflexivity.
  - destruct (Realtime.is_nil (strip chunk)); [apply IH|].
    destruct (negb _); [apply only_unsplit_same_calls; reflexivity|].
    match goal with |- context [tts E ?c w] =>
      pose proof (unsplit_tts E c eq_refl w) as H; destruct (tts E c w) as [[g|e] w1]
    end; simpl in *; exact H.
Qed.

Lemma unsplit_prologue (E : Engine) (t : text) (vf : voice_features) :
  unsplit (Realtime.prologue E t vf).
Proof.
  unfold Realtime.prologue.
  apply unsplit_rbind; [apply unsplit_ensure | intros _].
  apply unsplit_rbind; [apply unsplit_of_option | intros reference_audio].
  apply unsplit_rbind; [apply unsplit_sf_write | intros _].
  apply unsplit_rret.
Qed.

Lemma unsplit_anext (L : NumLib) (E : Engine) (cb : option (nat -> bool))
    (g : Realtime.gen_state) (w : world) :
  only_unsplit_calls w (snd (Realtime.anext L E cb g w)).
Proof.
  destruct g as [t vf|rest i temp primary|]; simpl.
  - pose proof (unsplit_prologue E t vf w) as H.
    destruct (Realtime.prologue E t vf w) as [[[[chunks temp] primary]|e] w1];
      simpl in *; [|exact H].
    apply (only_unsplit_trans _ w1); [exact H | apply unsplit_run_loop].
  - apply unsplit_run_loop.
  - apply only_unsplit_refl.
Qed.

Lemma unsplit_consume (L : NumLib) (E : Engine) (cb : option (nat -> bool))
    (k : nat) (g : Realtime.gen_state) (w : world) :
  only_unsplit_calls w (snd (Realtime.consume L E cb k g w)).
Proof.
  revert g w. induction k as [|k IH]; intros g w; simpl.
  - destruct g; simpl; apply only_unsplit_same_calls; reflexivity.
  - pose proof (unsplit_anext L E cb g w) as H.
    destruct (Realtime.anext L E cb g w) as [[d g1] w1]. simpl in H.
    destruct d as [pcm| |e]; simpl; [|exact H|exact H].
    specialize (IH g1 w1).
    destruct (Realtime.consume L E cb k g1 w1) as [[got err] w2]. simpl in *.
    apply (only_unsplit_trans _ w1); assumption.
Qed.

(** The three cloners of the application pass [split_sentences=False] with
    every [tts.tts] call that a run adds to the call log: the single-shot run
    of MultilingualVoiceCloner (with or without the sampling parameters, and
    in its retry), the WebSocket run, and every chunk of the realtime stream,
    however many chunks the consumer takes and however the run ends. *)
Theorem cited_runs_never_split_sentences :
  forall (uni_alnum : Z -> bool) (L : NumLib) (E : Engine)
         (progress_callback : option (nat -> bool))
         (t : text) (vf : voice_features) (output_path : string)
         (enhance_quality : bool) (k : nat) (w : world),
    only_unsplit_calls w
      (snd (Multilingual.clone_voice_multilingual uni_alnum L E t vf output_path
              enhance_quality w)) /\
    only_unsplit_calls w
      (snd (WebSocket.clone_voice_multilingual uni_alnum L E t vf output_path
              enhance_quality w)) /\
    only_unsplit_calls w
      (snd (Realtime.consume L E progress_callback k
              (Realtime.clone_voice_realtime t vf) w)).
Proof.
  intros. split; [|split].
  - apply (unsplit_rbind (_ensure_model_loaded E)); [apply unsplit_ensure | intros _].
    apply unsplit_rbind; [apply unsplit_of_option | intros ratio].
    apply unsplit_rbind; [apply unsplit_makedirs | intros _].
    apply unsplit_rbind; [apply unsplit_sf_write | intros _].
    apply unsplit_rbind;
      [apply unsplit_try_finally, unsplit_synthesize_once | intros generated].
    apply unsplit_rbind; [apply unsplit_sf_write | intros _].
    apply unsplit_rret.
  - apply (unsplit_rbind (_ensure_model_loaded E)); [apply unsplit_ensure | intros _].
    apply unsplit_rbind; [apply unsplit_of_option | intros reference_audio].
    apply unsplit_rbind; [apply unsplit_makedirs | intros _].
    apply unsplit_rbind; [apply unsplit_sf_write | intros _].
    apply unsplit_rbind;
      [apply unsplit_try_finally, unsplit_tts; reflexivity | intros generated].
    apply unsplit_rbind; [apply unsplit_sf_write | intros _].
    apply unsplit_rret.
  - apply unsplit_consume.
Qed.

(** C7.  The claim fails on two synthesis paths.  VoiceClonerSimple, the
    cloner that the server falls back to, and FixedHinglishCloner of the
    quality script call the engine without [split_sentences], which leaves
    the engine's default in force.  On ["Hello there. General Kenobi!"] both
    runs return the output path, and the one call of each carries no
    [split_sentences]; the call that the WebSocket cloner makes on the same
    input carries [split_sentences=False]. *)
Theorem C7_other_cloners_omit_split_sentences :
  let simple := Simple.clone_voice steady_engine None two_sentences demo_voice
                  "out/a.wav" empty_world in
  let fixed := FixedQuality.clone_voice_multilingual ascii_table lenient_lib steady_engine
                 two_sentences demo_voice "out/a.wav" true empty_world in
  let websocket := WebSocket.clone_voice_multilingual ascii_table lenient_lib steady_engine
                     two_sentences demo_voice "out/a.wav" true empty_world in
  (fst simple = Ok "out/a.wav" /\
   List.map split_sentences (tts_calls (snd simple)) = [None] /\
   ~ only_unsplit_calls empty_world (snd simple)) /\
  (fst fixed = Ok "out/a.wav" /\
   List.map split_sentences (tts_calls (snd fixed)) = [None] /\
   ~ only_unsplit_calls empty_world (snd fixed)) /\
  List.map split_sentences (tts_calls (snd websocket)) = [Some false].
Proof.
  cbv zeta. split; [|split].
  - split; [vm_compute; reflexivity|]. split; [vm_compute; reflexivity|].
    intros [new [Heq Hall]]. vm_compute in Heq. subst new.
    inversion Hall as [|c l Hc _]. discriminate Hc.
  - split; [vm_compute; reflexivity|]. split; [vm_compute; reflexivity|].
    intros [new [Heq Hall]]. vm_compute in Heq. subst new.
    inversion Hall as [|c l Hc _]. discriminate Hc.
  - vm_compute. reflexivity.
Qed.


Lemma no_speaker_absent (path : string) (w : world) :
  files w !! path = None -> no_speaker_file path w.
Proof. intros H ref. rewrite H. discriminate. Qed.

Lemma no_speaker_after_cleanup (path : string) (w : world) :
  no_speaker_file path (remove_if_exists path w).
Proof. apply no_speaker_absent. simpl. apply lookup_delete_eq. Qed.

(** Writing generated audio never puts a speaker reference anywhere. *)
Lemma no_speaker_write_generated (E : Engine) (path out : string) (g : wave) (w : world) :
  no_speaker_file path w ->
  no_speaker_file path (snd (sf_write E out (GeneratedAudio g) w)).
Proof.
  intros H. unfold sf_write. destruct (can_write E out); simpl; [|exact H].
  intros ref. simpl. destruct (decide (out = path)) as [->|Hne].
  - rewrite lookup_insert_eq. discriminate.
  - rewrite lookup_insert_ne by exact Hne. apply H.
Qed.

Lemma no_speaker_try_finally {A} (body : Run A) (path : string) (w : world) :
  no_speaker_file path (snd (try_finally body (remove_if_exists path) w)).
Proof.
  unfold try_finally. destruct (body w) as [r w1]. simpl.
  apply no_speaker_after_cleanup.
Qed.

(** The part of a single-shot run that follows the speaker-file write:
    synthesis under [try ... finally], then the output write. *)
Lemma no_speaker_after_synthesis (E : Engine) (path out : string)
    (body : Run wave) (post : wave -> wave) (w : world) :
  no_speaker_file path
    (snd ((generated <~ try_finally body (remove_if_exists path) ;;
           sf_write E out (GeneratedAudio (post generated)) ~~ rret out) w)).
Proof.
  unfold rbind.
  pose proof (no_speaker_try_finally body path w) as H.
  destruct (try_finally body (remove_if_exists path) w) as [[g|e] w1]; simpl in *;
    [|exact H].
  pose proof (no_speaker_write_generated E path out (post g) w1 H) as H2.
  destruct (sf_write E out (GeneratedAudio (post g)) w1) as [[[]|e] w2]; exact H2.
Qed.

Lemma multilingual_run_removes_speaker_file (uni_alnum : Z -> bool) (L : NumLib)
    (E : Engine) (t : text) (vf : voice_features) (out : string) (enh : bool) (w : world) :
  no_speaker_file Multilingual.temp_speaker_path w ->
  no_speaker_file Multilingual.temp_speaker_path
    (snd (Multilingual.clone_voice_multilingual uni_alnum L E t vf out enh w)).
Proof.
  intros H. unfold Multilingual.clone_voice_multilingual.
  unfold rbind at 1. unfold _ensure_model_loaded.
  destruct (model_loads E); [|exact H].
  unfold rbind at 1.
  destruct (hindi_ratio_unguarded _) as [ratio|]; simpl; [|exact H].
  unfold rbind at 1. unfold makedirs_for.
  destruct (can_mkdir E out); [|exact H].
  unfold rbind at 1. unfold sf_write at 1.
  destruct (can_write E Multilingual.temp_speaker_path); [|exact H].
  apply (no_speaker_after_synthesis E _ out _
           (fun g => Multilingual._minimal_final_cleanup L
              (if enh && (length (Multilingual.optimize_text_for_voice_cloning uni_alnum t) <? 100)%nat
               then Multilingual._enhance_audio_quality L (Multilingual._clean_audio_artifacts L g) vf
               else Multilingual._clean_audio_artifacts L g))).
Qed.

Lemma websocket_run_removes_speaker_file (uni_alnum : Z -> bool) (L : NumLib)
    (E : Engine) (t : text) (vf : voice_features) (out : string) (enh : bool) (w : world) :
  no_speaker_file WebSocket.temp_speaker_path w ->
  no_speaker_file WebSocket.temp_speaker_path
    (snd (WebSocket.clone_voice_multilingual uni_alnum L E t vf out enh w)).
Proof.
  intros H. unfold WebSocket.clone_voice_multilingual.
  unfold rbind at 1. unfold _ensure_model_loaded.
  destruct (model_loads E); [|exact H].
  unfold rbind at 1.
  destruct (normalize_reference _) as [reference_audio|]; simpl; [|exact H].
  unfold rbind at 1. unfold makedirs_for.
  destruct (can_mkdir E out); [|exact H].
  unfold rbind at 1. unfold sf_write at 1.
  destruct (can_write E WebSocket.temp_speaker_path); [|exact H].
  apply (no_speaker_after_synthesis E _ out _
           (fun g => default g (WebSocket._minimal_audio_cleanup L (Some g)))).
Qed.

Lemma run_loop_inv (L : NumLib) (E : Engine) (cb : option (nat -> bool))
    (chunks : list text) (i : nat) (temp : string) (primary : lang) (w : world) :
  pull_post E temp (Realtime.run_loop L E cb chunks i temp primary w).
Proof.
  revert i. induction chunks as [|chunk rest IH]; intros i; simpl.
  - split; [apply no_speaker_after_cleanup | reflexivity].
  - destruct (Realtime.is_nil (strip chunk)); [apply IH|].
    destruct (negb _); [split; [apply no_speaker_after_cleanup | reflexivity]|].
    match goal with |- context [tts E ?c w] => destruct (tts E c w) as [[g|e] w1] end;
      simpl; split; auto using no_speaker_after_cleanup.
Qed.

Lemma anext_inv (L : NumLib) (E : Engine) (cb : option (nat -> bool))
    (temp : string) (g : Realtime.gen_state) (w : world) :
  stream_inv E temp g w -> pull_post E temp (Realtime.anext L E cb g w).
Proof.
  destruct g as [t vf|rest i temp' primary|]; simpl.
  - intros [Htemp H]. unfold Realtime.prologue.
    unfold rbind at 1. unfold _ensure_model_loaded.
    destruct (model_loads E); [|split; [exact H | reflexivity]].
    unfold rbind at 1.
    destruct (normalize_reference _) as [reference_audio|]; simpl;
      [|split; [exact H | reflexivity]].
    unfold rbind at 1. unfold sf_write.
    destruct (can_write E (Realtime.temp_speaker_path E t)); simpl;
      [|split; [exact H | reflexivity]].
    rewrite Htemp. apply run_loop_inv.
  - intros ->. apply run_loop_inv.
  - auto.
Qed.

Lemma consume_removes_speaker_file (L : NumLib) (E : Engine) (cb : option (nat -> bool))
    (temp : string) (k : nat) (g : Realtime.gen_state) (w : world) :
  stream_inv E temp g w ->
  no_speaker_file temp (snd (Realtime.consume L E cb k g w)).
Proof.
  revert g w. induction k as [|k IH]; intros g w H; simpl.
  - destruct g as [t vf|rest i temp' primary|]; simpl in *.
    + apply H.
    + subst temp'. apply no_speaker_after_cleanup.
    + exact H.
  - pose proof (anext_inv L E cb temp g w H) as H1.
    destruct (Realtime.anext L E cb g w) as [[d g1] w1].
    destruct H1 as [H1 Hd].
    destruct d as [pcm| |e]; simpl.
    + specialize (IH g1 w1 H1).
      destruct (Realtime.consume L E cb k g1 w1) as [[got err] w2]. exact IH.
    + subst g1. exact H1.
    + subst g1. exact H1.
Qed.

(** A run of one of the three cloners of the application that starts
    without a speaker reference at its transient path ends without one,
    whatever the engine, the file writes, the progress callback and the
    consumer do: the single-shot runs remove the file in the [finally] of
    the synthesis call, the stream removes it when the loop ends, when a
    chunk fails, and when the consumer closes it after any number of chunks. *)
Theorem cited_runs_remove_speaker_file :
  forall (uni_alnum : Z -> bool) (L : NumLib) (E : Engine)
         (progress_callback : option (nat -> bool))
         (t : text) (vf : voice_features) (output_path : string)
         (enhance_quality : bool) (k : nat) (w : world),
    (no_speaker_file Multilingual.temp_speaker_path w ->
     no_speaker_file Multilingual.temp_speaker_path
       (snd (Multilingual.clone_voice_multilingual uni_alnum L E t vf output_path
               enhance_quality w))) /\
    (no_speaker_file WebSocket.temp_speaker_path w ->
     no_speaker_file WebSocket.temp_speaker_path
       (snd (WebSocket.clone_voice_multilingual uni_alnum L E t vf output_path
               enhance_quality w))) /\
    (no_speaker_file (Realtime.temp_speaker_path E t) w ->
     no_speaker_file (Realtime.temp_speaker_path E t)
       (snd (Realtime.consume L E progress_callback k
               (Realtime.clone_voice_realtime t vf) w))).
Proof.
  intros. split; [|split].
  - apply multilingual_run_removes_speaker_file.
  - apply websocket_run_removes_speaker_file.
  - intros H. apply consume_removes_speaker_file. split; [reflexivity | exact H].
Qed.

(** ** Two concrete runs *)

(** The failing single-shot run makes the call with the sampling parameters,
    retries without them, raises, and leaves no file behind. *)
Example failing_run_trace :
  let '(r, w) := Multilingual.clone_voice_multilingual ascii_table raising_lib
                   failing_engine scenario_A demo_voice "out/a.wav" true empty_world in
  r = Raise SynthesisError /\
  List.map sampling_extras (tts_calls w) = [true; false] /\
  List.map split_sentences (tts_calls w) = [Some false; Some false] /\
  files w = ∅.
Proof.
  vm_compute. repeat split.
Qed.

(** The stream over two sentences: two calls, one per sentence, two chunks,
    and no file left when the loop ends. *)
Example stream_run_to_the_end :
  let '(chunks, err, w) :=
    Realtime.consume raising_lib steady_engine None 5
      (Realtime.clone_voice_realtime two_sentences demo_voice) empty_world in
  chunks = [[0; 16383; 0]; [0; 16383; 0]] /\
  err = None /\
  List.map call_text (tts_calls w) = [of_string "Hello there"; of_string "General Kenobi"] /\
  List.map split_sentences (tts_calls w) = [Some false; Some false] /\
  files w = ∅.
Proof.
  vm_compute. repeat split.
Qed.

(** Between two chunks the speaker file is there; closing the stream at that
    point removes it, and the second sentence is never synthesized. *)
Example stream_closed_after_one_chunk :
  let temp := Realtime.temp_speaker_path steady_engine two_sentences in
  let '(_, g, w) :=
    Realtime.anext raising_lib steady_engine None
      (Realtime.clone_voice_realtime two_sentences demo_voice) empty_world in
  temp = "temp_speaker_realtime_4242.wav" /\
  files w !! temp = Some (SpeakerReference [(1 # 2) / (1 # 2) * (4 # 5); (-1 # 4) / (1 # 2) * (4 # 5)]%Q) /\
  (exists rest i primary, g = Realtime.Suspended rest i temp primary) /\
  files (snd (Realtime.aclose g w)) !! temp = None /\
  length (tts_calls (snd (Realtime.consume raising_lib steady_engine None 1
            (Realtime.clone_voice_realtime two_sentences demo_voice) empty_world))) = 1%nat.
Proof.
  vm_compute. repeat split. eexists _, _, _. reflexivity.
Qed.

Lemma empty_world_has_no_speaker (path : string) : no_speaker_file path empty_world.
Proof. apply no_speaker_absent. apply lookup_empty. Qed.

(** The lemma at a failing single-shot run and at a stream closed after one chunk,
    both started in a world without files. *)
Lemma cited_runs_remove_speaker_file_witness :
  no_speaker_file Multilingual.temp_speaker_path
    (snd (Multilingual.clone_voice_multilingual ascii_table raising_lib failing_engine
            scenario_A demo_voice "out/a.wav" true empty_world)) /\
  no_speaker_file (Realtime.temp_speaker_path steady_engine two_sentences)
    (snd (Realtime.consume raising_lib steady_engine None 1
            (Realtime.clone_voice_realtime two_sentences demo_voice) empty_world)).
Proof.
  pose proof (cited_runs_remove_speaker_file ascii_table raising_lib failing_engine None
                scenario_A demo_voice "out/a.wav" true 1 empty_world) as [H1 _].
  pose proof (cited_runs_remove_speaker_file ascii_table raising_lib steady_engine None
                two_sentences demo_voice "out/a.wav" true 1 empty_world) as [_ [_ H3]].
  split; [apply H1 | apply H3]; apply empty_world_has_no_speaker.
Defined.


(** C8.  The claim fails on VoiceClonerSimple, the cloner that the server
    falls back to: it removes [temp_speaker.wav] after [tts_to_file] has
    returned, outside any [finally].  With an engine that raises, the run
    raises the engine's error and the speaker file is still there; the run of
    the WebSocket cloner on the same input leaves none. *)
Theorem C8_simple_cloner_leaves_speaker_file :
  let '(r, w) := Simple.clone_voice refusing_engine None two_sentences demo_voice
                   "out/a.wav" empty_world in
  r = Raise SynthesisError /\
  files w !! Simple.temp_speaker_path = Some (SpeakerReference (audio_data demo_voice)) /\
  ~ no_speaker_file Simple.temp_speaker_path w /\
  files (snd (WebSocket.clone_voice_multilingual ascii_table lenient_lib refusing_engine
                two_sentences demo_voice "out/a.wav" true empty_world))
    !! WebSocket.temp_speaker_path = None.
Proof.
  vm_compute. split; [reflexivity|]. split; [reflexivity|]. split; [|reflexivity].
  intros H. apply (H [(1 # 2)%Q; (- (1 # 4))%Q]). reflexivity.
Qed.

(** * Further properties of the code

    Properties of the functions above that the code shows by itself. *)

(** ** Tokens and whitespace layout *)

Lemma split_aux_blank (cur suf : text) :
  forallb is_space suf = true ->
  split_aux cur suf = match cur with [] => [] | _ => [rev cur] end.
Proof.
  revert cur. induction suf as [|c r IH]; intros cur H; simpl in *; [reflexivity|].
  apply andb_prop in H as [-> H].
  destruct cur as [|x cur']; rewrite (IH [] H); reflexivity.
Qed.

Lemma split_aux_blank_suffix (cur x suf : text) :
  forallb is_space suf = true -> split_aux cur (x ++ suf) = split_aux cur x.
Proof.
  intros H. revert cur. induction x as [|c r IH]; intros cur; simpl.
  - apply split_aux_blank, H.
  - destruct (is_space c); [destruct cur|]; rewrite IH; reflexivity.
Qed.

Lemma split_blank_prefix (pre x : text) :
  forallb is_space pre = true -> split (pre ++ x) = split x.
Proof.
  unfold split. induction pre as [|c r IH]; simpl; [reflexivity|].
  intros H. apply andb_prop in H as [-> H]. exact (IH H).
Qed.

Lemma split_strip (s : text) : split (strip s) = split s.
Proof.
  destruct (strip_decompose s) as [pre [suf [H [Hpre Hsuf]]]].
  rewrite H at 2. rewrite (split_blank_prefix _ _ Hpre).
  unfold split. rewrite (split_aux_blank_suffix _ _ _ Hsuf). reflexivity.
Qed.

Lemma split_aux_sub_ws (cur s : text) (p : bool) :
  (p = true -> cur = []) -> split_aux cur (sub_ws_aux p s) = split_aux cur s.
Proof.
  revert cur p. induction s as [|c r IH]; intros cur p Hp; simpl; [reflexivity|].
  destruct (is_space c) eqn:Hc.
  - destruct p.
    + rewrite (Hp eq_refl). apply IH. reflexivity.
    + simpl. destruct cur; rewrite IH; reflexivity.
  - simpl. rewrite Hc. apply IH. discriminate.
Qed.

(** The tokens do not depend on how much whitespace, or which, separates them. *)
Lemma split_normalize (s : text) : split (sub_ws_runs (strip s)) = split s.
Proof.
  unfold sub_ws_runs, split. rewrite split_aux_sub_ws by discriminate.
  apply split_strip.
Qed.

(** ** Characters that a substitution never touches *)

Section Kept.
(** A class of characters without whitespace. *)
Variable keep : Z -> bool.
Hypothesis keep_not_space : forall c, is_space c = true -> keep c = false.

Lemma kept_blank (ws : text) :
  forallb is_space ws = true -> List.filter keep ws = [].
Proof.
  induction ws as [|c r IH]; simpl; [reflexivity|].
  intros H. apply andb_prop in H as [Hc H].
  rewrite (keep_not_space c Hc). exact (IH H).
Qed.

Lemma kept_strip (s : text) : List.filter keep (strip s) = List.filter keep s.
Proof.
  destruct (strip_decompose s) as [pre [suf [H [Hpre Hsuf]]]].
  rewrite H at 2. rewrite !List.filter_app, (kept_blank _ Hpre), (kept_blank _ Hsuf).
  rewrite app_nil_r. reflexivity.
Qed.

Lemma kept_sub_ws (p : bool) (s : text) :
  List.filter keep (sub_ws_aux p s) = List.filter keep s.
Proof.
  revert p. induction s as [|c r IH]; intros p; simpl; [reflexivity|].
  destruct (is_space c) eqn:Hc.
  - rewrite (keep_not_space c Hc).
    destruct p; simpl; rewrite ?(keep_not_space SPACE eq_refl); apply IH.
  - simpl. rewrite IH. reflexivity.
Qed.

Lemma kept_sub_insert (P Q : Z -> bool) (p : bool) (s : text) :
  List.filter keep (sub_insert_aux P Q p s) = List.filter keep s.
Proof.
  revert p. induction s as [|c r IH]; intros p; simpl; [reflexivity|].
  destruct (p && Q c); simpl; rewrite ?(keep_not_space SPACE eq_refl), IH; reflexivity.
Qed.

Lemma kept_sub_class_delete (cls : Z -> bool) (s : text) :
  (forall c, cls c = true -> keep c = false) ->
  List.filter keep (sub_class_delete cls s) = List.filter keep s.
Proof.
  intros Hcls. unfold sub_class_delete.
  induction s as [|c r IH]; simpl; [reflexivity|].
  destruct (cls c) eqn:Hc; simpl.
  - rewrite (Hcls c Hc). exact IH.
  - rewrite IH. reflexivity.
Qed.

Lemma kept_sub_class_space (cls : Z -> bool) (s : text) :
  (forall c, cls c = true -> keep c = false) ->
  List.filter keep (sub_class_space cls s) = List.filter keep s.
Proof.
  intros Hcls. unfold sub_class_space.
  induction s as [|c r IH]; simpl; [reflexivity|].
  destruct (cls c) eqn:Hc.
  - rewrite (Hcls c Hc), (keep_not_space SPACE eq_refl). exact IH.
  - rewrite IH. reflexivity.
Qed.

Lemma kept_sub_period_before_space (s : text) :
  keep PERIOD = false ->
  List.filter keep (sub_period_before_space s) = List.filter keep s.
Proof.
  intros Hp. induction s as [|c r IH]; simpl; [reflexivity|].
  destruct ((c =? PERIOD) && _) eqn:Hc.
  - apply andb_prop in Hc as [Hc _]. apply Z.eqb_eq in Hc. subst c.
    rewrite Hp, (keep_not_space SPACE eq_refl). exact IH.
  - rewrite IH. reflexivity.
Qed.

Lemma kept_sub_final_period (s : text) :
  keep PERIOD = false ->
  List.filter keep (sub_final_period s) = List.filter keep s.
Proof.
  intros Hp. induction s as [|c r IH]; [reflexivity|].
  cbn [sub_final_period].
  destruct ((c =? PERIOD) && _) eqn:Hc.
  - apply andb_prop in Hc as [Hc _]. apply Z.eqb_eq in Hc. subst c.
    simpl. rewrite Hp. reflexivity.
  - simpl. rewrite IH. reflexivity.
Qed.

Lemma kept_sub_repeated (p : Z) (s : text) :
  keep p = false ->
  List.filter keep (sub_repeated p s) = List.filter keep s.
Proof.
  intros Hp. induction s as [|c r IH]; [reflexivity|].
  cbn [sub_repeated].
  destruct ((c =? p) && _) eqn:Hc.
  - apply andb_prop in Hc as [Hc _]. apply Z.eqb_eq in Hc. subst c.
    simpl. rewrite Hp. exact IH.
  - simpl. rewrite IH. reflexivity.
Qed.

Lemma kept_sub_gap (P Q : Z -> bool) (st : option text) (s : text) :
  match st with Some ws => forallb is_space ws = true | None => True end ->
  List.filter keep (sub_gap_aux P Q st s) = List.filter keep s.
Proof.
  revert st. induction s as [|c r IH]; intros st Hst; simpl.
  - destruct st as [ws|]; [apply kept_blank, Hst | reflexivity].
  - destruct st as [ws|].
    + destruct (is_space c) eqn:Hc.
      * rewrite (keep_not_space c Hc). apply IH.
        rewrite forallb_app, Hst. simpl. rewrite Hc. reflexivity.
      * destruct (_ && Q c); simpl.
        -- rewrite (keep_not_space SPACE eq_refl), IH by exact I. reflexivity.
        -- rewrite List.filter_app, (kept_blank _ Hst). simpl.
           rewrite IH; [reflexivity|]. destruct (P c); [reflexivity | exact I].
    + simpl. rewrite IH; [reflexivity|]. destruct (P c); [reflexivity | exact I].
Qed.

Lemma kept_sub_pause (P : Z -> bool) (st : option text) (s : text) :
  match st with Some ws => forallb is_space ws = true | None => True end ->
  List.filter keep (sub_pause_aux P st s) = List.filter keep s.
Proof.
  revert st. induction s as [|c r IH]; intros st Hst; simpl.
  - destruct st as [ws|]; [apply kept_blank, Hst | reflexivity].
  - destruct st as [ws|].
    + destruct (is_space c) eqn:Hc.
      * rewrite (keep_not_space c Hc). apply IH.
        rewrite forallb_app, Hst. simpl. rewrite Hc. reflexivity.
      * simpl. rewrite (keep_not_space SPACE eq_refl), IH by exact I. reflexivity.
    + simpl. rewrite IH; [reflexivity|]. destruct (P c); [reflexivity | exact I].
Qed.
End Kept.

(** ** Classes of characters that stay absent once they are removed *)

Section Absent.
(** A property of characters that U+0020 has. *)
Variable ok : Z -> bool.
Hypothesis ok_space : ok SPACE = true.

Lemma absent_sub_class_space (cls : Z -> bool) (s : text) :
  forallb ok s = true -> forallb ok (sub_class_space cls s) = true.
Proof.
  unfold sub_class_space. induction s as [|c r IH]; simpl; [reflexivity|].
  intros H. apply andb_prop in H as [Hc Hr].
  destruct (cls c); rewrite ?ok_space, ?Hc, IH; auto.
Qed.

Lemma absent_sub_class_delete (cls : Z -> bool) (s : text) :
  forallb ok s = true -> forallb ok (sub_class_delete cls s) = true.
Proof.
  unfold sub_class_delete. induction s as [|c r IH]; simpl; [reflexivity|].
  intros H. apply andb_prop in H as [Hc Hr].
  destruct (cls c); simpl; rewrite ?Hc, IH; auto.
Qed.

Lemma absent_sub_period_before_space (s : text) :
  forallb ok s = true -> forallb ok (sub_period_before_space s) = true.
Proof.
  induction s as [|c r IH]; simpl; [reflexivity|].
  intros H. apply andb_prop in H as [Hc Hr].
  destruct ((c =? PERIOD) && _); rewrite ?ok_space, ?Hc, IH; auto.
Qed.

Lemma absent_sub_final_period (s : text) :
  forallb ok s = true -> forallb ok (sub_final_period s) = true.
Proof.
  induction s as [|c r IH]; [reflexivity|].
  cbn [sub_final_period forallb].
  intros H. apply andb_prop in H as [Hc Hr].
  destruct ((c =? PERIOD) && _); [exact Hr|]. simpl. rewrite Hc, IH; auto.
Qed.

Lemma absent_sub_repeated (p : Z) (s : text) :
  forallb ok s = true -> forallb ok (sub_repeated p s) = true.
Proof.
  induction s as [|c r IH]; [reflexivity|].
  cbn [sub_repeated forallb].
  intros H. apply andb_prop in H as [Hc Hr].
  destruct ((c =? p) && _); [exact (IH Hr)|]. simpl. rewrite Hc, IH; auto.
Qed.

Lemma absent_sub_gap (P Q : Z -> bool) (st : option text) (s : text) :
  match st with Some ws => forallb ok ws = true | None => True end ->
  forallb ok s = true -> forallb ok (sub_gap_aux P Q st s) = true.
Proof.
  revert st. induction s as [|c r IH]; intros st Hst H; simpl.
  - destruct st as [ws|]; [exact Hst | reflexivity].
  - simpl in H. apply andb_prop in H as [Hc Hr].
    assert (Hnext : match (if P c then Some [] else None) with
                    | Some ws => forallb ok ws = true | None => True end).
    { destruct (P c); [reflexivity | exact I]. }
    destruct st as [ws|].
    + destruct (is_space c).
      * apply IH; [|exact Hr]. rewrite forallb_app, Hst. simpl. rewrite Hc. reflexivity.
      * destruct (_ && Q c); simpl.
        -- rewrite ok_space, Hc. apply IH; [exact I | exact Hr].
        -- rewrite forallb_app, Hst. simpl. rewrite Hc. apply IH; assumption.
    + simpl. rewrite Hc. apply IH; assumption.
Qed.

Lemma absent_sub_pause (P : Z -> bool) (st : option text) (s : text) :
  match st with Some ws => forallb ok ws = true | None => True end ->
  forallb ok s = true -> forallb ok (sub_pause_aux P st s) = true.
Proof.
  revert st. induction s as [|c r IH]; intros st Hst H; simpl.
  - destruct st as [ws|]; [exact Hst | reflexivity].
  - simpl in H. apply andb_prop in H as [Hc Hr].
    assert (Hnext : match (if P c then Some [] else None) with
                    | Some ws => forallb ok ws = true | None => True end).
    { destruct (P c); [reflexivity | exact I]. }
    destruct st as [ws|].
    + destruct (is_space c).
      * apply IH; [|exact Hr]. rewrite forallb_app, Hst. simpl. rewrite Hc. reflexivity.
      * simpl. rewrite ok_space, Hc. apply IH; [exact I | exact Hr].
    + simpl. rewrite Hc. apply IH; assumption.
Qed.
End Absent.

(** Replacing a class by spaces leaves none of its characters. *)
Lemma sub_class_space_clear (cls : Z -> bool) (s : text) :
  cls SPACE = false ->
  forallb (fun c => negb (cls c)) (sub_class_space cls s) = true.
Proof.
  intros Hsp. unfold sub_class_space. induction s as [|c r IH]; simpl; [reflexivity|].
  destruct (cls c) eqn:Hc; rewrite ?Hsp, ?Hc, IH; reflexivity.
Qed.

Lemma forallb_negb_orb (p q : Z -> bool) (s : text) :
  forallb (fun c => negb (p c)) s = true ->
  forallb (fun c => negb (q c)) s = true ->
  forallb (fun c => negb (p c || q c)) s = true.
Proof.
  induction s as [|c r IH]; simpl; [reflexivity|].
  intros Hp Hq. apply andb_prop in Hp as [Hp1 Hp2]. apply andb_prop in Hq as [Hq1 Hq2].
  rewrite negb_orb, Hp1, Hq1, IH; auto.
Qed.

Ltac absent_step :=
  first
    [ apply sub_class_space_clear; reflexivity
    | apply sub_class_delete_clear
    | apply forallb_sub_ws; [reflexivity|]
    | apply forallb_sub_insert; [reflexivity|]
    | apply absent_sub_pause; [reflexivity | exact I |]
    | apply absent_sub_gap; [reflexivity | exact I |]
    | apply absent_sub_repeated
    | apply absent_sub_class_space; [reflexivity|]
    | apply absent_sub_class_delete
    | apply absent_sub_final_period
    | apply absent_sub_period_before_space; [reflexivity|] ].

Lemma optimize_long_clear (uni_alnum : Z -> bool) (cls : Z -> bool) (t0 : text) :
  cls = is_bang_danda_question \/ cls = is_comma_semi_colon \/
  cls = is_quote \/ cls = is_dash ->
  forallb (fun c => negb (cls c)) (Multilingual.optimize_long uni_alnum t0) = true.
Proof.
  intros Hcls. unfold Multilingual.optimize_long.
  unfold sub_ws_runs at 1. unfold sub_insert_space, sub_gap, sub_pause.
  destruct (Multilingual.is_hinglish _);
    destruct Hcls as [ -> | [ -> | [ -> | -> ] ] ]; repeat absent_step.
Qed.

Lemma space_not_survivor_minimal (c : Z) : is_space c = true -> survives_minimal c = false.
Proof. unfold survives_minimal. intros ->. reflexivity. Qed.

Lemma space_not_survivor_multilingual (c : Z) :
  is_space c = true -> survives_multilingual c = false.
Proof. unfold survives_multilingual. intros ->. reflexivity. Qed.

Lemma optimize_minimal_content (detect : text -> segments) (t0 : text) :
  List.filter survives_minimal (optimize_minimal detect t0) =
  List.filter survives_minimal t0.
Proof.
  pose proof space_not_survivor_minimal as Hsp.
  assert (Hn : forall s, List.filter survives_minimal (sub_ws_runs (strip s)) =
                         List.filter survives_minimal s).
  { intros s. unfold sub_ws_runs. rewrite kept_sub_ws, kept_strip by exact Hsp. reflexivity. }
  unfold optimize_minimal. destruct (is_mixed _); [|apply Hn].
  rewrite Hn. unfold sub_insert_space.
  rewrite !kept_sub_insert by exact Hsp.
  rewrite kept_sub_class_delete; [apply Hn|].
  intros c Hc. unfold survives_minimal. rewrite Hc. apply andb_false_r.
Qed.

Lemma optimize_minimal_unmixed_content (detect : text -> segments) (t0 : text) :
  is_mixed (hindi_ratio (detect (sub_ws_runs (strip t0)))) = false ->
  List.filter not_space (optimize_minimal detect t0) = List.filter not_space t0.
Proof.
  intros H. unfold optimize_minimal. rewrite H. unfold sub_ws_runs.
  assert (Hsp : forall c, is_space c = true -> not_space c = false).
  { intros c Hc. unfold not_space. rewrite Hc. reflexivity. }
  rewrite kept_sub_ws, kept_strip by exact Hsp. reflexivity.
Qed.

Lemma optimize_minimal_normal (detect : text -> segments) (t0 : text) :
  normal (optimize_minimal detect t0).
Proof. unfold optimize_minimal. destruct (is_mixed _); apply normalize_normal. Qed.

Lemma normal_strip_fixed (s : text) : normal s -> strip s = s.
Proof.
  destruct s as [|c r]; [reflexivity|]. unfold normal. intros H.
  apply strip_fixed.
  - simpl in *. destruct (is_space c); [|reflexivity].
    rewrite andb_false_r in H. discriminate.
  - apply (tidy_ends_clean _ true H). discriminate.
Qed.

Lemma normal_sub_ws_fixed (s : text) : normal s -> sub_ws_runs s = s.
Proof.
  intros H. rewrite <- (normal_strip_fixed s H) at 1. apply normal_fixed, H.
Qed.

(** In a tidy text every whitespace character is U+0020 and is followed by a
    character that is not whitespace. *)
Lemma tidy_spaces (s : text) (p : bool) :
  tidy p s = true ->
  forall a c b, s = a ++ c :: b -> is_space c = true ->
    c = SPACE /\ match b with [] => False | d :: _ => is_space d = false end.
Proof.
  revert p. induction s as [|x r IH]; intros p H a c b Hs Hc.
  - destruct a; discriminate.
  - simpl in H. destruct a as [|y a'].
    + injection Hs as -> ->. rewrite Hc in H.
      apply andb_prop in H as [H H3]. apply andb_prop in H as [H1 H2].
      split; [apply Z.eqb_eq, H1|].
      destruct b as [|d b']; [discriminate|].
      simpl in H3. destruct (is_space d); [|reflexivity].
      rewrite andb_false_r in H3. discriminate.
    + injection Hs as -> ->.
      destruct (is_space y).
      * apply andb_prop in H as [_ H]. exact (IH true H a' c b eq_refl Hc).
      * exact (IH false H a' c b eq_refl Hc).
Qed.

Lemma optimize_minimal_mixed_shape (detect : text -> segments) (t0 : text) :
  is_mixed (hindi_ratio (detect (sub_ws_runs (strip t0)))) = true ->
  let out := optimize_minimal detect t0 in
  forallb (fun c => negb (is_bang_danda_question c)) out = true /\
  adj_free is_hindi_letter is_ascii_letter false out = true /\
  adj_free is_ascii_letter is_hindi_letter false out = true.
Proof.
  intros Hmix out. subst out. unfold optimize_minimal. rewrite Hmix.
  unfold sub_ws_runs at 1 3 5. unfold sub_insert_space.
  split; [|split].
  - apply forallb_sub_ws; [reflexivity|]. apply forallb_strip.
    do 2 (apply forallb_sub_insert; [reflexivity|]).
    apply sub_class_delete_clear.
  - apply adj_free_sub_ws;
      [apply space_not_hindi_letter | apply space_not_ascii_letter | discriminate |].
    apply adj_free_strip; [apply space_not_hindi_letter|].
    apply adj_free_sub_insert; [apply space_not_hindi_letter | apply space_not_ascii_letter|].
    apply sub_insert_adj_free;
      [apply space_not_hindi_letter | apply space_not_ascii_letter
      | apply ascii_not_hindi_letter | auto].
  - apply adj_free_sub_ws;
      [apply space_not_ascii_letter | apply space_not_hindi_letter | discriminate |].
    apply adj_free_strip; [apply space_not_ascii_letter|].
    apply sub_insert_adj_free;
      [apply space_not_ascii_letter | apply space_not_hindi_letter
      | apply hindi_not_ascii_letter | auto].
Qed.

Lemma adj_free_spec (P Q : Z -> bool) (s : text) (p : bool) :
  adj_free P Q p s = true ->
  forall a x y b, s = a ++ x :: y :: b -> P x && Q y = false.
Proof.
  revert p. induction s as [|c r IH]; intros p H a x y b Hs.
  - destruct a; discriminate.
  - simpl in H. apply andb_prop in H as [_ H].
    destruct a as [|z a'].
    + injection Hs as -> ->. simpl in H. apply andb_prop in H as [H _].
      apply negb_true_iff in H. exact H.
    + injection Hs as -> ->. exact (IH _ H a' x y b eq_refl).
Qed.

Lemma multilingual_detect_normalize (uni_alnum : Z -> bool) (t : text) :
  Multilingual.detect_text_language_segments uni_alnum (sub_ws_runs (strip t)) =
  Multilingual.detect_text_language_segments uni_alnum t.
Proof.
  unfold Multilingual.detect_text_language_segments. rewrite split_normalize. reflexivity.
Qed.

Lemma realtime_detect_normalize (t : text) :
  Realtime.detect_text_language_segments (sub_ws_runs (strip t)) =
  Realtime.detect_text_language_segments t.
Proof.
  unfold Realtime.detect_text_language_segments. rewrite split_normalize. reflexivity.
Qed.

(** X1.  The tokens of a text, and with them the language segments and the
    Hindi ratio, do not depend on its whitespace layout: normalizing the text
    the way every canonicalization starts ([strip], then each whitespace run
    to one space) changes neither [text.split()] nor what a segmenter
    returns.  The canonicalization looks at the segments of the normalized
    text and the run picks the language from the segments of the raw text:
    both see the same segments. *)
Theorem X1_segmentation_ignores_whitespace_layout :
  forall (uni_alnum : Z -> bool) (t : text),
    let normalized := sub_ws_runs (strip t) in
    split normalized = split t /\
    Multilingual.detect_text_language_segments uni_alnum normalized =
      Multilingual.detect_text_language_segments uni_alnum t /\
    WebSocket.detect_text_language_segments uni_alnum normalized =
      WebSocket.detect_text_language_segments uni_alnum t /\
    Realtime.detect_text_language_segments normalized =
      Realtime.detect_text_language_segments t.
Proof.
  intros uni_alnum t normalized. subst normalized.
  split; [apply split_normalize|].
  split; [apply multilingual_detect_normalize|].
  split; [apply multilingual_detect_normalize | apply realtime_detect_normalize].
Qed.

Lemma normal_single_spaced (s : text) : normal s -> single_spaced s.
Proof.
  intros H. split.
  - rewrite <- (normal_strip_fixed s H). apply strip_starts_clean.
  - destruct s as [|x r]; [intros [|? ?]; discriminate|].
    apply (tidy_spaces _ true H).
Qed.

(** X2.  What the WebSocket and the realtime canonicalization return is
    single-spaced, on every input: no whitespace at either end, and every
    whitespace character is one U+0020 between two words.  Stripping the
    result or collapsing its whitespace once more changes nothing. *)
Theorem X2_minimal_output_is_single_spaced :
  forall (uni_alnum : Z -> bool) (t : text),
    let ws := WebSocket.optimize_text_for_voice_cloning uni_alnum t in
    let rt := Realtime.optimize_text_for_voice_cloning t in
    (single_spaced ws /\ strip ws = ws /\ sub_ws_runs ws = ws) /\
    (single_spaced rt /\ strip rt = rt /\ sub_ws_runs rt = rt).
Proof.
  intros uni_alnum t ws rt.
  assert (H : forall s, normal s -> single_spaced s /\ strip s = s /\ sub_ws_runs s = s).
  { intros s Hs. split; [apply normal_single_spaced, Hs|].
    split; [apply normal_strip_fixed, Hs | apply normal_sub_ws_fixed, Hs]. }
  split; apply H, optimize_minimal_normal.
Qed.

Lemma mixed_shape_explicit (detect : text -> segments) (t : text) :
  is_mixed (hindi_ratio (detect (sub_ws_runs (strip t)))) = true ->
  forallb (fun c => negb (is_bang_danda_question c)) (optimize_minimal detect t) = true /\
  scripts_apart (optimize_minimal detect t).
Proof.
  intros H. destruct (optimize_minimal_mixed_shape detect t H) as [H1 [H2 H3]].
  split; [exact H1|]. intros a x y b Hs. split.
  - exact (adj_free_spec _ _ _ _ H2 a x y b Hs).
  - exact (adj_free_spec _ _ _ _ H3 a x y b Hs).
Qed.

(** X3.  If the text is mixed (more than 10% and less than 90% of its tokens
    are tagged [hi]), the WebSocket and the realtime canonicalization return
    a text without [!], [।] and [?] in which no letter of [अ-ह] touches an
    ASCII letter, in either order. *)
Theorem X3_mixed_text_keeps_scripts_apart :
  forall (uni_alnum : Z -> bool) (t : text),
    (is_mixed (hindi_ratio (WebSocket.detect_text_language_segments uni_alnum t)) = true ->
     forallb (fun c => negb (is_bang_danda_question c))
       (WebSocket.optimize_text_for_voice_cloning uni_alnum t) = true /\
     scripts_apart (WebSocket.optimize_text_for_voice_cloning uni_alnum t)) /\
    (is_mixed (hindi_ratio (Realtime.detect_text_language_segments t)) = true ->
     forallb (fun c => negb (is_bang_danda_question c))
       (Realtime.optimize_text_for_voice_cloning t) = true /\
     scripts_apart (Realtime.optimize_text_for_voice_cloning t)).
Proof.
  intros uni_alnum t. split; intros H.
  - apply mixed_shape_explicit.
    unfold WebSocket.detect_text_language_segments in *.
    rewrite multilingual_detect_normalize. exact H.
  - apply mixed_shape_explicit. rewrite realtime_detect_normalize. exact H.
Qed.

(** X3 at ["आजweather nice है!"], two of whose three tokens are tagged [hi]. *)
Lemma X3_mixed_text_witness :
  WebSocket.optimize_text_for_voice_cloning ascii_table hinglish_sample =
    [2310; 2332] ++ of_string " weather nice " ++ [2361; 2376] /\
  forallb (fun c => negb (is_bang_danda_question c))
    (WebSocket.optimize_text_for_voice_cloning ascii_table hinglish_sample) = true /\
  forallb (fun c => negb (is_bang_danda_question c))
    (Realtime.optimize_text_for_voice_cloning hinglish_sample) = true.
Proof.
  pose proof (X3_mixed_text_keeps_scripts_apart ascii_table hinglish_sample)
    as [Hws Hrt].
  split; [vm_compute; reflexivity|]. split.
  - apply Hws. vm_compute. reflexivity.
  - apply Hrt. vm_compute. reflexivity.
Defined.

(** X4.  The WebSocket and the realtime canonicalization delete nothing but
    whitespace and [! । ?], insert nothing but spaces, and reorder nothing:
    the other characters of the result are the other characters of the
    input, in the same order.  When the text is not mixed, [! । ?] stay as
    well and only whitespace changes. *)
Theorem X4_minimal_canonicalization_keeps_content :
  forall (uni_alnum : Z -> bool) (t : text),
    List.filter survives_minimal (WebSocket.optimize_text_for_voice_cloning uni_alnum t) =
      List.filter survives_minimal t /\
    List.filter survives_minimal (Realtime.optimize_text_for_voice_cloning t) =
      List.filter survives_minimal t /\
    (is_mixed (hindi_ratio (WebSocket.detect_text_language_segments uni_alnum t)) = false ->
     List.filter not_space (WebSocket.optimize_text_for_voice_cloning uni_alnum t) =
       List.filter not_space t) /\
    (is_mixed (hindi_ratio (Realtime.detect_text_language_segments t)) = false ->
     List.filter not_space (Realtime.optimize_text_for_voice_cloning t) =
       List.filter not_space t).
Proof.
  intros uni_alnum t.
  split; [apply optimize_minimal_content|].
  split; [apply optimize_minimal_content|].
  split; intros H; apply optimize_minimal_unmixed_content.
  - unfold WebSocket.detect_text_language_segments in *.
    rewrite multilingual_detect_normalize. exact H.
  - rewrite realtime_detect_normalize. exact H.
Qed.

Lemma optimize_long_content (uni_alnum : Z -> bool) (t0 : text) :
  List.filter survives_multilingual (Multilingual.optimize_long uni_alnum t0) =
  List.filter survives_multilingual t0.
Proof.
  pose proof space_not_survivor_multilingual as Hsp.
  assert (Hcls : forall cls : Z -> bool,
             (forall c, cls c = true -> is_splitter c = true) ->
             forall c, cls c = true -> survives_multilingual c = false).
  { intros cls Hc c H. unfold survives_multilingual. rewrite (Hc c H).
    rewrite andb_false_r. reflexivity. }
  assert (Hper : survives_multilingual PERIOD = false) by reflexivity.
  assert (Hcomma : survives_multilingual COMMA = false) by reflexivity.
  assert (Hdanda : survives_multilingual DANDA = false) by reflexivity.
  unfold Multilingual.optimize_long.
  unfold sub_ws_runs, sub_insert_space, sub_gap, sub_pause.
  rewrite kept_sub_ws, kept_sub_insert by exact Hsp.
  assert (Hbranch : forall s,
    List.filter survives_multilingual
      (if Multilingual.is_hinglish
            (hindi_ratio (Multilingual.detect_text_language_segments uni_alnum
                            (sub_ws_aux false (strip t0))))
       then sub_gap_aux is_hindi_letter is_ascii_letter None
              (sub_gap_aux is_ascii_letter is_hindi_letter None
                 (sub_repeated PERIOD (sub_repeated COMMA s)))
       else sub_pause_aux is_sentence_end None
              (sub_repeated PERIOD (sub_repeated DANDA s))) =
    List.filter survives_multilingual s).
  { intros s. destruct (Multilingual.is_hinglish _).
    - rewrite !kept_sub_gap by (exact Hsp || exact I).
      rewrite !kept_sub_repeated by assumption. reflexivity.
    - rewrite kept_sub_pause by (exact Hsp || exact I).
      rewrite !kept_sub_repeated by assumption. reflexivity. }
  rewrite Hbranch.
  rewrite kept_sub_class_space;
    [|exact Hsp | apply Hcls; intros c Hc; unfold is_splitter; rewrite Hc, ?orb_true_r; reflexivity].
  rewrite kept_sub_class_delete;
    [|apply Hcls; intros c Hc; unfold is_splitter; rewrite Hc, ?orb_true_r; reflexivity].
  rewrite kept_sub_final_period by assumption.
  rewrite kept_sub_period_before_space by assumption.
  rewrite kept_sub_class_space;
    [|exact Hsp | apply Hcls; intros c Hc; unfold is_splitter; rewrite Hc, ?orb_true_r; reflexivity].
  rewrite kept_sub_class_space;
    [|exact Hsp | apply Hcls; intros c Hc; unfold is_splitter; rewrite Hc, ?orb_true_r; reflexivity].
  rewrite kept_sub_ws, kept_strip by exact Hsp. reflexivity.
Qed.

(** X5.  On every input the canonicalization of MultilingualVoiceCloner
    leaves the characters that are neither whitespace, nor a period, nor a
    splitter ([! । ?], [, ; :], the double quote, the backtick and the three
    dashes) as they are, all of them and in the same order: no letter or
    digit is dropped, changed or moved. *)
Theorem X5_multilingual_canonicalization_keeps_content :
  forall (uni_alnum : Z -> bool) (t : text),
    List.filter survives_multilingual
      (Multilingual.optimize_text_for_voice_cloning uni_alnum t) =
    List.filter survives_multilingual t.
Proof.
  intros uni_alnum t. unfold Multilingual.optimize_text_for_voice_cloning.
  destruct (length t <=? 20)%nat.
  - apply kept_strip, space_not_survivor_multilingual.
  - apply optimize_long_content.
Qed.

(** X6.  For an input of more than 20 characters the canonicalization of
    MultilingualVoiceCloner returns a text without any splitter: no [! । ?],
    no [, ; :], no double quote, no backtick and none of the three dashes. *)
Theorem X6_long_text_loses_splitters :
  forall (uni_alnum : Z -> bool) (t : text),
    (20 < length t)%nat ->
    forallb (fun c => negb (is_splitter c))
      (Multilingual.optimize_text_for_voice_cloning uni_alnum t) = true.
Proof.
  intros uni_alnum t Hlen. unfold Multilingual.optimize_text_for_voice_cloning.
  assert ((length t <=? 20)%nat = false) as -> by (apply Nat.leb_gt; exact Hlen).
  pose proof (optimize_long_clear uni_alnum is_bang_danda_question t) as H1.
  pose proof (optimize_long_clear uni_alnum is_comma_semi_colon t) as H2.
  pose proof (optimize_long_clear uni_alnum is_quote t) as H3.
  pose proof (optimize_long_clear uni_alnum is_dash t) as H4.
  unfold is_splitter.
  apply forallb_negb_orb; [apply forallb_negb_orb; [apply forallb_negb_orb|]|];
    [apply H1 | apply H2 | apply H3 | apply H4]; tauto.
Qed.

(** X6 at the 28 characters of ["Good morning aap kaise hain?"]. *)
Lemma X6_long_text_witness :
  forallb (fun c => negb (is_splitter c))
    (Multilingual.optimize_text_for_voice_cloning ascii_table scenario_A) = true.
Proof.
  apply X6_long_text_loses_splitters. vm_compute. lia.
Defined.

(** ** Chunks of a long text *)

Lemma clean_sentence_strip (p : text) :
  no_terminator p = true -> WebSocket.truthy (strip p) = true -> clean_sentence (strip p).
Proof.
  intros Hp Hne. split; [|split; [|split]].
  - intros H. rewrite H in Hne. discriminate.
  - apply strip_starts_clean.
  - apply strip_ends_clean.
  - apply forallb_strip, Hp.
Qed.

Lemma clean_sentence_fixed (c : text) : clean_sentence c -> strip c = c.
Proof. intros [_ [H1 [H2 _]]]. apply strip_fixed; assumption. Qed.

Lemma clean_sentence_truthy (c : text) : clean_sentence c -> WebSocket.truthy c = true.
Proof. intros [H _]. destruct c; [congruence | reflexivity]. Qed.

Lemma clean_sentence_join (a b : text) :
  clean_sentence a -> clean_sentence b -> clean_sentence (a ++ [SPACE] ++ b).
Proof.
  intros [Ha [Sa [_ Ta]]] [Hb [_ [Eb Tb]]]. split; [|split; [|split]].
  - destruct a; [congruence | discriminate].
  - destruct a as [|x a']; [congruence | exact Sa].
  - unfold ends_clean in *. rewrite rev_app_distr. simpl.
    rewrite <- app_assoc.
    destruct (rev b) as [|y l] eqn:Hr.
    + apply (f_equal (@length Z)) in Hr. rewrite length_rev in Hr.
      destruct b; [congruence | discriminate].
    + exact Eb.
  - unfold no_terminator in *. rewrite forallb_app, Ta. simpl. exact Tb.
Qed.

Lemma re_split_each_pieces (cur s : text) :
  no_terminator cur = true ->
  Forall (fun p => no_terminator p = true) (WebSocket.re_split_each_aux cur s).
Proof.
  revert cur. induction s as [|c r IH]; intros cur Hcur; simpl.
  - constructor; [|constructor]. unfold no_terminator in *. rewrite forallb_rev. exact Hcur.
  - destruct (is_sentence_end c) eqn:Hc.
    + constructor; [|apply IH; reflexivity].
      unfold no_terminator in *. rewrite forallb_rev. exact Hcur.
    + apply IH. unfold no_terminator in *. simpl. rewrite Hc. exact Hcur.
Qed.

Lemma stripped_sentences_clean (t : text) : Forall clean_sentence (stripped_sentences t).
Proof.
  unfold stripped_sentences, WebSocket.re_split_each.
  pose proof (re_split_each_pieces [] t eq_refl) as H.
  induction H as [|p l Hp _ IH]; simpl; [constructor|].
  destruct (WebSocket.truthy (strip p)) eqn:Hne; [|exact IH].
  constructor; [apply clean_sentence_strip; assumption | exact IH].
Qed.

(** The loop skips what [stripped_sentences] leaves out. *)
Lemma chunk_fold_stripped (m : Z) (pieces : list text) (st : list text * text) :
  fold_left (WebSocket.chunk_step m) pieces st =
  fold_left (WebSocket.chunk_step m) (List.filter WebSocket.truthy (List.map strip pieces)) st.
Proof.
  revert st. induction pieces as [|p l IH]; intros st; simpl; [reflexivity|].
  destruct (WebSocket.truthy (strip p)) eqn:Hne; simpl.
  - rewrite IH. f_equal. unfold WebSocket.chunk_step. destruct st as [chunks cur].
    rewrite strip_idempotent. reflexivity.
  - rewrite IH. f_equal. unfold WebSocket.chunk_step. destruct st as [chunks cur].
    rewrite Hne. reflexivity.
Qed.

Lemma join_space_snoc (l : list text) (x : text) :
  join_space (l ++ [x]) = match l with [] => x | _ => join_space l ++ SPACE :: x end.
Proof.
  induction l as [|y l IH]; [reflexivity|].
  destruct l as [|z l']; [reflexivity|].
  change (join_space ((y :: z :: l') ++ [x])) with (y ++ SPACE :: join_space ((z :: l') ++ [x])).
  rewrite IH. change (join_space (y :: z :: l')) with (y ++ SPACE :: join_space (z :: l')).
  rewrite <- app_assoc. reflexivity.
Qed.

Lemma join_space_snoc_ne (l : list text) (x : text) :
  l <> [] -> join_space (l ++ [x]) = join_space l ++ SPACE :: x.
Proof. intros H. rewrite join_space_snoc. destruct l; [congruence | reflexivity]. Qed.

Lemma join_space_extend (l : list text) (x y : text) :
  join_space (l ++ [x ++ [SPACE] ++ y]) = join_space (l ++ [x]) ++ SPACE :: y.
Proof.
  rewrite !join_space_snoc. destruct l as [|z l'].
  - reflexivity.
  - rewrite <- app_assoc. reflexivity.
Qed.

Lemma chunk_step_cases (m : Z) (chunks : list text) (cur s : text) :
  clean_sentence s -> (cur = [] \/ clean_sentence cur) ->
  WebSocket.chunk_step m (chunks, cur) s =
    match cur with
    | [] => (chunks, s)
    | _ => if m <? Z.of_nat (length (cur ++ [SPACE] ++ s))
           then (chunks ++ [cur], s)
           else (chunks, cur ++ [SPACE] ++ s)
    end.
Proof.
  intros Hs Hcur. unfold WebSocket.chunk_step.
  rewrite (clean_sentence_fixed s Hs), (clean_sentence_truthy s Hs). cbn [negb].
  destruct cur as [|x cur']; [reflexivity|].
  destruct Hcur as [Hcur|Hcur]; [discriminate|].
  rewrite (clean_sentence_fixed _ Hcur). cbn [WebSocket.truthy andb]. reflexivity.
Qed.

Lemma chunk_result_open (chunks : list text) (cur : text) :
  clean_sentence cur -> chunk_result (chunks, cur) = chunks ++ [cur].
Proof.
  intros H. unfold chunk_result.
  rewrite (clean_sentence_truthy _ H), (clean_sentence_fixed _ H). reflexivity.
Qed.

Lemma chunk_step_inv (m : Z) (all done : list text) (st : list text * text) (s : text) :
  clean_sentence s -> In s all ->
  chunk_inv m all done st -> chunk_inv m all (done ++ [s]) (WebSocket.chunk_step m st s).
Proof.
  intros Hs Hin. destruct st as [chunks cur].
  intros [Hempty [Hchunks [Hcur [Hjoin Hbound]]]].
  rewrite (chunk_step_cases m chunks cur s Hs Hcur).
  assert (Hsne : s = [] -> chunks = [] /\ done ++ [s] = []).
  { intros ->. destruct Hs as [Hs _]. congruence. }
  destruct cur as [|x cur'].
  - (* first sentence *)
    destruct (Hempty eq_refl) as [-> ->].
    split; [exact Hsne|]. split; [constructor|]. split; [right; exact Hs|].
    rewrite (chunk_result_open _ _ Hs).
    split; [reflexivity|]. constructor; [right; exact Hin | constructor].
  - destruct Hcur as [Hcur|Hcur]; [discriminate|].
    rewrite (chunk_result_open _ _ Hcur) in Hjoin, Hbound.
    assert (Hdone : done <> []).
    { intros ->. simpl in Hjoin. rewrite join_space_snoc in Hjoin.
      destruct chunks; [discriminate|].
      apply (f_equal (@length Z)) in Hjoin. rewrite length_app in Hjoin.
      simpl in Hjoin. lia. }
    destruct (m <? _) eqn:Hlong.
    + (* the chunk is closed, the sentence starts the next one *)
      split; [intros ->; destruct Hs as [Hs _]; congruence|].
      split; [apply Forall_app; split; [exact Hchunks | constructor; [exact Hcur | constructor]]|].
      split; [right; exact Hs|].
      rewrite (chunk_result_open _ _ Hs).
      split.
      * transitivity (join_space (chunks ++ [x :: cur']) ++ SPACE :: s);
          [apply join_space_snoc_ne; destruct chunks; discriminate|].
        transitivity (join_space done ++ SPACE :: s); [f_equal; exact Hjoin|].
        symmetry. apply join_space_snoc_ne, Hdone.
      * apply Forall_app. split; [exact Hbound | constructor; [right; exact Hin | constructor]].
    + (* the sentence joins the chunk *)
      pose proof (clean_sentence_join _ _ Hcur Hs) as Hj.
      split; [intros H; destruct Hj as [Hj _]; congruence|].
      split; [exact Hchunks|]. split; [right; exact Hj|].
      rewrite (chunk_result_open _ _ Hj).
      split.
      * transitivity (join_space (chunks ++ [x :: cur']) ++ SPACE :: s);
          [apply join_space_extend|].
        transitivity (join_space done ++ SPACE :: s); [f_equal; exact Hjoin|].
        symmetry. apply join_space_snoc_ne, Hdone.
      * apply Forall_app in Hbound as [Hb1 _].
        apply Forall_app. split; [exact Hb1|]. constructor; [|constructor].
        left. apply Z.ltb_ge in Hlong. exact Hlong.
Qed.

Lemma chunk_fold_inv (m : Z) (all todo done : list text) (st : list text * text) :
  Forall clean_sentence todo -> (forall s, In s todo -> In s all) ->
  chunk_inv m all done st ->
  chunk_inv m all (done ++ todo) (fold_left (WebSocket.chunk_step m) todo st).
Proof.
  revert done st. induction todo as [|s l IH]; intros done st Hclean Hall Hinv; simpl.
  - rewrite app_nil_r. exact Hinv.
  - replace (done ++ s :: l) with ((done ++ [s]) ++ l) by (rewrite <- app_assoc; reflexivity).
    inversion Hclean; subst. apply IH; [assumption | intros; apply Hall; right; assumption|].
    apply chunk_step_inv; [assumption | apply Hall; left; reflexivity | exact Hinv].
Qed.

Lemma chunk_long_text_long (t : text) (m : Z) :
  m < Z.of_nat (length t) ->
  WebSocket._chunk_long_text t m = chunk_result (fold_left (WebSocket.chunk_step m) (stripped_sentences t) ([], [])) /\
  chunk_inv m (stripped_sentences t) (stripped_sentences t)
    (fold_left (WebSocket.chunk_step m) (stripped_sentences t) ([], [])).
Proof.
  intros Hlen. split.
  - unfold WebSocket._chunk_long_text. apply Z.leb_gt in Hlen. rewrite Hlen.
    rewrite chunk_fold_stripped. reflexivity.
  - apply (chunk_fold_inv m _ _ []); [apply stripped_sentences_clean | auto|].
    split; [auto|]. split; [constructor|]. split; [left; reflexivity|].
    split; [reflexivity | constructor].
Qed.

Lemma chunk_result_clean (m : Z) (all done : list text) (st : list text * text) :
  chunk_inv m all done st -> Forall clean_sentence (chunk_result st).
Proof.
  destruct st as [chunks cur]. intros [_ [Hc [Hcur _]]]. unfold chunk_result.
  destruct cur as [|x r]; [exact Hc|]. cbn [WebSocket.truthy].
  destruct Hcur as [Hcur|Hcur]; [discriminate|].
  rewrite (clean_sentence_fixed _ Hcur).
  apply Forall_app. split; [exact Hc | constructor; [exact Hcur | constructor]].
Qed.

(** *** The sentences behind the chunks *)

Lemma join_space_nil (g : list text) : Forall clean_sentence g -> join_space g = [] -> g = [].
Proof.
  intros Hg H. destruct g as [|x g']; [reflexivity|].
  inversion Hg as [|? ? [Hx _] _]; subst.
  destruct g' as [|y g'']; simpl in H; [congruence|].
  destruct x; [congruence | discriminate].
Qed.

Lemma join_space_length (g : list text) (s : text) :
  In s g -> (length s <= length (join_space g))%nat.
Proof.
  induction g as [|x g' IH]; intros Hin; [contradiction|].
  destruct g' as [|y g''].
  - destruct Hin as [->|[]]. apply Nat.le_refl.
  - change (join_space (x :: y :: g'')) with (x ++ SPACE :: join_space (y :: g'')).
    rewrite length_app. cbn [length].
    destruct Hin as [->|Hin]; [lia|]. specialize (IH Hin). lia.
Qed.

Lemma chunk_step_groups (m : Z) (done : list text) (st : list text * text) (s : text) :
  clean_sentence s -> Forall clean_sentence done ->
  chunk_groups m done st -> chunk_groups m (done ++ [s]) (WebSocket.chunk_step m st s).
Proof.
  intros Hs Hdone. destruct st as [chunks cur].
  intros (closed & open & Hchunks & Hcur & Hcat & Hne & Hfit & Hopen).
  assert (Hclean_open : Forall clean_sentence open).
  { rewrite <- Hcat in Hdone. apply Forall_app in Hdone. apply Hdone. }
  assert (Hcur' : cur = [] \/ clean_sentence cur).
  { destruct open as [|x open']; [left; exact Hcur | right].
    rewrite Hcur. clear - Hclean_open.
    revert x Hclean_open. induction open' as [|y l IH]; intros x H.
    - inversion H; assumption.
    - inversion H; subst.
      change (join_space (x :: y :: l)) with (x ++ [SPACE] ++ join_space (y :: l)).
      apply clean_sentence_join; [assumption | apply IH; assumption]. }
  rewrite (chunk_step_cases m chunks cur s Hs Hcur').
  destruct cur as [|c cur'].
  - (* no chunk is open *)
    assert (open = []) as -> by (apply join_space_nil; [exact Hclean_open | symmetry; exact Hcur]).
    exists closed, [s]. rewrite app_nil_r in Hcat.
    split; [exact Hchunks|]. split; [reflexivity|].
    split; [rewrite Hcat; reflexivity|]. split; [exact Hne|]. split; [exact Hfit|].
    right. left. exists s. reflexivity.
  - assert (Hopen_ne : open <> []) by (intros ->; discriminate Hcur).
    destruct (m <? _) eqn:Hlong.
    + (* the open chunk is closed *)
      exists (closed ++ [open]), [s].
      split; [rewrite map_app, Hchunks, Hcur; reflexivity|]. split; [reflexivity|].
      split; [rewrite concat_app; simpl; rewrite app_nil_r, Hcat; reflexivity|].
      split; [apply Forall_app; split; [exact Hne | constructor; [exact Hopen_ne | constructor]]|].
      split.
      * apply Forall_app. split; [exact Hfit|]. constructor; [|constructor].
        destruct Hopen as [Ho|Ho]; [congruence | exact Ho].
      * right. left. exists s. reflexivity.
    + (* the sentence joins the open chunk *)
      exists closed, (open ++ [s]).
      split; [exact Hchunks|].
      split; [rewrite (join_space_snoc_ne open s Hopen_ne), <- Hcur; reflexivity|].
      split; [rewrite app_assoc, Hcat; reflexivity|]. split; [exact Hne|]. split; [exact Hfit|].
      right. right. apply Z.ltb_ge in Hlong.
      rewrite (join_space_snoc_ne open s Hopen_ne), <- Hcur. exact Hlong.
Qed.

Lemma chunk_fold_groups (m : Z) (todo done : list text) (st : list text * text) :
  Forall clean_sentence todo -> Forall clean_sentence done ->
  chunk_groups m done st ->
  chunk_groups m (done ++ todo) (fold_left (WebSocket.chunk_step m) todo st).
Proof.
  revert done st. induction todo as [|s l IH]; intros done st Htodo Hdone Hinv; simpl.
  - rewrite app_nil_r. exact Hinv.
  - replace (done ++ s :: l) with ((done ++ [s]) ++ l) by (rewrite <- app_assoc; reflexivity).
    inversion Htodo; subst. apply IH; [assumption| |].
    + apply Forall_app. split; [exact Hdone | constructor; [assumption | constructor]].
    + apply chunk_step_groups; assumption.
Qed.

(** The chunks of a long text are its sentences, group by group. *)
Lemma chunk_long_text_groups (t : text) (m : Z) :
  m < Z.of_nat (length t) ->
  exists groups : list (list text),
    concat groups = stripped_sentences t /\
    Forall (fun g => g <> []) groups /\
    WebSocket._chunk_long_text t m = List.map join_space groups /\
    Forall (group_fits m) groups.
Proof.
  intros Hlen.
  destruct (chunk_long_text_long t m Hlen) as [-> Hinv].
  pose proof (chunk_fold_groups m (stripped_sentences t) [] ([], [])
                (stripped_sentences_clean t) (List.Forall_nil _)) as Hg.
  simpl in Hg.
  assert (H0 : chunk_groups m [] ([], [])).
  { exists [], []. split; [reflexivity|]. split; [reflexivity|]. split; [reflexivity|].
    split; [constructor|]. split; [constructor|]. left. reflexivity. }
  specialize (Hg H0). clear H0.
  destruct (fold_left _ _ _) as [chunks cur].
  destruct Hg as (closed & open & Hchunks & Hcur & Hcat & Hne & Hfit & Hopen).
  destruct Hinv as [_ [_ [Hclean _]]].
  destruct cur as [|c cur'].
  - assert (open = []) as ->.
    { apply join_space_nil; [|symmetry; exact Hcur].
      pose proof (stripped_sentences_clean t) as Hall. rewrite <- Hcat in Hall.
      apply Forall_app in Hall. apply Hall. }
    exists closed. rewrite app_nil_r in Hcat.
    split; [exact Hcat|]. split; [exact Hne|]. split; [exact Hchunks | exact Hfit].
  - destruct Hclean as [Hclean|Hclean]; [discriminate|].
    rewrite (chunk_result_open _ _ Hclean).
    assert (Hopen_ne : open <> []) by (intros ->; discriminate Hcur).
    exists (closed ++ [open]).
    split; [rewrite concat_app; simpl; rewrite app_nil_r; exact Hcat|].
    split; [apply Forall_app; split; [exact Hne | constructor; [exact Hopen_ne | constructor]]|].
    split; [rewrite map_app, Hchunks, Hcur; reflexivity|].
    apply Forall_app. split; [exact Hfit|]. constructor; [|constructor].
    destruct Hopen as [Ho|Ho]; [congruence | exact Ho].
Qed.

(** X7.  For a text longer than [max_length], the chunks that
    [_chunk_long_text] returns are the sentences of the text (its pieces
    between terminators, stripped, the empty ones left out) cut into
    consecutive groups that are not empty, each chunk being the sentences of
    its group joined by single spaces: every sentence is in exactly one
    chunk, whole and in order.  So every chunk is not empty, has no
    whitespace at its ends and holds no terminator [. ! ? ।], and the chunks
    joined by single spaces spell the sentences joined by single spaces. *)
Theorem X7_long_text_chunks_are_sentence_groups :
  forall (t : text) (max_length : Z),
    max_length < Z.of_nat (length t) ->
    let chunks := WebSocket._chunk_long_text t max_length in
    (exists groups : list (list text),
       concat groups = stripped_sentences t /\
       Forall (fun g => g <> []) groups /\
       chunks = List.map join_space groups) /\
    Forall clean_sentence chunks /\
    join_space chunks = join_space (stripped_sentences t).
Proof.
  intros t m Hlen chunks. subst chunks. split.
  - destruct (chunk_long_text_groups t m Hlen) as (groups & H1 & H2 & H3 & _).
    exists groups. split; [exact H1|]. split; [exact H2 | exact H3].
  - destruct (chunk_long_text_long t m Hlen) as [-> Hinv]. split.
    + exact (chunk_result_clean _ _ _ _ Hinv).
    + destruct (fold_left _ _ _) as [chunks cur]. apply Hinv.
Qed.

(** X7 at a text of two sentences cut at 10 characters: the first sentence
    has four words and stays whole. *)
Lemma X7_long_text_chunks_witness :
  WebSocket._chunk_long_text long_sentence_text 10 =
    [of_string "aaaa bbbb cccc dddd"; of_string "e"] /\
  exists groups : list (list text),
    concat groups = [of_string "aaaa bbbb cccc dddd"; of_string "e"] /\
    Forall (fun g => g <> []) groups /\
    WebSocket._chunk_long_text long_sentence_text 10 = List.map join_space groups.
Proof.
  split; [vm_compute; reflexivity|].
  destruct (X7_long_text_chunks_are_sentence_groups long_sentence_text 10)
    as [(groups & H1 & H2 & H3) _].
  - vm_compute. reflexivity.
  - exists groups. split; [exact H1|]. split; [exact H2 | exact H3].
Defined.

(** X8.  Every chunk that [_chunk_long_text] returns has at most
    [max_length] characters or is one whole sentence of the text.  For a text
    longer than [max_length], sentences are joined only while the result
    fits: a chunk made of several sentences has at most [max_length]
    characters; and a sentence that is longer than [max_length] is a chunk
    by itself, uncut, so that a chunk can be longer than [max_length]. *)
Theorem X8_chunk_is_short_or_one_sentence :
  forall (t : text) (max_length : Z),
    let chunks := WebSocket._chunk_long_text t max_length in
    Forall (fun c => Z.of_nat (length c) <= max_length \/ In c (stripped_sentences t))
           chunks /\
    (max_length < Z.of_nat (length t) ->
     exists groups : list (list text),
       concat groups = stripped_sentences t /\
       chunks = List.map join_space groups /\
       Forall (fun g => (exists s, g = [s]) \/
                        Z.of_nat (length (join_space g)) <= max_length) groups /\
       forall s, In s (stripped_sentences t) -> max_length < Z.of_nat (length s) ->
                 In [s] groups /\ In s chunks).
Proof.
  intros t m chunks. subst chunks. split.
  - destruct (Z.leb_spec (Z.of_nat (length t)) m) as [Hle|Hgt].
    + unfold WebSocket._chunk_long_text. apply Z.leb_le in Hle. rewrite Hle.
      constructor; [left; apply Z.leb_le, Hle | constructor].
    + destruct (chunk_long_text_long t m Hgt) as [-> Hinv].
      destruct (fold_left _ _ _) as [chunks cur]. apply Hinv.
  - intros Hlen.
    destruct (chunk_long_text_groups t m Hlen) as (groups & Hcat & _ & Hmap & Hfit).
    exists groups. split; [exact Hcat|]. split; [exact Hmap|]. split; [exact Hfit|].
    intros s Hin Hlong.
    assert (Hg : In [s] groups).
    { rewrite <- Hcat in Hin. apply in_concat in Hin as (g & Hg & Hs).
      pose proof (proj1 (List.Forall_forall _ _) Hfit g Hg) as [[s' ->]|Hshort].
      - destruct Hs as [->|[]]. exact Hg.
      - pose proof (join_space_length g s Hs). lia. }
    split; [exact Hg|]. rewrite Hmap.
    change s with (join_space [s]). apply in_map. exact Hg.
Qed.

(** X8 at the same text: its first sentence has 19 characters, more than the
    10 allowed, and is returned as one chunk. *)
Lemma X8_long_sentence_witness :
  exists c, In c (WebSocket._chunk_long_text long_sentence_text 10) /\
            10 < Z.of_nat (length c).
Proof.
  destruct (X8_chunk_is_short_or_one_sentence long_sentence_text 10) as [_ H].
  destruct H as (groups & _ & _ & _ & Hlong); [vm_compute; reflexivity|].
  exists (of_string "aaaa bbbb cccc dddd").
  split; [|vm_compute; reflexivity].
  apply (Hlong (of_string "aaaa bbbb cccc dddd")).
  - vm_compute. left. reflexivity.
  - vm_compute. reflexivity.
Defined.

(** ** The sentences of the realtime stream *)

Lemma re_split_pieces (cur s : text) (in_sep : bool) :
  no_terminator cur = true ->
  Forall (fun p => no_terminator p = true) (Realtime.re_split_aux cur in_sep s).
Proof.
  revert cur in_sep. induction s as [|c r IH]; intros cur in_sep Hcur; simpl.
  - constructor; [|constructor]. unfold no_terminator in *. rewrite forallb_rev. exact Hcur.
  - destruct (is_sentence_end c) eqn:Hc.
    + destruct in_sep; [apply IH; reflexivity|].
      constructor; [|apply IH; reflexivity].
      unfold no_terminator in *. rewrite forallb_rev. exact Hcur.
    + apply IH. unfold no_terminator in *. simpl. rewrite Hc. exact Hcur.
Qed.

Lemma re_split_concat (cur s : text) (in_sep : bool) :
  (in_sep = true -> cur = []) ->
  concat (Realtime.re_split_aux cur in_sep s) =
  rev cur ++ List.filter (fun c => negb (is_sentence_end c)) s.
Proof.
  revert cur in_sep. induction s as [|c r IH]; intros cur in_sep Hsep; simpl.
  - rewrite !app_nil_r. reflexivity.
  - destruct (is_sentence_end c) eqn:Hc; simpl.
    + destruct in_sep.
      * rewrite (Hsep eq_refl). apply IH. reflexivity.
      * simpl. rewrite IH by reflexivity. reflexivity.
    + rewrite IH by discriminate. simpl. rewrite <- app_assoc. reflexivity.
Qed.

Lemma chunks_of_pieces (pieces : list text) :
  Forall (fun p => no_terminator p = true) pieces ->
  let chunks := List.filter (fun s => negb (Realtime.is_nil s)) (List.map strip pieces) in
  Forall clean_sentence chunks /\
  List.filter not_space (concat chunks) = List.filter not_space (concat pieces).
Proof.
  assert (Hsp : forall c, is_space c = true -> not_space c = false).
  { intros c Hc. unfold not_space. rewrite Hc. reflexivity. }
  intros H. induction H as [|p l Hp _ [IH1 IH2]]; simpl; [split; [constructor | reflexivity]|].
  rewrite List.filter_app, <- IH2, <- (kept_strip not_space Hsp p).
  destruct (strip p) as [|x r] eqn:Hst; cbn [Realtime.is_nil negb].
  - split; [exact IH1 | reflexivity].
  - split.
    + constructor; [|exact IH1]. rewrite <- Hst.
      apply clean_sentence_strip; [exact Hp | rewrite Hst; reflexivity].
    + cbn [concat]. rewrite List.filter_app. reflexivity.
Qed.

Lemma filter_filter_andb {A} (p q : A -> bool) (l : list A) :
  List.filter p (List.filter q l) = List.filter (fun x => p x && q x) l.
Proof.
  induction l as [|x l IH]; simpl; [reflexivity|].
  destruct (q x); simpl; [destruct (p x); simpl; rewrite IH; reflexivity|].
  rewrite andb_false_r. exact IH.
Qed.

Lemma clean_sentence_not_blank (c : text) :
  clean_sentence c -> Realtime.is_nil (strip c) = false.
Proof.
  intros H. rewrite (clean_sentence_fixed c H). destruct H as [H _].
  destruct c; [congruence | reflexivity].
Qed.

(** X9.  Every chunk that [_split_text_into_chunks] returns is not empty,
    has no whitespace at its ends and holds no terminator [. ! ? ।], so that
    the guard [if not chunk.strip(): continue] of the streaming loop never
    skips one; and the chunks hold, in order, every character of the text
    that is neither whitespace nor a terminator. *)
Theorem X9_stream_chunks_are_clean_sentences :
  forall s : text,
    let chunks := Realtime._split_text_into_chunks s in
    Forall clean_sentence chunks /\
    Forall (fun c => Realtime.is_nil (strip c) = false) chunks /\
    List.filter not_space (concat chunks) =
      List.filter (fun c => not_space c && negb (is_sentence_end c)) s.
Proof.
  intros s chunks. subst chunks. unfold Realtime._split_text_into_chunks.
  pose proof (re_split_pieces [] s false eq_refl) as Hp.
  change (Realtime.re_split_aux [] false s) with (Realtime.re_split_sentences s) in Hp.
  destruct (chunks_of_pieces _ Hp) as [H1 H2].
  split; [exact H1|]. split.
  - eapply Forall_impl; [exact H1|]. intros c Hc. apply clean_sentence_not_blank, Hc.
  - rewrite H2. unfold Realtime.re_split_sentences.
    rewrite re_split_concat by discriminate. simpl. apply filter_filter_andb.
Qed.

(** ** The two segmenters side by side *)

Lemma script_tag_hi_mono (w : text) : script_tag unknown w = hi -> script_tag hi w = hi.
Proof.
  unfold script_tag. destruct (existsb is_devanagari w); [reflexivity|].
  destruct (existsb is_ascii_letter w); discriminate.
Qed.

Lemma count_hi_realtime_le (uni_alnum : Z -> bool) (t : text) :
  (count_hi (Realtime.detect_text_language_segments t) <=
   count_hi (Multilingual.detect_text_language_segments uni_alnum t))%nat /\
  length (Realtime.detect_text_language_segments t) =
  length (Multilingual.detect_text_language_segments uni_alnum t).
Proof.
  rewrite multilingual_detect_spec. unfold Realtime.detect_text_language_segments.
  change Realtime.tag_of_word with (script_tag unknown).
  unfold count_hi. induction (split t) as [|w l [IH1 IH2]]; simpl; [split; reflexivity|].
  split; [|rewrite IH2; reflexivity].
  destruct (script_tag unknown w) eqn:Hrt; simpl.
  - rewrite (script_tag_hi_mono w Hrt). simpl. lia.
  - destruct (lang_eqb (script_tag hi w) hi); simpl; lia.
  - destruct (lang_eqb (script_tag hi w) hi); simpl; lia.
Qed.

Lemma hindi_ratio_mono (a b : segments) :
  (count_hi a <= count_hi b)%nat -> length a = length b ->
  (hindi_ratio a <= hindi_ratio b)%Q.
Proof.
  intros Hc Hl. unfold hindi_ratio.
  destruct a as [|x a']; destruct b as [|y b']; simpl in Hl; try discriminate Hl;
    [apply Qle_refl|].
  change (length (x :: a')) with (S (length a')).
  change (length (y :: b')) with (S (length b')).
  rewrite Hl. unfold Qle. cbn [Qnum Qden].
  apply Z.mul_le_mono_nonneg_r; lia.
Qed.

Lemma primary_language_mono (r1 r2 : Q) :
  (r1 <= r2)%Q -> primary_language r1 = hi -> primary_language r2 = hi.
Proof.
  unfold primary_language, Qltb. intros Hle.
  destruct (Qle_bool r1 (3 # 10)) eqn:H1; [discriminate|]. intros _.
  destruct (Qle_bool r2 (3 # 10)) eqn:H2; [|reflexivity].
  apply Qle_bool_iff in H2.
  assert (H : Qle_bool r1 (3 # 10) = true).
  { apply Qle_bool_iff. apply (Qle_trans _ r2); assumption. }
  congruence.
Qed.

(** X10.  On the same text the realtime segmenter and the segmenter of
    MultilingualVoiceCloner return the same tokens, and the realtime one
    tags no more of them [hi]: its Hindi ratio is at most the other's, and
    whenever the realtime cloner picks Hindi as the primary language, so
    does the WebSocket cloner. *)
Theorem X10_realtime_counts_no_more_hindi :
  forall (uni_alnum : Z -> bool) (t : text),
    let rt := Realtime.detect_text_language_segments t in
    let ml := Multilingual.detect_text_language_segments uni_alnum t in
    List.map fst rt = List.map fst ml /\
    (count_hi rt <= count_hi ml)%nat /\
    (hindi_ratio rt <= hindi_ratio ml)%Q /\
    (primary_language (hindi_ratio rt) = hi -> primary_language (hindi_ratio ml) = hi).
Proof.
  intros uni_alnum t rt ml. subst rt ml.
  destruct (count_hi_realtime_le uni_alnum t) as [Hc Hl].
  split.
  { unfold Realtime.detect_text_language_segments,
           Multilingual.detect_text_language_segments.
    rewrite !map_map. reflexivity. }
  split; [exact Hc|].
  pose proof (hindi_ratio_mono _ _ Hc Hl) as Hr.
  split; [exact Hr | apply primary_language_mono, Hr].
Qed.

(** ** Files and calls of a run *)

Lemma same_files_refl (paths : list string) (w : world) : same_files_except paths w w.
Proof. intros p _. reflexivity. Qed.

Lemma same_files_trans (paths : list string) (w1 w2 w3 : world) :
  same_files_except paths w1 w2 -> same_files_except paths w2 w3 ->
  same_files_except paths w1 w3.
Proof. intros H1 H2 p Hp. rewrite (H2 p Hp). apply H1, Hp. Qed.

Lemma same_files_eq (paths : list string) (w w' : world) :
  files w' = files w -> same_files_except paths w w'.
Proof. intros H p _. rewrite H. reflexivity. Qed.

Lemma touches_rret {A} (paths : list string) (x : A) : touches_only paths (rret x).
Proof. intros w. apply same_files_refl. Qed.

Lemma touches_rraise {A} (paths : list string) (e : exn) : touches_only paths (@rraise A e).
Proof. intros w. apply same_files_refl. Qed.

Lemma touches_rbind {A B} (paths : list string) (m : Run A) (k : A -> Run B) :
  touches_only paths m -> (forall x, touches_only paths (k x)) ->
  touches_only paths (rbind m k).
Proof.
  intros Hm Hk w. unfold rbind. specialize (Hm w).
  destruct (m w) as [[x|e] w1]; simpl in *; [|exact Hm].
  apply (same_files_trans _ _ w1); [exact Hm | apply Hk].
Qed.

Lemma touches_of_option {A} (paths : list string) (e : exn) (o : option A) :
  touches_only paths (of_option e o).
Proof. destruct o; [apply touches_rret | apply touches_rraise]. Qed.

Lemma touches_ensure (paths : list string) (E : Engine) :
  touches_only paths (_ensure_model_loaded E).
Proof.
  intros w. unfold _ensure_model_loaded. destruct (model_loads E); apply same_files_refl.
Qed.

Lemma touches_makedirs (paths : list string) (E : Engine) (path : string) :
  touches_only paths (makedirs_for E path).
Proof.
  intros w. unfold makedirs_for. destruct (can_mkdir E path); apply same_files_refl.
Qed.

Lemma touches_sf_write (paths : list string) (E : Engine) (path : string) (f : file) :
  In path paths -> touches_only paths (sf_write E path f).
Proof.
  intros Hin w. unfold sf_write. destruct (can_write E path); [|apply same_files_refl].
  intros p Hp. simpl. apply lookup_insert_ne. intros ->. exact (Hp Hin).
Qed.

Lemma touches_tts (paths : list string) (E : Engine) (c : tts_call) :
  touches_only paths (tts E c).
Proof.
  intros w. unfold tts.
  destruct (synthesize E (length (tts_calls w)) c); apply same_files_eq; reflexivity.
Qed.

Lemma same_files_cleanup (paths : list string) (path : string) (w : world) :
  In path paths -> same_files_except paths w (remove_if_exists path w).
Proof.
  intros Hin p Hp. simpl. apply lookup_delete_ne. intros ->. exact (Hp Hin).
Qed.

Lemma touches_try_finally {A} (paths : list string) (body : Run A) (path : string) :
  In path paths -> touches_only paths body ->
  touches_only paths (try_finally body (remove_if_exists path)).
Proof.
  intros Hin Hb w. unfold try_finally. specialize (Hb w).
  destruct (body w) as [r w1]. simpl in *.
  apply (same_files_trans _ _ w1); [exact Hb | apply same_files_cleanup, Hin].
Qed.

Lemma touches_synthesize_once (paths : list string) (E : Engine)
    (optimized_text : text) (primary : lang) :
  touches_only paths (Multilingual.synthesize_once E optimized_text primary).
Proof.
  unfold Multilingual.synthesize_once.
  destruct (has_inner_model E); [|apply touches_tts].
  intros w.
  pose proof (touches_tts paths E (Multilingual.tts_params optimized_text primary true) w) as H1.
  destruct (tts E (Multilingual.tts_params optimized_text primary true) w) as [[g|e] w1];
    [exact H1|].
  destruct e; try exact H1.
  apply (same_files_trans _ _ w1); [exact H1 | apply touches_tts].
Qed.

Lemma touches_multilingual (uni_alnum : Z -> bool) (L : NumLib) (E : Engine)
    (t : text) (vf : voice_features) (out : string) (enh : bool) :
  touches_only [Multilingual.temp_speaker_path; out]
    (Multilingual.clone_voice_multilingual uni_alnum L E t vf out enh).
Proof.
  apply (touches_rbind _ (_ensure_model_loaded E)); [apply touches_ensure | intros _].
  apply touches_rbind; [apply touches_of_option | intros ratio].
  apply touches_rbind; [apply touches_makedirs | intros _].
  apply touches_rbind; [apply touches_sf_write; left; reflexivity | intros _].
  apply touches_rbind;
    [apply touches_try_finally; [left; reflexivity | apply touches_synthesize_once]
    | intros generated].
  apply touches_rbind; [apply touches_sf_write; right; left; reflexivity | intros _].
  apply touches_rret.
Qed.

Lemma touches_websocket (uni_alnum : Z -> bool) (L : NumLib) (E : Engine)
    (t : text) (vf : voice_features) (out : string) (enh : bool) :
  touches_only [WebSocket.temp_speaker_path; out]
    (WebSocket.clone_voice_multilingual uni_alnum L E t vf out enh).
Proof.
  apply (touches_rbind _ (_ensure_model_loaded E)); [apply touches_ensure | intros _].
  apply touches_rbind; [apply touches_of_option | intros reference_audio].
  apply touches_rbind; [apply touches_makedirs | intros _].
  apply touches_rbind; [apply touches_sf_write; left; reflexivity | intros _].
  apply touches_rbind;
    [apply touches_try_finally; [left; reflexivity | apply touches_tts] | intros generated].
  apply touches_rbind; [apply touches_sf_write; right; left; reflexivity | intros _].
  apply touches_rret.
Qed.

Lemma touches_run_loop (L : NumLib) (E : Engine) (cb : option (nat -> bool))
    (chunks : list text) (i : nat) (temp : string) (primary : lang) (w : world) :
  same_files_except [temp] w (snd (Realtime.run_loop L E cb chunks i temp primary w)).
Proof.
  assert (Hc : forall w0, same_files_except [temp] w0 (Realtime.cleanup temp w0)).
  { intros w0. apply same_files_cleanup. left. reflexivity. }
  revert i. induction chunks as [|chunk rest IH]; intros i; simpl; [apply Hc|].
  destruct (Realtime.is_nil (strip chunk)); [apply IH|].
  destruct (negb _); [apply Hc|].
  match goal with |- context [tts E ?c w] =>
    pose proof (touches_tts [temp] E c w) as H; destruct (tts E c w) as [[g|e] w1]
  end; simpl in *; [exact H|].
  apply (same_files_trans _ _ w1); [exact H | apply Hc].
Qed.

Lemma touches_prologue (E : Engine) (t : text) (vf : voice_features) :
  touches_only [Realtime.temp_speaker_path E t] (Realtime.prologue E t vf).
Proof.
  unfold Realtime.prologue.
  apply touches_rbind; [apply touches_ensure | intros _].
  apply touches_rbind; [apply touches_of_option | intros reference_audio].
  apply touches_rbind; [apply touches_sf_write; left; reflexivity | intros _].
  apply touches_rret.
Qed.

Lemma run_loop_stream_of (L : NumLib) (E : Engine) (cb : option (nat -> bool)) (t : text)
    (chunks : list text) (i : nat) (primary : lang) (w : world) :
  stream_of E t
    (snd (fst (Realtime.run_loop L E cb chunks i (Realtime.temp_speaker_path E t) primary w))).
Proof.
  revert i. induction chunks as [|chunk rest IH]; intros i; simpl; [exact I|].
  destruct (Realtime.is_nil (strip chunk)); [apply IH|].
  destruct (negb _); [exact I|].
  match goal with |- context [tts E ?c w] => destruct (tts E c w) as [[g|e] w1] end;
    simpl; [reflexivity | exact I].
Qed.

Lemma touches_anext (L : NumLib) (E : Engine) (cb : option (nat -> bool)) (t : text)
    (g : Realtime.gen_state) (w : world) :
  stream_of E t g ->
  same_files_except [Realtime.temp_speaker_path E t] w (snd (Realtime.anext L E cb g w)) /\
  stream_of E t (snd (fst (Realtime.anext L E cb g w))).
Proof.
  destruct g as [t' vf|rest i temp primary|]; simpl.
  - intros ->. pose proof (touches_prologue E t vf w) as H.
    destruct (Realtime.prologue E t vf w) as [[[[chunks temp] primary]|e] w1] eqn:Hp;
      simpl in *; [|split; [exact H | exact I]].
    assert (temp = Realtime.temp_speaker_path E t) as ->.
    { unfold Realtime.prologue, rbind, _ensure_model_loaded, of_option, sf_write, rret, rraise in Hp.
      destruct (model_loads E); [|discriminate].
      destruct (normalize_reference _); simpl in Hp; [|discriminate].
      destruct (can_write E _); [|discriminate]. congruence. }
    split; [|apply run_loop_stream_of].
    apply (same_files_trans _ _ w1); [exact H | apply touches_run_loop].
  - intros ->. split; [apply touches_run_loop | apply run_loop_stream_of].
  - intros _. split; [apply same_files_refl | exact I].
Qed.

Lemma touches_consume (L : NumLib) (E : Engine) (cb : option (nat -> bool)) (t : text)
    (k : nat) (g : Realtime.gen_state) (w : world) :
  stream_of E t g ->
  same_files_except [Realtime.temp_speaker_path E t] w (snd (Realtime.consume L E cb k g w)).
Proof.
  revert g w. induction k as [|k IH]; intros g w Hg; simpl.
  - destruct g as [t' vf|rest i temp primary|]; simpl in *;
      [apply same_files_refl | | apply same_files_refl].
    subst temp. apply same_files_cleanup. left. reflexivity.
  - destruct (touches_anext L E cb t g w Hg) as [H Hg1].
    destruct (Realtime.anext L E cb g w) as [[d g1] w1]. simpl in *.
    destruct d as [pcm| |e]; simpl; [|exact H|exact H].
    specialize (IH g1 w1 Hg1).
    destruct (Realtime.consume L E cb k g1 w1) as [[got err] w2]. simpl in *.
    apply (same_files_trans _ _ w1); assumption.
Qed.

(** X13.  However a run ends, the cloner has changed no file but its
    speaker file and, in the single-shot runs, the output file: every other
    path holds what it held before.  The stream writes no output file at
    all. *)
Theorem X13_runs_touch_only_their_own_files :
  forall (uni_alnum : Z -> bool) (L : NumLib) (E : Engine)
         (progress_callback : option (nat -> bool))
         (t : text) (vf : voice_features) (output_path : string)
         (enhance_quality : bool) (k : nat) (w : world) (p : string),
    (p <> Multilingual.temp_speaker_path -> p <> output_path ->
     files (snd (Multilingual.clone_voice_multilingual uni_alnum L E t vf output_path
                   enhance_quality w)) !! p = files w !! p) /\
    (p <> WebSocket.temp_speaker_path -> p <> output_path ->
     files (snd (WebSocket.clone_voice_multilingual uni_alnum L E t vf output_path
                   enhance_quality w)) !! p = files w !! p) /\
    (p <> Realtime.temp_speaker_path E t ->
     files (snd (Realtime.consume L E progress_callback k
                   (Realtime.clone_voice_realtime t vf) w)) !! p = files w !! p).
Proof.
  intros. split; [|split].
  - intros H1 H2. apply touches_multilingual. intros [H|[H|[]]]; congruence.
  - intros H1 H2. apply touches_websocket. intros [H|[H|[]]]; congruence.
  - intros H1. apply (touches_consume L E progress_callback t); [reflexivity|].
    intros [H|[]]; congruence.
Qed.

(** X13 at a WebSocket run in a world that holds an older recording. *)
Lemma X13_other_files_witness :
  files (snd (WebSocket.clone_voice_multilingual ascii_table lenient_lib steady_engine
                two_sentences demo_voice "out/a.wav" true world_with_recording))
    !! "generated/old.wav" = Some (GeneratedAudio [(1 # 4)%Q]).
Proof.
  pose proof (X13_runs_touch_only_their_own_files ascii_table lenient_lib steady_engine None
                two_sentences demo_voice "out/a.wav" true 1 world_with_recording
                "generated/old.wav") as [_ [H _]].
  rewrite H; [vm_compute; reflexivity | discriminate | discriminate].
Defined.

(** ** Requests that fail before anything is done *)

Lemma detect_no_tokens (uni_alnum : Z -> bool) (t : text) :
  split t = [] -> Multilingual.detect_text_language_segments uni_alnum t = [].
Proof. unfold Multilingual.detect_text_language_segments. intros ->. reflexivity. Qed.

Lemma websocket_no_division_error (uni_alnum : Z -> bool) (L : NumLib) (E : Engine)
    (t : text) (vf : voice_features) (out : string) (enh : bool) (w : world) :
  fst (WebSocket.clone_voice_multilingual uni_alnum L E t vf out enh w) <>
  Raise ZeroDivisionError.
Proof.
  unfold WebSocket.clone_voice_multilingual, rbind, _ensure_model_loaded, of_option,
         makedirs_for, sf_write, try_finally, tts, rret, rraise.
  destruct (model_loads E); [|discriminate].
  destruct (normalize_reference _); simpl; [|discriminate].
  destruct (can_mkdir E out); [|discriminate].
  destruct (can_write E WebSocket.temp_speaker_path); [|discriminate].
  destruct (synthesize E _ _); simpl; try discriminate.
  destruct (can_write E out); discriminate.
Qed.

(** X11.  On a text without tokens (empty, or whitespace only)
    [clone_voice_multilingual] of MultilingualVoiceCloner raises
    ZeroDivisionError once the model is loaded, before it has written a file
    or called the engine: it divides by the number of segments without the
    guard.  The override of the WebSocket cloner has the guard and never
    raises ZeroDivisionError. *)
Theorem X11_blank_text_is_a_division_error :
  forall (uni_alnum : Z -> bool) (L : NumLib) (E : Engine)
         (t : text) (vf : voice_features) (output_path : string)
         (enhance_quality : bool) (w : world),
    (split t = [] -> model_loads E = true ->
     Multilingual.clone_voice_multilingual uni_alnum L E t vf output_path enhance_quality w =
       (Raise ZeroDivisionError, w)) /\
    (forallb is_space t = true -> split t = []) /\
    fst (WebSocket.clone_voice_multilingual uni_alnum L E t vf output_path
           enhance_quality w) <> Raise ZeroDivisionError.
Proof.
  intros. split; [|split; [apply split_blank | apply websocket_no_division_error]].
  intros Hblank Hload.
  unfold Multilingual.clone_voice_multilingual, rbind, _ensure_model_loaded.
  rewrite Hload, (detect_no_tokens uni_alnum t Hblank). reflexivity.
Qed.

(** X11 at a text of three spaces. *)
Lemma X11_blank_text_witness :
  Multilingual.clone_voice_multilingual ascii_table lenient_lib steady_engine
    (of_string "   ") demo_voice "out/a.wav" true empty_world =
  (Raise ZeroDivisionError, empty_world).
Proof.
  apply (X11_blank_text_is_a_division_error ascii_table lenient_lib steady_engine
           (of_string "   ") demo_voice "out/a.wav" true empty_world); reflexivity.
Defined.

(** X12.  With an empty reference waveform the WebSocket run and the stream
    raise ValueError ([np.max] of a zero-size array) once the model is
    loaded, before a speaker file is written or the engine is called; the
    stream is finished by it. *)
Theorem X12_empty_reference_is_a_value_error :
  forall (uni_alnum : Z -> bool) (L : NumLib) (E : Engine)
         (progress_callback : option (nat -> bool))
         (t : text) (vf : voice_features) (output_path : string)
         (enhance_quality : bool) (w : world),
    audio_data vf = [] -> model_loads E = true ->
    WebSocket.clone_voice_multilingual uni_alnum L E t vf output_path enhance_quality w =
      (Raise ValueError, w) /\
    Realtime.anext L E progress_callback (Realtime.clone_voice_realtime t vf) w =
      (Realtime.Failed ValueError, Realtime.Finished, w).
Proof.
  intros uni_alnum L E cb t vf out enh w Hempty Hload. split.
  - unfold WebSocket.clone_voice_multilingual, rbind, _ensure_model_loaded.
    rewrite Hload, Hempty. reflexivity.
  - unfold Realtime.clone_voice_realtime, Realtime.anext, Realtime.prologue,
           rbind, _ensure_model_loaded.
    rewrite Hload, Hempty. reflexivity.
Qed.

(** X12 at voice features without samples. *)
Lemma X12_empty_reference_witness :
  WebSocket.clone_voice_multilingual ascii_table lenient_lib steady_engine
    two_sentences no_voice "out/a.wav" true empty_world = (Raise ValueError, empty_world).
Proof.
  apply (X12_empty_reference_is_a_value_error ascii_table lenient_lib steady_engine None
           two_sentences no_voice "out/a.wav" true empty_world); reflexivity.
Defined.

(** ** What a successful single-shot run has done *)

(** X14.  If [clone_voice_multilingual] of the WebSocket cloner returns, it
    returns [output_path]; it has made exactly one engine call, for the
    canonicalized text, with its speaker file, the primary language of the
    raw text and [split_sentences=False]; the output file holds the
    engine's answer after [_minimal_audio_cleanup]; and the speaker file is
    gone. *)
Theorem X14_websocket_success (uni_alnum : Z -> bool) (L : NumLib) (E : Engine)
    (t : text) (vf : voice_features) (out : string) (enh : bool) (w : world) (p : string) :
  fst (WebSocket.clone_voice_multilingual uni_alnum L E t vf out enh w) = Ok p ->
  let w' := snd (WebSocket.clone_voice_multilingual uni_alnum L E t vf out enh w) in
  p = out /\
  tts_calls w' = tts_calls w ++ [websocket_call uni_alnum t] /\
  exists generated,
    synthesize E (length (tts_calls w)) (websocket_call uni_alnum t) = Synthesized generated /\
    files w' !! out =
      Some (GeneratedAudio
              (default generated (WebSocket._minimal_audio_cleanup L (Some generated)))) /\
    (out <> WebSocket.temp_speaker_path -> files w' !! WebSocket.temp_speaker_path = None).
Proof.
  unfold WebSocket.clone_voice_multilingual, rbind, _ensure_model_loaded, of_option,
         makedirs_for, sf_write, try_finally, tts, rret, rraise.
  fold (websocket_call uni_alnum t).
  destruct (model_loads E); [|discriminate].
  destruct (normalize_reference _); simpl; [|discriminate].
  destruct (can_mkdir E out); [|discriminate].
  destruct (can_write E WebSocket.temp_speaker_path); [|discriminate].
  simpl.
  destruct (synthesize E _ _) as [generated| |] eqn:Hsyn; simpl; try discriminate.
  destruct (can_write E out); simpl; [|discriminate].
  intros [= <-]. split; [reflexivity|]. split; [reflexivity|].
  exists generated. split; [reflexivity|]. split.
  - apply lookup_insert_eq.
  - intros Hne. rewrite lookup_insert_ne by exact Hne. apply lookup_delete_eq.
Qed.

(** X14 at a run over two sentences with an engine that answers. *)
Lemma X14_websocket_success_witness :
  tts_calls (snd (WebSocket.clone_voice_multilingual ascii_table lenient_lib steady_engine
                    two_sentences demo_voice "out/a.wav" true empty_world)) =
  [websocket_call ascii_table two_sentences].
Proof.
  destruct (X14_websocket_success ascii_table lenient_lib steady_engine two_sentences
              demo_voice "out/a.wav" true empty_world "out/a.wav") as [_ [H _]].
  - vm_compute. reflexivity.
  - exact H.
Defined.

Lemma synthesize_once_ok (E : Engine) (optimized : text) (primary : lang)
    (w w' : world) (generated : wave) :
  Multilingual.synthesize_once E optimized primary w = (Ok generated, w') ->
  files w' = files w /\
  exists calls,
    tts_calls w' = tts_calls w ++ calls /\
    answered E (length (tts_calls w))
      (Multilingual.tts_params optimized primary true)
      (Multilingual.tts_params optimized primary false) calls generated.
Proof.
  unfold Multilingual.synthesize_once, tts, answered.
  destruct (has_inner_model E).
  - destruct (synthesize E _ (Multilingual.tts_params optimized primary true)) eqn:H1; simpl.
    + intros [= <- <-]. split; [reflexivity|]. eexists. split; [reflexivity|]. left. auto.
    + rewrite length_app, Nat.add_1_r.
      destruct (synthesize E _ (Multilingual.tts_params optimized primary false)) eqn:H2;
        simpl; try discriminate.
      intros [= <- <-]. split; [reflexivity|].
      eexists. split; [rewrite <- app_assoc; reflexivity|]. right. left. auto.
    + discriminate.
  - destruct (synthesize E _ _) eqn:H1; simpl; try discriminate.
    intros [= <- <-]. split; [reflexivity|]. eexists. split; [reflexivity|]. right. right. auto.
Qed.

(** X15.  If [clone_voice_multilingual] of MultilingualVoiceCloner returns,
    it returns [output_path] and the text had a token; it has made one
    engine call, or two when the call with the sampling parameters raised
    TypeError and the call without them answered, each for the
    canonicalized text with the primary language of the raw text; the output
    file holds the answer after [_clean_audio_artifacts], the enhancement
    (if asked for and the canonicalized text has fewer than 100 characters)
    and [_minimal_final_cleanup]; and the speaker file is gone. *)
Theorem X15_multilingual_success (uni_alnum : Z -> bool) (L : NumLib) (E : Engine)
    (t : text) (vf : voice_features) (out : string) (enh : bool) (w : world) (p : string) :
  fst (Multilingual.clone_voice_multilingual uni_alnum L E t vf out enh w) = Ok p ->
  let w' := snd (Multilingual.clone_voice_multilingual uni_alnum L E t vf out enh w) in
  let optimized := Multilingual.optimize_text_for_voice_cloning uni_alnum t in
  let primary :=
    primary_language (hindi_ratio (Multilingual.detect_text_language_segments uni_alnum t)) in
  p = out /\ split t <> [] /\
  exists calls generated,
    tts_calls w' = tts_calls w ++ calls /\
    answered E (length (tts_calls w))
      (Multilingual.tts_params optimized primary true)
      (Multilingual.tts_params optimized primary false) calls generated /\
    files w' !! out =
      Some (GeneratedAudio (multilingual_post uni_alnum L t vf enh generated)) /\
    (out <> Multilingual.temp_speaker_path ->
     files w' !! Multilingual.temp_speaker_path = None).
Proof.
  unfold Multilingual.clone_voice_multilingual, rbind, _ensure_model_loaded, of_option,
         makedirs_for, sf_write, try_finally, rret, rraise.
  destruct (model_loads E); [|discriminate].
  destruct (split t) as [|tok toks] eqn:Hsplit.
  { rewrite (detect_no_tokens uni_alnum t Hsplit). discriminate. }
  assert (Hratio : hindi_ratio_unguarded (Multilingual.detect_text_language_segments uni_alnum t)
                   = Some (hindi_ratio (Multilingual.detect_text_language_segments uni_alnum t))).
  { unfold Multilingual.detect_text_language_segments. rewrite Hsplit. reflexivity. }
  rewrite Hratio. simpl.
  destruct (can_mkdir E out); [|discriminate].
  destruct (can_write E Multilingual.temp_speaker_path); [|discriminate].
  set (optimized := Multilingual.optimize_text_for_voice_cloning uni_alnum t).
  set (primary := primary_language _).
  set (w1 := {| files := _; tts_calls := tts_calls w |}).
  destruct (Multilingual.synthesize_once E optimized primary w1) as [[generated|e] w2] eqn:Hs;
    simpl in *; [|discriminate].
  destruct (synthesize_once_ok _ _ _ _ _ _ Hs) as [Hfiles [calls [Hc1 Hc2]]].
  destruct (can_write E out); simpl; [|discriminate].
  intros [= <-]. split; [reflexivity|]. split; [discriminate|].
  exists calls, generated. split; [exact Hc1|]. split; [exact Hc2|]. split.
  - apply lookup_insert_eq.
  - intros Hne. rewrite lookup_insert_ne by exact Hne. apply lookup_delete_eq.
Qed.

(** X15 at a run of ["Good morning aap kaise hain?"] with an engine without
    inner model. *)
Lemma X15_multilingual_success_witness :
  split scenario_A <> [] /\
  exists calls generated,
    tts_calls (snd (Multilingual.clone_voice_multilingual ascii_table lenient_lib
                      steady_engine scenario_A demo_voice "out/a.wav" false empty_world)) =
      calls /\
    answered steady_engine 0
      (Multilingual.tts_params
         (Multilingual.optimize_text_for_voice_cloning ascii_table scenario_A) en true)
      (Multilingual.tts_params
         (Multilingual.optimize_text_for_voice_cloning ascii_table scenario_A) en false)
      calls generated.
Proof.
  destruct (X15_multilingual_success ascii_table lenient_lib steady_engine scenario_A
              demo_voice "out/a.wav" false empty_world "out/a.wav")
    as [_ [Hne [calls [generated [Hc [Ha _]]]]]].
  - vm_compute. reflexivity.
  - split; [exact Hne|]. exists calls, generated. split; [exact Hc | exact Ha].
Defined.

(** ** The stream, sentence by sentence *)

Lemma stream_chunks_are_clean_sentences_aux (s : text) :
  Forall (fun c => Realtime.is_nil (strip c) = false) (Realtime._split_text_into_chunks s).
Proof.
  unfold Realtime._split_text_into_chunks.
  pose proof (re_split_pieces [] s false eq_refl) as Hp.
  change (Realtime.re_split_aux [] false s) with (Realtime.re_split_sentences s) in Hp.
  destruct (chunks_of_pieces _ Hp) as [H1 _].
  eapply Forall_impl; [exact H1|]. intros c Hc. apply clean_sentence_not_blank, Hc.
Qed.

Lemma consume_suspended_order (L : NumLib) (E : Engine) (cb : option (nat -> bool))
    (temp : string) (primary : lang) (k : nat) :
  forall (rest : list text) (i : nat) (w : world),
    Forall (fun c => Realtime.is_nil (strip c) = false) rest ->
    exists n,
      tts_calls (snd (Realtime.consume L E cb k (Realtime.Suspended rest i temp primary) w)) =
        tts_calls w ++ List.map (stream_call temp primary) (take n rest) /\
      stream_progress k rest
        (fst (fst (Realtime.consume L E cb k (Realtime.Suspended rest i temp primary) w)))
        (snd (fst (Realtime.consume L E cb k (Realtime.Suspended rest i temp primary) w))) n.
Proof.
  unfold stream_progress.
  induction k as [|k IH]; intros rest i w Hrest.
  - exists 0%nat. simpl. rewrite app_nil_r. repeat split; auto with arith; lia.
  - destruct rest as [|c rest'].
    + exists 0%nat. simpl. rewrite app_nil_r. repeat split; auto with arith; lia.
    + inversion Hrest as [|? ? Hc Hrest']; subst.
      cbn [Realtime.consume Realtime.anext Realtime.run_loop]. rewrite Hc.
      destruct (negb _).
      * exists 0%nat. simpl. rewrite app_nil_r.
        repeat split; auto with arith; try lia; discriminate.
      * fold (stream_call temp primary c). unfold tts.
        destruct (synthesize E (length (tts_calls w)) (stream_call temp primary c))
          as [generated| |].
        -- set (w1 := {| files := files w; tts_calls := tts_calls w ++ [_] |}).
           destruct (IH rest' (S i) w1 Hrest') as [n [Hcalls [H1 [H2 [H3 H4]]]]].
           destruct (Realtime.consume L E cb k (Realtime.Suspended rest' (S i) temp primary) w1)
             as [[got err] w2].
           simpl in *. exists (S n). rewrite Hcalls, <- app_assoc. simpl.
           split; [reflexivity|]. repeat split; try lia.
           ++ intros He. rewrite (H3 He). reflexivity.
           ++ intros He Hk. rewrite H4; [reflexivity | exact He | lia].
        -- exists 1%nat. simpl. rewrite ?take_0.
           repeat split; auto with arith; try lia; discriminate.
        -- exists 1%nat. simpl. rewrite ?take_0.
           repeat split; auto with arith; try lia; discriminate.
Qed.

Lemma prologue_ok (E : Engine) (t : text) (vf : voice_features) (w w1 : world)
    (chunks : list text) (temp : string) (primary : lang) :
  Realtime.prologue E t vf w = (Ok (chunks, temp, primary), w1) ->
  chunks = Realtime._split_text_into_chunks (Realtime.optimize_text_for_voice_cloning t) /\
  temp = Realtime.temp_speaker_path E t /\
  primary = primary_language (hindi_ratio (Realtime.detect_text_language_segments t)) /\
  tts_calls w1 = tts_calls w.
Proof.
  unfold Realtime.prologue, rbind, _ensure_model_loaded, of_option, sf_write, rret, rraise.
  destruct (model_loads E); [|discriminate].
  destruct (normalize_reference _); simpl; [|discriminate].
  destruct (can_write E _); [|discriminate].
  intros [= <- <- <- <-]. auto.
Qed.

Lemma prologue_failed (E : Engine) (t : text) (vf : voice_features) (w w1 : world) (e : exn) :
  Realtime.prologue E t vf w = (Raise e, w1) -> w1 = w.
Proof.
  unfold Realtime.prologue, rbind, _ensure_model_loaded, of_option, sf_write, rret, rraise.
  destruct (model_loads E); [|congruence].
  destruct (normalize_reference _); simpl; [|congruence].
  destruct (can_write E _); [discriminate | congruence].
Qed.

(** X16.  Whatever the engine, the callback and the consumer do, the stream
    calls the engine for the sentences of the canonicalized text one by one
    and in order, each with the speaker file of the stream, the primary
    language of the raw text and [split_sentences=False]: the calls a run
    adds are the calls for the first [n] sentences.  [n] is the number of
    chunks delivered, or one more when the last call raised; and when the
    consumer got fewer chunks than it asked for and no error, every sentence
    has been synthesized. *)
Theorem X16_stream_synthesizes_sentences_in_order :
  forall (L : NumLib) (E : Engine) (progress_callback : option (nat -> bool))
         (t : text) (vf : voice_features) (k : nat) (w : world),
    let sentences :=
      Realtime._split_text_into_chunks (Realtime.optimize_text_for_voice_cloning t) in
    let call_for :=
      stream_call (Realtime.temp_speaker_path E t)
        (primary_language (hindi_ratio (Realtime.detect_text_language_segments t))) in
    let '(got, err, w') :=
      Realtime.consume L E progress_callback k (Realtime.clone_voice_realtime t vf) w in
    exists n,
      tts_calls w' = tts_calls w ++ List.map call_for (take n sentences) /\
      stream_progress k sentences got err n.
Proof.
  intros L E cb t vf k w sentences call_for.
  destruct k as [|k].
  - exists 0%nat. simpl. rewrite app_nil_r. unfold stream_progress.
    repeat split; auto with arith; lia.
  - unfold Realtime.clone_voice_realtime.
    cbn [Realtime.consume Realtime.anext].
    destruct (Realtime.prologue E t vf w) as [[[[chunks temp] primary]|e] w1] eqn:Hp.
    + destruct (prologue_ok _ _ _ _ _ _ _ _ Hp) as [-> [-> [-> Hcalls]]].
      fold sentences.
      assert (Hclean : Forall (fun c => Realtime.is_nil (strip c) = false) sentences).
      { apply (stream_chunks_are_clean_sentences_aux). }
      destruct (consume_suspended_order L E cb (Realtime.temp_speaker_path E t)
                  (primary_language (hindi_ratio (Realtime.detect_text_language_segments t)))
                  (S k) sentences 0 w1 Hclean) as [n [Hn Hprog]].
      cbn [Realtime.consume Realtime.anext] in Hn, Hprog.
      destruct (Realtime.run_loop L E cb sentences 0 _ _ w1) as [[d g1] w2].
      destruct d as [pcm| |e].
      * destruct (Realtime.consume L E cb k g1 w2) as [[got err] w3].
        exists n. rewrite <- Hcalls. split; [exact Hn | exact Hprog].
      * exists n. rewrite <- Hcalls. split; [exact Hn | exact Hprog].
      * exists n. rewrite <- Hcalls. split; [exact Hn | exact Hprog].
    + rewrite (prologue_failed _ _ _ _ _ _ Hp).
      exists 0%nat. simpl. rewrite app_nil_r. unfold stream_progress.
      repeat split; auto with arith; try lia; discriminate.
Qed.

(** ** The stream as the WebSocket server drives it *)

Lemma run_loop_server_callback (L : NumLib) (E : Engine)
    (chunks : list text) (i : nat) (temp : string) (primary : lang) (w : world) :
  let '(d, g, w') := Realtime.run_loop L E server_progress_callback chunks i temp primary w in
  g = Realtime.Finished /\ tts_calls w' = tts_calls w /\
  d = (if forallb (fun c => Realtime.is_nil (strip c)) chunks
       then Realtime.StopAsyncIteration else Realtime.Failed CallbackError).
Proof.
  revert i. induction chunks as [|chunk rest IH]; intros i; simpl; [auto|].
  destruct (Realtime.is_nil (strip chunk)); simpl; [apply IH | auto].
Qed.

Lemma forallb_false_of_not_blank (l : list text) :
  l <> [] -> Forall (fun c => Realtime.is_nil (strip c) = false) l ->
  forallb (fun c => Realtime.is_nil (strip c)) l = false.
Proof.
  intros Hne H. destruct H as [|c l' Hc _]; [congruence|]. simpl. rewrite Hc. reflexivity.
Qed.

(** X17.  Driven with the progress callback of
    [handle_realtime_speech_generation], the stream never delivers a chunk
    and never calls the engine: the callback is called before the engine,
    with one argument where it takes two.  A stream that got as far as its
    first sentence ends with that error; a stream without sentences ends
    without one. *)
Theorem X17_server_stream_delivers_nothing :
  forall (L : NumLib) (E : Engine) (t : text) (vf : voice_features) (k : nat) (w : world),
    let sentences :=
      Realtime._split_text_into_chunks (Realtime.optimize_text_for_voice_cloning t) in
    let '(got, err, w') :=
      Realtime.consume L E server_progress_callback k
        (Realtime.clone_voice_realtime t vf) w in
    got = [] /\ tts_calls w' = tts_calls w /\
    ((0 < k)%nat -> model_loads E = true -> audio_data vf <> [] ->
     can_write E (Realtime.temp_speaker_path E t) = true ->
     err = match sentences with [] => None | _ => Some CallbackError end).
Proof.
  intros L E t vf k w sentences.
  destruct k as [|k]; [simpl; split; [reflexivity | split; [reflexivity | lia]]|].
  unfold Realtime.clone_voice_realtime. cbn [Realtime.consume Realtime.anext].
  destruct (Realtime.prologue E t vf w) as [[[[chunks temp] primary]|e] w1] eqn:Hp.
  - destruct (prologue_ok _ _ _ _ _ _ _ _ Hp) as [-> [-> [-> Hcalls]]].
    fold sentences.
    pose proof (run_loop_server_callback L E sentences 0 (Realtime.temp_speaker_path E t)
                  (primary_language (hindi_ratio (Realtime.detect_text_language_segments t)))
                  w1) as H.
    destruct (Realtime.run_loop L E server_progress_callback sentences 0 _ _ w1)
      as [[d g1] w2].
    destruct H as [-> [Hc Hd]]. subst d.
    pose proof (stream_chunks_are_clean_sentences_aux
                  (Realtime.optimize_text_for_voice_cloning t)) as Hclean.
    fold sentences in Hclean.
    destruct sentences as [|c rest].
    + simpl. rewrite Hc, Hcalls. auto.
    + rewrite (forallb_false_of_not_blank (c :: rest)) by (discriminate || exact Hclean).
      simpl. rewrite Hc, Hcalls. auto.
  - rewrite (prologue_failed _ _ _ _ _ _ Hp).
    split; [reflexivity|]. split; [reflexivity|].
    intros _ Hload Hne Hwrite. exfalso.
    unfold Realtime.prologue, rbind, _ensure_model_loaded, of_option, sf_write in Hp.
    rewrite Hload, Hwrite in Hp.
    unfold normalize_reference, peak_normalize, np_max, np_abs in Hp.
    destruct (audio_data vf) as [|x r]; [congruence|]. simpl in Hp. discriminate.
Qed.

(** X17 at a stream over two sentences. *)
Lemma X17_server_stream_witness :
  snd (fst (Realtime.consume lenient_lib steady_engine server_progress_callback 3
              (Realtime.clone_voice_realtime two_sentences demo_voice) empty_world)) =
  Some CallbackError.
Proof.
  pose proof (X17_server_stream_delivers_nothing lenient_lib steady_engine two_sentences
                demo_voice 3 empty_world) as H.
  cbv zeta in H.
  destruct (Realtime.consume lenient_lib steady_engine server_progress_callback 3
              (Realtime.clone_voice_realtime two_sentences demo_voice) empty_world)
    as [[got err] w'].
  destruct H as [_ [_ H]]. simpl.
  rewrite H; [vm_compute; reflexivity | lia | reflexivity | discriminate | reflexivity].
Defined.

(** ** Levels and fades *)

(** ** Peaks *)

Lemma qmax_ge_l (a b : Q) : (a <= qmax a b)%Q.
Proof.
  unfold qmax. destruct (Qle_bool a b) eqn:H; [apply Qle_bool_iff, H | apply Qle_refl].
Qed.

Lemma qmax_ge_r (a b : Q) : (b <= qmax a b)%Q.
Proof.
  unfold qmax. destruct (Qle_bool a b) eqn:H; [apply Qle_refl|].
  destruct (Qlt_le_dec b a) as [Hlt|Hle]; [apply Qlt_le_weak, Hlt|].
  apply Qle_bool_iff in Hle. congruence.
Qed.

Lemma fold_qmax_ge (l : wave) (acc : Q) :
  (acc <= fold_left qmax l acc)%Q /\ Forall (fun x => (x <= fold_left qmax l acc)%Q) l.
Proof.
  revert acc. induction l as [|y l IH]; intros acc; simpl.
  - split; [apply Qle_refl | constructor].
  - destruct (IH (qmax acc y)) as [H1 H2]. split.
    + apply (Qle_trans _ (qmax acc y)); [apply qmax_ge_l | exact H1].
    + constructor; [|exact H2].
      apply (Qle_trans _ (qmax acc y)); [apply qmax_ge_r | exact H1].
Qed.

Lemma np_max_bound (w : wave) (m : Q) :
  np_max w = Some m -> Forall (fun x => (x <= m)%Q) w.
Proof.
  destruct w as [|x r]; [discriminate|]. simpl. intros [= <-].
  destruct (fold_qmax_ge r x) as [H1 H2]. constructor; assumption.
Qed.

Lemma peak_bound (w : wave) (peak : Q) :
  np_max (np_abs w) = Some peak -> Forall (fun x => (Qabs x <= peak)%Q) w.
Proof.
  intros H. apply np_max_bound in H. unfold np_abs in H.
  induction w as [|x r IH]; [constructor|].
  inversion H; subst. constructor; auto.
Qed.

(** After [audio / peak * level] no sample is louder than [level]. *)
Lemma scale_to_bound (level peak : Q) (w : wave) :
  (0 <= level)%Q -> (0 < peak)%Q ->
  Forall (fun x => (Qabs x <= peak)%Q) w ->
  Forall (fun x => (Qabs x <= level)%Q) (scale_to level peak w).
Proof.
  intros Hl Hp H. unfold scale_to.
  induction H as [|x r Hx _ IH]; simpl; constructor; [|exact IH].
  rewrite Qabs_Qmult, (Qabs_pos level Hl).
  apply (Qle_trans _ (1 * level)%Q); [|rewrite Qmult_1_l; apply Qle_refl].
  apply Qmult_le_compat_r; [|exact Hl].
  unfold Qdiv. rewrite Qabs_Qmult.
  rewrite (Qabs_pos (/ peak)) by (apply Qlt_le_weak, Qinv_lt_0_compat, Hp).
  apply Qle_shift_div_r; [exact Hp|]. rewrite Qmult_1_l. exact Hx.
Qed.

(** ** Gains of a fade *)

Lemma ramp_is_gain (i m : nat) :
  (i <= m)%nat -> (0 < m)%nat ->
  is_gain (inject_Z (Z.of_nat i) / inject_Z (Z.of_nat m))%Q.
Proof.
  intros Hi Hm.
  assert (Hpos : (0 < inject_Z (Z.of_nat m))%Q).
  { change 0%Q with (inject_Z 0). rewrite <- Zlt_Qlt. lia. }
  split.
  - apply Qle_shift_div_l; [exact Hpos|]. rewrite Qmult_0_l.
    change 0%Q with (inject_Z 0). rewrite <- Zle_Qle. lia.
  - apply Qle_shift_div_r; [exact Hpos|]. rewrite Qmult_1_l.
    rewrite <- Zle_Qle. lia.
Qed.

Lemma is_gain_proper (f g : Q) : (f == g)%Q -> is_gain g -> is_gain f.
Proof. intros E [H1 H2]. split; rewrite E; assumption. Qed.

Lemma is_gain_complement (f : Q) : is_gain f -> is_gain (1 - f)%Q.
Proof.
  intros [H1 H2]. split.
  - unfold Qminus. rewrite <- (Qplus_opp_r f). apply Qplus_le_compat; [exact H2 | apply Qle_refl].
  - unfold Qminus. rewrite <- (Qplus_0_r 1) at 2.
    apply Qplus_le_compat; [apply Qle_refl|].
    apply (Qopp_le_compat 0 f) in H1. exact H1.
Qed.

Lemma linspace_up_gains (k : nat) : Forall is_gain (np_linspace 0 1 k).
Proof.
  destruct k as [|[|m]]; [constructor | repeat constructor; discriminate|].
  unfold np_linspace. apply List.Forall_forall. intros f Hf.
  apply in_map_iff in Hf as [i [<- Hi]]. apply in_seq in Hi.
  apply (is_gain_proper _ (inject_Z (Z.of_nat i) / inject_Z (Z.of_nat (S m)))%Q).
  - unfold Qdiv. ring.
  - apply ramp_is_gain; lia.
Qed.

Lemma linspace_down_gains (k : nat) : Forall is_gain (np_linspace 1 0 k).
Proof.
  destruct k as [|[|m]]; [constructor | repeat constructor; discriminate|].
  unfold np_linspace. apply List.Forall_forall. intros f Hf.
  apply in_map_iff in Hf as [i [<- Hi]]. apply in_seq in Hi.
  apply (is_gain_proper _ (1 - inject_Z (Z.of_nat i) / inject_Z (Z.of_nat (S m)))%Q).
  - unfold Qdiv. ring.
  - apply is_gain_complement, ramp_is_gain; lia.
Qed.

Lemma gain_keeps_quiet (level y f : Q) :
  (Qabs y <= level)%Q -> is_gain f -> (Qabs (y * f) <= level)%Q.
Proof.
  intros Hy [H0 H1]. rewrite Qabs_Qmult, (Qabs_pos f H0).
  apply (Qle_trans _ (Qabs y * 1)%Q); [|rewrite Qmult_1_r; exact Hy].
  rewrite !(Qmult_comm (Qabs y)).
  apply Qmult_le_compat_r; [exact H1 | apply Qabs_nonneg].
Qed.

Lemma mul_prefix_quiet (level : Q) (g a : wave) :
  Forall is_gain g -> quieter_than level a -> quieter_than level (mul_prefix g a).
Proof.
  intros Hg. revert a. induction Hg as [|f g' Hf _ IH]; intros a Ha; [destruct a; exact Ha|].
  destruct Ha as [|y a' Hy Ha']; [constructor|]. simpl.
  constructor; [apply gain_keeps_quiet; assumption | apply IH, Ha'].
Qed.

Lemma mul_suffix_quiet (level : Q) (g a : wave) :
  Forall is_gain g -> quieter_than level a -> quieter_than level (mul_suffix g a).
Proof.
  intros Hg Ha. unfold mul_suffix, quieter_than. apply Forall_app. split.
  - apply Forall_take, Ha.
  - apply mul_prefix_quiet; [exact Hg | apply Forall_drop, Ha].
Qed.

Lemma apply_fades_quiet (level : Q) (k : nat) (a : wave) :
  quieter_than level a -> quieter_than level (apply_fades linear k a).
Proof.
  intros Ha. unfold apply_fades.
  assert (Hid : forall l : wave, List.map linear l = l).
  { intros l. unfold linear. apply map_id. }
  rewrite !Hid.
  apply mul_suffix_quiet; [apply linspace_down_gains|].
  apply mul_prefix_quiet; [apply linspace_up_gains | exact Ha].
Qed.

(** The working copy after the peak normalization of the minimal cleanups. *)
Lemma normalized_quiet (a : wave) (peak : Q) :
  np_max (np_abs a) = Some peak ->
  quieter_than (95 # 100) (if Qltb 0 peak then scale_to (95 # 100) peak a else a).
Proof.
  intros Hpeak. pose proof (peak_bound a peak Hpeak) as Hb.
  unfold Qltb. destruct (Qle_bool peak 0) eqn:Hle; simpl.
  - apply Qle_bool_iff in Hle.
    eapply Forall_impl; [exact Hb|]. intros x Hx. simpl in Hx.
    apply (Qle_trans _ peak); [exact Hx|].
    apply (Qle_trans _ 0); [exact Hle | discriminate].
  - apply scale_to_bound; [discriminate | | exact Hb].
    destruct (Qlt_le_dec 0 peak) as [H|H]; [exact H|].
    apply Qle_bool_iff in H. congruence.
Qed.

(** ** 16-bit samples *)

Lemma pcm16_in_range (x : Q) :
  (Qabs x <= 95 # 100)%Q -> -31128 <= Realtime.pcm16 x <= 31128.
Proof.
  destruct x as [n d]. unfold Qabs, Qle. cbn [Qnum Qden]. intros H.
  unfold Realtime.pcm16. cbn [Qmult Qnum Qden].
  rewrite Pos.mul_1_r.
  assert (Hq : -31128 <= Z.quot (n * 32767) (Z.pos d) <= 31128).
  { destruct (Z.le_gt_cases 0 n) as [Hn|Hn].
    - rewrite Z.quot_div_nonneg by lia. rewrite Z.abs_eq in H by lia. split.
      + apply (Z.le_trans _ 0); [lia|]. apply Z.div_pos; lia.
      + apply Z.lt_succ_r. apply Z.div_lt_upper_bound; lia.
    - replace (n * 32767) with (- (- n * 32767)) by lia.
      rewrite Z.quot_opp_l by lia. rewrite Z.quot_div_nonneg by lia.
      rewrite Z.abs_neq in H by lia.
      assert (0 <= (- n * 32767) / Z.pos d <= 31128); [|lia]. split.
      + apply Z.div_pos; lia.
      + apply Z.lt_succ_r. apply Z.div_lt_upper_bound; lia. }
  cbv zeta. set (z := Z.quot (n * 32767) (Z.pos d)) in *.
  replace ((-2147483648 <=? z) && (z <=? 2147483647)) with true
    by (symmetry; apply andb_true_iff; split; apply Z.leb_le; lia).
  rewrite Z.mod_small by lia. lia.
Qed.

Lemma realtime_cleanup_quiet (L : NumLib) (a tr : wave) :
  a <> [] -> librosa_trim L a 20 = Some tr ->
  exists out, Realtime._minimal_audio_cleanup L (Some a) = Some out /\
              quieter_than (95 # 100) out.
Proof.
  intros Hne Htrim. destruct a as [|x r]; [congruence|].
  unfold Realtime._minimal_audio_cleanup. eexists. split; [reflexivity|].
  unfold try_except, Realtime.minimal_cleanup_body, bind, get_audio, set_audio, call, ret.
  rewrite Htrim.
  destruct (np_max (np_abs tr)) as [peak|] eqn:Hpeak.
  - pose proof (normalized_quiet tr peak Hpeak) as Hq.
    destruct (Qltb 0 peak); [|exact Hq].
    destruct (_ =? 0)%nat; [exact Hq|].
    apply apply_fades_quiet, Hq.
  - destruct tr; [constructor | discriminate].
Qed.

(** X19.  When the silence trim of the realtime [_minimal_audio_cleanup]
    does not raise, every 16-bit sample of the chunk that is streamed lies
    between -31128 and 31128, however loud the engine's answer was: the
    conversion [(audio * 32767).astype(np.int16)] never leaves the range of
    [int16].  (Samples are finite here; the bound is the integer part of
    0.95 * 32767.) *)
Theorem X19_streamed_samples_fit_int16 :
  forall (L : NumLib) (generated trimmed : wave),
    generated <> [] -> librosa_trim L generated 20 = Some trimmed ->
    Forall (fun z => -31128 <= z <= 31128)
      (List.map Realtime.pcm16
         (default generated (Realtime._minimal_audio_cleanup L (Some generated)))).
Proof.
  intros L generated trimmed Hne Htrim.
  destruct (realtime_cleanup_quiet L generated trimmed Hne Htrim) as [out [-> Hq]].
  simpl. induction Hq as [|x r Hx _ IH]; simpl; constructor; [|exact IH].
  apply pcm16_in_range, Hx.
Qed.

(** X19 at an answer of two samples louder than full scale. *)
Lemma X19_streamed_samples_witness :
  List.map Realtime.pcm16
    (default loud_samples (Realtime._minimal_audio_cleanup lenient_lib (Some loud_samples))) =
    [20752; -31128] /\
  Forall (fun z => -31128 <= z <= 31128)
    (List.map Realtime.pcm16
       (default loud_samples (Realtime._minimal_audio_cleanup lenient_lib (Some loud_samples)))).
Proof.
  split; [vm_compute; reflexivity|].
  apply (X19_streamed_samples_fit_int16 lenient_lib loud_samples loud_samples);
    [discriminate | reflexivity].
Defined.

(** ** Where a fade starts and ends *)

Lemma mul_prefix_length (g a : wave) : length (mul_prefix g a) = length a.
Proof.
  revert a. induction g as [|f g IH]; intros a; [destruct a; reflexivity|].
  destruct a as [|y a']; [reflexivity|]. simpl. rewrite IH. reflexivity.
Qed.

Lemma mul_suffix_length (g a : wave) : length (mul_suffix g a) = length a.
Proof.
  unfold mul_suffix. rewrite length_app, mul_prefix_length, length_take, length_drop. lia.
Qed.

Lemma np_linspace_length (a b : Q) (k : nat) : length (np_linspace a b k) = k.
Proof.
  destruct k as [|[|m]]; [reflexivity | reflexivity|].
  unfold np_linspace. rewrite length_map, length_seq. reflexivity.
Qed.

Lemma apply_fades_length (shape : Q -> Q) (k : nat) (a : wave) :
  length (apply_fades shape k a) = length a.
Proof. unfold apply_fades. rewrite mul_suffix_length, mul_prefix_length. reflexivity. Qed.

Lemma mul_prefix_keeps_silent_start (g a : wave) :
  starts_silent a -> starts_silent (mul_prefix g a).
Proof.
  intros [x [rest [-> Hx]]]. destruct g as [|f g']; simpl.
  - exists x, rest. auto.
  - eexists _, _. split; [reflexivity|]. rewrite Hx. ring.
Qed.

Lemma mul_suffix_keeps_silent_start (g a : wave) :
  starts_silent a -> starts_silent (mul_suffix g a).
Proof.
  intros Ha. unfold mul_suffix.
  destruct (length a - length g)%nat as [|n] eqn:Hn.
  - rewrite take_0, drop_0. simpl. apply mul_prefix_keeps_silent_start, Ha.
  - destruct Ha as [x [rest [-> Hx]]]. simpl. exists x. eexists. split; [reflexivity | exact Hx].
Qed.

Lemma fade_in_starts_silent (k : nat) (a : wave) :
  (1 <= k)%nat -> a <> [] ->
  starts_silent (mul_prefix (List.map linear (np_linspace 0 1 k)) a).
Proof.
  intros Hk Ha. destruct a as [|y a']; [congruence|].
  destruct k as [|[|m]]; [lia| |]; simpl.
  - eexists _, _. split; [reflexivity|]. unfold linear. ring.
  - eexists _, _. split; [reflexivity|]. unfold linear, Qdiv. simpl. ring.
Qed.

Lemma mul_prefix_snoc (g c : wave) (f y : Q) :
  length g = length c ->
  mul_prefix (g ++ [f]) (c ++ [y]) = mul_prefix g c ++ [(y * f)%Q].
Proof.
  revert c. induction g as [|f0 g IH]; intros c Hlen; destruct c as [|y0 c']; try discriminate.
  - reflexivity.
  - simpl in *. rewrite IH by lia. reflexivity.
Qed.

Lemma linspace_down_last (m : nat) :
  exists g f, List.map linear (np_linspace 1 0 (S (S m))) = g ++ [f] /\
              length g = S m /\ (f == 0)%Q.
Proof.
  unfold np_linspace. rewrite seq_S, !List.map_app. simpl List.map at 3.
  eexists _, _. split; [reflexivity|]. split.
  - rewrite !length_map, length_seq. reflexivity.
  - unfold linear. simpl Nat.add.
    assert (Hm : ~ (inject_Z (Z.of_nat (S m)) == 0)%Q).
    { change 0%Q with (inject_Z 0). rewrite inject_Z_injective. lia. }
    field. exact Hm.
Qed.

Lemma fade_out_ends_silent (k : nat) (b : wave) :
  (2 <= k <= length b)%nat ->
  ends_silent (mul_suffix (List.map linear (np_linspace 1 0 k)) b).
Proof.
  intros [Hk Hlen]. destruct k as [|[|m]]; [lia | lia|].
  destruct (linspace_down_last m) as [g [f [Hg [Hgl Hf]]]].
  unfold mul_suffix. rewrite Hg.
  assert (Hglen : length (g ++ [f]) = S (S m)).
  { rewrite length_app, Hgl. simpl. lia. }
  rewrite Hglen.
  set (n := (length b - S (S m))%nat).
  assert (Hd : length (drop n b) = S (S m)).
  { rewrite length_drop. subst n. lia. }
  destruct (exists_last (l := drop n b)) as [c [y Hc]].
  { intros E. rewrite E in Hd. discriminate. }
  rewrite Hc. rewrite mul_prefix_snoc.
  - exists (take n b ++ mul_prefix g c), (y * f)%Q. split.
    + rewrite <- app_assoc. reflexivity.
    + rewrite Hf. ring.
  - rewrite Hc, length_app in Hd. simpl in Hd. lia.
Qed.

Lemma apply_fades_ends (k : nat) (a : wave) :
  (2 <= k <= length a)%nat ->
  length (apply_fades linear k a) = length a /\
  starts_silent (apply_fades linear k a) /\ ends_silent (apply_fades linear k a).
Proof.
  intros Hk. split; [apply apply_fades_length|]. unfold apply_fades. split.
  - apply mul_suffix_keeps_silent_start, fade_in_starts_silent; [lia|].
    intros ->. simpl in Hk. lia.
  - apply fade_out_ends_silent. rewrite mul_prefix_length. exact Hk.
Qed.

Lemma normalized_length (a : wave) (peak : Q) :
  length (if Qltb 0 peak then scale_to (95 # 100) peak a else a) = length a.
Proof. destruct (Qltb 0 peak); [apply length_map | reflexivity]. Qed.

(** X18.  When the silence trim of the WebSocket [_minimal_audio_cleanup]
    leaves more than 1000 samples, the waveform returned has as many
    samples as the trimmed one, and its first and its last sample are
    exactly zero: the fades start and end at gain 0. *)
Theorem X18_websocket_cleanup_fades_to_silence :
  forall (L : NumLib) (generated trimmed : wave),
    generated <> [] -> librosa_trim L generated 20 = Some trimmed ->
    (1000 < length trimmed)%nat ->
    exists out,
      WebSocket._minimal_audio_cleanup L (Some generated) = Some out /\
      length out = length trimmed /\ starts_silent out /\ ends_silent out.
Proof.
  intros L a tr Hne Htrim Hlen. destruct a as [|x r]; [congruence|].
  unfold WebSocket._minimal_audio_cleanup. eexists. split; [reflexivity|].
  unfold try_except, WebSocket.minimal_cleanup_body, bind, get_audio, set_audio, call, ret.
  rewrite Htrim.
  destruct (np_max (np_abs tr)) as [peak|] eqn:Hpeak;
    [|destruct tr; [simpl in Hlen; lia | discriminate]].
  assert (Hfade : forall n : wave, length n = length tr ->
            length (apply_fades linear (Nat.min 22 (length n / 100)) n) = length tr /\
            starts_silent (apply_fades linear (Nat.min 22 (length n / 100)) n) /\
            ends_silent (apply_fades linear (Nat.min 22 (length n / 100)) n)).
  { intros n Hn. rewrite <- Hn. apply apply_fades_ends.
    split; [apply Nat.min_glb; [lia|] | apply Nat.le_trans with (length n / 100)%nat].
    - apply Nat.div_le_lower_bound; lia.
    - apply Nat.le_min_r.
    - apply Nat.Div0.div_le_upper_bound. lia. }
  destruct (Qltb 0 peak); cbn beta iota.
  - assert (Hn : length (scale_to (95 # 100) peak tr) = length tr) by apply length_map.
    assert ((1000 <? length (scale_to (95 # 100) peak tr))%nat = true) as ->
      by (apply Nat.ltb_lt; lia).
    apply Hfade, Hn.
  - assert ((1000 <? length tr)%nat = true) as -> by (apply Nat.ltb_lt; lia).
    apply Hfade. reflexivity.
Qed.

(** X18 at a constant tone of 1001 samples. *)
Lemma X18_websocket_fades_witness :
  exists out,
    WebSocket._minimal_audio_cleanup lenient_lib (Some steady_tone) = Some out /\
    length out = 1001%nat /\ starts_silent out /\ ends_silent out.
Proof.
  destruct (X18_websocket_cleanup_fades_to_silence lenient_lib steady_tone steady_tone)
    as [out [H1 [H2 H3]]].
  - discriminate.
  - reflexivity.
  - unfold steady_tone. rewrite repeat_length. lia.
  - exists out. split; [exact H1|]. split; [|exact H3].
    rewrite H2. unfold steady_tone. apply repeat_length.
Defined.

(** X20.  When the silence trim of [_minimal_final_cleanup] leaves more than
    220 samples, the waveform returned has as many samples as the trimmed
    one, and its first and its last sample are exactly zero. *)
Theorem X20_final_cleanup_fades_to_silence :
  forall (L : NumLib) (generated trimmed : wave),
    generated <> [] ->
    librosa_trim L (centred_and_normalized generated) 25 = Some trimmed ->
    (220 < length trimmed)%nat ->
    length (Multilingual._minimal_final_cleanup L generated) = length trimmed /\
    starts_silent (Multilingual._minimal_final_cleanup L generated) /\
    ends_silent (Multilingual._minimal_final_cleanup L generated).
Proof.
  intros L a tr Hne Htrim Hlen. destruct a as [|x r]; [congruence|].
  unfold Multilingual._minimal_final_cleanup, try_except, Multilingual.minimal_final_body,
         bind, get_audio, set_audio, call, ret.
  unfold centred_and_normalized in Htrim.
  destruct (np_max (np_abs (remove_dc (x :: r)))) as [peak|] eqn:Hpeak;
    [|unfold remove_dc in Hpeak; simpl in Hpeak; discriminate].
  destruct (Qltb 0 peak); cbn beta iota; rewrite Htrim; cbn beta iota;
    (assert ((220 <? length tr)%nat = true) as -> by (apply Nat.ltb_lt; lia));
    apply apply_fades_ends; lia.
Qed.

(** X20 at a tone of 222 samples that alternates between 1/2 and -1/4: after
    the mean is removed and the peak is set, its first sample is 19/20 and
    its last one -19/20; the fades bring both to zero. *)
Lemma X20_final_fades_witness :
  (hd 0 (centred_and_normalized wavering_tone) == 19 # 20)%Q /\
  (List.last (centred_and_normalized wavering_tone) 0 == - (19 # 20))%Q /\
  length (Multilingual._minimal_final_cleanup lenient_lib wavering_tone) = 222%nat /\
  starts_silent (Multilingual._minimal_final_cleanup lenient_lib wavering_tone) /\
  ends_silent (Multilingual._minimal_final_cleanup lenient_lib wavering_tone).
Proof.
  assert (Hlen : length (centred_and_normalized wavering_tone) = 222%nat)
    by (vm_compute; reflexivity).
  split; [vm_compute; reflexivity|]. split; [vm_compute; reflexivity|].
  rewrite <- Hlen.
  apply (X20_final_cleanup_fades_to_silence lenient_lib wavering_tone
           (centred_and_normalized wavering_tone)).
  - discriminate.
  - reflexivity.
  - rewrite Hlen. lia.
Defined.

(** ** The validation report *)

Lemma optional_issue_length {A} (b : bool) (x : A) :
  (length (if b then [x] else []) <= 1)%nat.
Proof. destruct b; simpl; lia. Qed.

(** X21.  The report of [validate_audio_quality] pairs every issue with one
    recommendation and holds at most three issues, since too short and too
    long exclude each other.  When the file could be read, the score is 100
    minus 25 per issue and never below 25, and the sample is valid exactly
    when there is no issue, that is when the score is 100; for a file with
    samples that means: a duration from 3 to 60 seconds, an RMS level not
    below 0.01 and at most 70% of the samples under 0.01 in magnitude.  A
    report without score is the one of the [except] branch, invalid and with
    its one issue, and comes only from a file that could not be loaded or
    from a sample rate of 0. *)
Theorem X21_validation_report_shape :
  forall (L : NumLib) (loaded : option (wave * Z)),
    let r := Multilingual.validate_audio_quality L loaded in
    length (Multilingual.recommendations r) = length (Multilingual.issues r) /\
    (length (Multilingual.issues r) <= 3)%nat /\
    (Multilingual.is_valid r = true <-> Multilingual.issues r = []) /\
    (forall score, Multilingual.quality_score r = Some score ->
       score = 100 - 25 * Z.of_nat (length (Multilingual.issues r)) /\ 25 <= score <= 100 /\
       (Multilingual.is_valid r = true <-> score = 100)) /\
    (Multilingual.quality_score r = None ->
     Multilingual.is_valid r = false /\ Multilingual.issues r = [Multilingual.ValidationFailed] /\
     (loaded = None \/ exists audio, loaded = Some (audio, 0))) /\
    (forall audio sr, loaded = Some (audio, sr) -> sr <> 0 -> audio <> [] ->
       let d := (inject_Z (Z.of_nat (length audio)) / inject_Z sr)%Q in
       let silent := (inject_Z (Z.of_nat (Multilingual.count_silent audio)) /
                      inject_Z (Z.of_nat (length audio)))%Q in
       Multilingual.duration r = Some d /\
       (Multilingual.is_valid r = true <->
        Qltb d 3 = false /\ Qltb 60 d = false /\
        Qltb (rms L audio) (1 # 100) = false /\ Qltb (7 # 10) silent = false)).
Proof.
  intros L loaded r. subst r.
  destruct loaded as [[audio sr]|]; simpl.
  2: { split; [reflexivity|]. split; [lia|].
       split; [split; discriminate|]. split; [discriminate|].
       split; [auto | discriminate]. }
  destruct (sr =? 0) eqn:Hsr; simpl.
  { apply Z.eqb_eq in Hsr. subst sr.
    split; [reflexivity|]. split; [lia|].
    split; [split; discriminate|]. split; [discriminate|].
    split; [intros _; split; [reflexivity|]; split; [reflexivity|];
            right; exists audio; reflexivity|].
    intros audio' sr' [= <- <-] Hne. congruence. }
  set (d := (inject_Z (Z.of_nat (length audio)) / inject_Z sr)%Q).
  set (i1 := if Qltb d 3 then [(Multilingual.AudioTooShort, Multilingual.UseLongerSample)]
             else if Qltb 60 d then [(Multilingual.AudioVeryLong, Multilingual.UseClearSegment)] else []).
  set (i2 := match audio with
             | [] => []
             | _ => if Qltb (rms L audio) (1 # 100) then [(Multilingual.LevelTooLow, Multilingual.IncreaseVolume)] else []
             end).
  set (i3 := match audio with [] => [] | _ => _ end).
  assert (H1 : (length i1 <= 1)%nat).
  { subst i1. destruct (Qltb d 3); [simpl; lia|]. apply optional_issue_length. }
  assert (H2 : (length i2 <= 1)%nat).
  { subst i2. destruct audio; [simpl; lia|]. apply optional_issue_length. }
  assert (H3 : (length i3 <= 1)%nat).
  { subst i3. destruct audio; [simpl; lia|]. apply optional_issue_length. }
  set (found := i1 ++ i2 ++ i3).
  assert (Hlen : (length found <= 3)%nat).
  { subst found. rewrite !length_app. lia. }
  rewrite !length_map.
  split; [reflexivity|]. split; [exact Hlen|].
  split.
  { rewrite Nat.eqb_eq. split.
    - intros E. destruct found; [reflexivity | discriminate].
    - intros E. apply (f_equal (@length Multilingual.issue)) in E. rewrite length_map in E. exact E. }
  split; [intros score [= <-]; rewrite Nat.eqb_eq; lia|].
  split; [discriminate|].
  intros audio' sr' [= <- <-] _ Hne. split; [reflexivity|].
  rewrite Nat.eqb_eq. subst found i1 i2 i3. fold d.
  destruct audio as [|x0 r0]; [congruence|].
  destruct (Qltb d 3); [simpl; split; [discriminate | intros [? _]; discriminate]|].
  destruct (Qltb 60 d); [simpl; split; [discriminate | intros [_ [? _]]; discriminate]|].
  destruct (Qltb (rms L (x0 :: r0)) (1 # 100));
    [simpl; split; [discriminate | intros [_ [_ [? _]]]; discriminate]|].
  destruct (Qltb (7 # 10) _);
    [simpl; split; [discriminate | intros [_ [_ [_ ?]]]; discriminate]|].
  simpl. tauto.
Qed.
